(** * dynamiqs: time-dependent arrays, the Lindbladian and tensor conversion

    A shallow embedding of
      - [src/dynamiqs/time_array.py]   (the [TimeArray] family and its factories),
      - [src/dynamiqs/mesolve/me_solver.py] ([MESolver]),
      - [src/torchqdynamics/types.py]  ([to_tensor]),
    together with the part of the array libraries (jax.numpy, torch) and of
    the Python object model that this code relies on.

    Conventions.
      - An n-dimensional array is a shape and a row-major buffer, as in the
        libraries.  Entries are taken in an arbitrary scalar type [C] that
        offers the complex operations the code uses.  Where a proof needs a
        law of these operations it is one of [ScalarLaws] or
        [ScalarRingLaws]: laws of zero, of signs, of conjugates and of
        the exchange of two operands, which finite floating-point numbers
        satisfy as exact ones do (the sign of zero apart); no proof
        regroups a sum or a product.  Two instances
        are given: exact complex rationals, and complex numbers of binary64
        parts with rounded operations.
      - Times are exact rationals ([Qc]).
      - A Python call either returns a value or raises: [result].
      - An array-like argument is represented by the array that
        [jnp.asarray] makes of it; the dispatcher [totime], the [dtype]
        properties and [__repr__] are not embedded. *)

From Stdlib Require Import String Bool ZArith QArith Qcanon Arith Lia List Sorted.
Import ListNotations.
Local Open Scope nat_scope.

Set Implicit Arguments.
Set Warnings "-register-all".

(** ** Exceptions and results *)

(** The numeric types an array can hold. *)
Inductive dtype : Type := float32 | float64 | complex64 | complex128.

(** What a library call complains about when it rejects its operands. *)
Inductive array_error : Type :=
| IncompatibleShapes            (* operands do not broadcast / do not line up *)
| BadReshape                    (* reshape to a shape of another size *)
| BadAxis                       (* axis out of range for the operand *)
| IndexOutOfBounds              (* index into an axis of size 0 *)
| EmptySequence                 (* stack / concatenate of no arrays *)
| TooFewDimensions.             (* matrix operation on an array with ndim < 2 *)

(** The messages of the [TypeError]s the source raises itself; each
    constructor carries the values the f-string interpolates. *)
Inductive message : Type :=
| PWCValuesShape (actual : list nat)
    (* 'For a PWC array `(times, values, array)`, argument `values` must have
       shape `(len(times)-1, ...)`, but has shape {tuple(values.shape)}.' *)
| PWCArrayNotSquare (actual : list nat)
    (* '... argument `array` must be a square matrix, but has shape {...}.' *)
| ModulatedNotFunction (ty : string)
    (* '... argument `f` must be a function, but has type {obj_type_str(f)}.' *)
| ModulatedNotArray (ty : string)
    (* '... argument `f` must return an array, but returns type {...}.' *)
| ModulatedDtype (dt rdt actual : dtype)
    (* '... the array returned by the function must have dtype ..., but has
       dtype `{f0.dtype}`. ...' *)
| ModulatedArrayNotSquare (actual : list nat)
    (* 'For a modulated time array `(f, array)`, argument `array` must be a
       square matrix, but has shape {tuple(array.shape)}.' *)
| CallableNotArray (ty : string)
    (* 'The time-dependent operator must be a {type_str(Array)}, but has type
       {obj_type_str(f0)}. ...' *)
| CallableDtype (dt actual : dtype)
    (* 'The time-dependent operator must have dtype `{dtype}`, but has dtype
       `{f0.dtype}`. ...' *)
| ToTensorUnsupported (ty : string)
    (* 'Input of type {type(x)} is not supported. `to_tensor` only supports
       ...' *)
| TupleArity (got : nat)
    (* 'tuple expected at most 1 argument, got {got}' *)
| NotIterable (ty : string)
    (* "'{ty}' object is not iterable" *)
| UnsupportedOperand (op : string).
    (* "unsupported operand type(s) for {op}: ..." *)

Inductive exn : Type :=
| TypeError (msg : message)
| MalformedTimes                 (* raised by [check_time_array] *)
| AttributeError (ty attr : string)
| IndexError
| RecursionError
| ArrayError (e : array_error).  (* raised inside jax.numpy / torch *)

Inductive result (A : Type) : Type :=
| Ok (a : A)
| Raise (e : exn).
Arguments Ok {A} a.
Arguments Raise {A} e.

Definition bind {A B : Type} (m : result A) (k : A -> result B) : result B :=
  match m with
  | Ok a => k a
  | Raise e => Raise e
  end.

Declare Scope result_scope.
Delimit Scope result_scope with result.
Notation "x <- m ;; k" := (bind m (fun x => k))
  (at level 61, m at next level, right associativity) : result_scope.
Local Open Scope result_scope.

(** A list comprehension [[g(x) for x in l]]: the elements are evaluated in
    order and the first exception ends the evaluation. *)
Fixpoint mapM {A B : Type} (g : A -> result B) (l : list A) : result (list B) :=
  match l with
  | [] => Ok []
  | x :: l' => y <- g x ;; ys <- mapM g l' ;; Ok (y :: ys)
  end.

(** What a binary special method hands back: a value, or the sentinel
    [NotImplemented]. *)
Inductive ret (A : Type) : Type :=
| Return (a : A)
| NotImplemented.
Arguments Return {A} a.
Arguments NotImplemented {A}.

(** ** Scalars *)

(** The operations on array entries.  [cj] is the imaginary unit [1j] and
    [chalfj] the literal [0.5j]. *)
Class Scalar (C : Type) : Type := {
  c0 : C;
  c1 : C;
  cj : C;
  chalfj : C;
  cadd : C -> C -> C;
  csub : C -> C -> C;
  cmul : C -> C -> C;
  cneg : C -> C;
  cconj : C -> C
}.

(** The laws of the arithmetic of entries that the proofs use: identities
    of zero, of signs and of conjugates, and commutativity.  Addition and
    multiplication are not taken to be associative or distributive: those
    of floating-point numbers are not. *)
Class ScalarLaws (C : Type) {SC : Scalar C} : Prop := {
  cadd_0_l : forall x, cadd c0 x = x;
  cadd_0_r : forall x, cadd x c0 = x;
  cadd_comm : forall x y, cadd x y = cadd y x;
  csub_def : forall x y, csub x y = cadd x (cneg y);
  cneg_0 : cneg c0 = c0;
  cmul_0_r : forall x, cmul x c0 = c0;
  cmul_comm : forall x y, cmul x y = cmul y x;
  cconj_0 : cconj c0 = c0;
  cconj_add : forall x y, cconj (cadd x y) = cadd (cconj x) (cconj y);
  cconj_mul : forall x y, cconj (cmul x y) = cmul (cconj x) (cconj y)
}.
Arguments ScalarLaws C {SC}.

(** Further laws of signs and conjugates, for the statements about
    negation and conjugation. *)
Class ScalarRingLaws (C : Type) {SC : Scalar C} : Prop := {
  cmul_neg_r : forall x y, cmul x (cneg y) = cneg (cmul x y);
  cneg_add : forall x y, cneg (cadd x y) = cadd (cneg x) (cneg y);
  cconj_conj : forall x, cconj (cconj x) = x
}.
Arguments ScalarRingLaws C {SC}.

(** Times are real numbers. *)
Definition time : Type := Qc.

Definition time_ltb (x y : time) : bool :=
  match (x ?= y)%Qc with Lt => true | _ => false end.
Definition time_leb (x y : time) : bool :=
  match (x ?= y)%Qc with Gt => false | _ => true end.
Definition time_geb (x y : time) : bool := time_leb y x.

(** ** Shapes and indices *)

(** Number of entries of an array of shape [s]. *)
Definition size_of (s : list nat) : nat := fold_right Nat.mul 1 s.

(** All the indices of shape [s], in row-major order. *)
Fixpoint indices (s : list nat) : list (list nat) :=
  match s with
  | [] => [[]]
  | d :: s' => flat_map (fun i => map (cons i) (indices s')) (seq 0 d)
  end.

(** Position of the entry [idx] in the row-major buffer. *)
Fixpoint ravel (s idx : list nat) : nat :=
  match s, idx with
  | _ :: s', i :: idx' => i * size_of s' + ravel s' idx'
  | _, _ => 0
  end.

(** [idx] is an index of shape [s]. *)
Definition valid (s idx : list nat) : Prop := Forall2 lt idx s.

Definition insert_at (k x : nat) (l : list nat) : list nat :=
  firstn k l ++ x :: skipn k l.
Definition remove_at (k : nat) (l : list nat) : list nat :=
  firstn k l ++ skipn (S k) l.
Definition last_two (l : list nat) : list nat := skipn (length l - 2) l.
Definition but_last_two (l : list nat) : list nat := firstn (length l - 2) l.

(** A Python axis or index [k] into a dimension of [n] positions: negative
    values count from the end. *)
Definition normalize (n : nat) (k : Z) : option nat :=
  if (0 <=? k)%Z then
    if (k <? Z.of_nat n)%Z then Some (Z.to_nat k) else None
  else
    if (0 <=? k + Z.of_nat n)%Z then Some (Z.to_nat (k + Z.of_nat n)) else None.

(** *** Broadcasting *)

Definition broadcast_dim (a b : nat) : option nat :=
  if a =? b then Some a
  else if a =? 1 then Some b
  else if b =? 1 then Some a
  else None.

(** Shapes are lined up on their last dimension: the recursion runs on the
    reversed shapes. *)
Fixpoint broadcast_rev (r1 r2 : list nat) : option (list nat) :=
  match r1, r2 with
  | [], r => Some r
  | r, [] => Some r
  | a :: r1', b :: r2' =>
      match broadcast_dim a b, broadcast_rev r1' r2' with
      | Some d, Some r => Some (d :: r)
      | _, _ => None
      end
  end.

Definition broadcast_shapes (s1 s2 : list nat) : option (list nat) :=
  option_map (@rev nat) (broadcast_rev (rev s1) (rev s2)).

(** A dimension of size 1 is read at position 0 whatever the index. *)
Fixpoint clip_ones (s idx : list nat) : list nat :=
  match s, idx with
  | d :: s', i :: idx' => (if d =? 1 then 0 else i) :: clip_ones s' idx'
  | _, _ => []
  end.

(** The index of an operand of shape [s] that the index [idx] of the
    broadcast result reads: the trailing positions of [idx], as many as [s]
    has dimensions. *)
Definition bidx (s idx : list nat) : list nat :=
  rev (clip_ones (rev s) (rev idx)).

(** ** Arrays *)

Record tensor (A : Type) : Type := mkTensor {
  shape : list nat;
  data : list A
}.

Definition ndim {A : Type} (a : tensor A) : nat := length (shape a).

(** The buffer has one entry per index. *)
Definition wf {A : Type} (a : tensor A) : Prop :=
  length (data a) = size_of (shape a).

Fixpoint list_eqb {A : Type} (eqb : A -> A -> bool) (l1 l2 : list A) : bool :=
  match l1, l2 with
  | [], [] => true
  | x :: l1', y :: l2' => eqb x y && list_eqb eqb l1' l2'
  | _, _ => false
  end.

Definition shape_eqb : list nat -> list nat -> bool := list_eqb Nat.eqb.

Section Arrays.

Context {C : Type} {SC : Scalar C}.

Definition get (a : tensor C) (idx : list nat) : C :=
  nth (ravel (shape a) idx) (data a) c0.

(** The array of shape [s] whose entry at [idx] is [g idx]. *)
Definition init (s : list nat) (g : list nat -> C) : tensor C :=
  mkTensor s (map g (indices s)).

Definition zeros (s : list nat) : tensor C := init s (fun _ => c0).
Definition zeros_like (a : tensor C) : tensor C := zeros (shape a).

(** Sum of a sequence of scalars, from zero, in order. *)
Definition csum (l : list C) : C := fold_left cadd l c0.

(** Elementwise operations. *)
Definition tmap (g : C -> C) (a : tensor C) : tensor C :=
  init (shape a) (fun idx => g (get a idx)).

Definition tneg : tensor C -> tensor C := tmap cneg.
Definition tconj : tensor C -> tensor C := tmap cconj.
(** [c * a] for a Python scalar [c]. *)
Definition tscale (c : C) : tensor C -> tensor C := tmap (cmul c).

(** Elementwise binary operation with broadcasting. *)
Definition broadcast2 (g : C -> C -> C) (a b : tensor C) : result (tensor C) :=
  match broadcast_shapes (shape a) (shape b) with
  | Some s =>
      Ok (init s (fun idx => g (get a (bidx (shape a) idx))
                               (get b (bidx (shape b) idx))))
  | None => Raise (ArrayError IncompatibleShapes)
  end.

Definition tadd : tensor C -> tensor C -> result (tensor C) := broadcast2 cadd.
Definition tsub : tensor C -> tensor C -> result (tensor C) := broadcast2 csub.
Definition tmul : tensor C -> tensor C -> result (tensor C) := broadcast2 cmul.

(** [a.reshape(s)]: the same buffer under another shape of the same size. *)
Definition reshape (a : tensor C) (s : list nat) : result (tensor C) :=
  if size_of s =? size_of (shape a) then Ok (mkTensor s (data a))
  else Raise (ArrayError BadReshape).

(** [a[None, ...]]: a new leading dimension of size 1. *)
Definition expand0 (a : tensor C) : tensor C := mkTensor (1 :: shape a) (data a).

(** [a.squeeze(0)]: drops the leading dimension when its size is 1. *)
Definition squeeze0 (a : tensor C) : tensor C :=
  match shape a with
  | 1 :: s => mkTensor s (data a)
  | _ => a
  end.

(** [a.sum(axis)]. *)
Definition sum_axis (a : tensor C) (axis : Z) : result (tensor C) :=
  match normalize (ndim a) axis with
  | Some k =>
      Ok (init (remove_at k (shape a))
               (fun idx => csum (map (fun i => get a (insert_at k i idx))
                                     (seq 0 (nth k (shape a) 0)))))
  | None => Raise (ArrayError BadAxis)
  end.

(** [stack(l, axis)]: the arrays of [l], all of one shape, become the
    positions of a new dimension placed at [axis]. *)
Definition stack (l : list (tensor C)) (axis : Z) : result (tensor C) :=
  match l with
  | [] => Raise (ArrayError EmptySequence)
  | a :: _ =>
      if forallb (fun b => shape_eqb (shape b) (shape a)) l then
        match normalize (S (ndim a)) axis with
        | Some k =>
            Ok (init (insert_at k (length l) (shape a))
                     (fun idx => get (nth (nth k idx 0) l a) (remove_at k idx)))
        | None => Raise (ArrayError BadAxis)
        end
      else Raise (ArrayError IncompatibleShapes)
  end.

(** [concatenate((a, b))] along the first axis. *)
Definition concatenate (a b : tensor C) : result (tensor C) :=
  match shape a, shape b with
  | da :: sa, db :: sb =>
      if shape_eqb sa sb then
        Ok (init ((da + db) :: sa)
                 (fun idx => match idx with
                             | i :: r => if i <? da then get a (i :: r)
                                         else get b ((i - da) :: r)
                             | [] => c0
                             end))
      else Raise (ArrayError IncompatibleShapes)
  | _, _ => Raise (ArrayError TooFewDimensions)
  end.

(** [a[..., k]]: position [k] of the last axis.  A negative [k] counts from
    the end and an index outside the axis is clamped to it, as jax does;
    an axis of size 0 cannot be read. *)
Definition clamp_index (n : nat) (k : Z) : nat :=
  let k' := if (k <? 0)%Z then (k + Z.of_nat n)%Z else k in
  Z.to_nat (Z.max 0 (Z.min k' (Z.of_nat n - 1))).

Definition index_last (a : tensor C) (k : Z) : result (tensor C) :=
  match rev (shape a) with
  | [] => Raise IndexError
  | 0 :: _ => Raise (ArrayError IndexOutOfBounds)
  | d :: _ =>
      Ok (init (removelast (shape a))
               (fun idx => get a (idx ++ [clamp_index d k])))
  end.

(** [a[0]]: the first position of the first axis. *)
Definition index_first (a : tensor C) : result (tensor C) :=
  match shape a with
  | [] => Raise IndexError
  | 0 :: _ => Raise (ArrayError IndexOutOfBounds)
  | _ :: s => Ok (init s (fun idx => get a (0 :: idx)))
  end.

(** The last two dimensions of a shape, with what comes before them. *)
Definition split_matrix (s : list nat) : option (list nat * nat * nat) :=
  match rev s with
  | m :: n :: rb => Some (rev rb, n, m)
  | _ => None
  end.

(** [a.mT]: the last two axes exchanged. *)
Definition mT (a : tensor C) : result (tensor C) :=
  match split_matrix (shape a) with
  | Some (b, n, m) =>
      Ok (init (b ++ [m; n])
               (fun idx => get a (but_last_two idx ++ rev (last_two idx))))
  | None => Raise (ArrayError TooFewDimensions)
  end.

(** [a.adjoint()]: the conjugate of [a.mT]. *)
Definition adjoint (a : tensor C) : result (tensor C) :=
  match split_matrix (shape a) with
  | Some (b, n, m) =>
      Ok (init (b ++ [m; n])
               (fun idx => cconj (get a (but_last_two idx ++ rev (last_two idx)))))
  | None => Raise (ArrayError TooFewDimensions)
  end.

(** [a @ b] for operands with at least two dimensions: the matrix product
    of the last two axes, the leading axes broadcast.  (The products with a
    one-dimensional operand, which the code does not use, are left out: such
    operands are refused here.) *)
Definition matmul (a b : tensor C) : result (tensor C) :=
  match split_matrix (shape a), split_matrix (shape b) with
  | Some (ba, n, k), Some (bb, k', m) =>
      if k =? k' then
        match broadcast_shapes ba bb with
        | Some bs =>
            Ok (init (bs ++ [n; m])
                 (fun idx =>
                    let bi := but_last_two idx in
                    let i := nth 0 (last_two idx) 0 in
                    let j := nth 1 (last_two idx) 0 in
                    csum (map (fun l => cmul (get a (bidx ba bi ++ [i; l]))
                                             (get b (bidx bb bi ++ [l; j])))
                              (seq 0 k))))
        | None => Raise (ArrayError IncompatibleShapes)
        end
      else Raise (ArrayError IncompatibleShapes)
  | _, _ => Raise (ArrayError TooFewDimensions)
  end.

End Arrays.

(** ** One-dimensional arrays of times *)

(** [jnp.unique]: the sorted distinct elements. *)
Fixpoint insert_unique (x : time) (l : list time) : list time :=
  match l with
  | [] => [x]
  | y :: l' =>
      match (x ?= y)%Qc with
      | Lt => x :: l
      | Eq => l
      | Gt => y :: insert_unique x l'
      end
  end.

Definition unique (l : list time) : list time := fold_right insert_unique [] l.

(** [jnp.searchsorted(a, t, side='right')] on a sorted array: a binary search
    for the insertion point [i] with [a[i-1] <= t < a[i]].  Each step halves
    the interval [lo, hi), so [length a] steps are more than enough. *)
Fixpoint bisect_right (fuel : nat) (a : list time) (t : time) (lo hi : nat) : nat :=
  match fuel with
  | 0 => lo
  | S fuel' =>
      if lo <? hi then
        let mid := (lo + hi) / 2 in
        if time_ltb t (nth mid a 0%Qc) then bisect_right fuel' a t lo mid
        else bisect_right fuel' a t (S mid) hi
      else lo
  end.

Definition searchsorted_right (a : list time) (t : time) : nat :=
  bisect_right (length a) a t 0 (length a).

(** [a[0]] and [a[-1]] on a one-dimensional array. *)
Definition first_time (a : list time) : result time :=
  match a with
  | [] => Raise (ArrayError IndexOutOfBounds)
  | x :: _ => Ok x
  end.

Definition last_time (a : list time) : result time :=
  match a with
  | [] => Raise (ArrayError IndexOutOfBounds)
  | x :: _ => Ok (last a x)
  end.

(** Modelled from the spec: [check_time_array] of [dynamiqs/_utils], which is
    not among the sources.  The spec has it accept exactly the
    one-dimensional, strictly increasing arrays of at least two times. *)
Fixpoint strictly_increasing (l : list time) : bool :=
  match l with
  | x :: (y :: _) as l' => time_ltb x y && strictly_increasing l'
  | _ => true
  end.

Definition check_time_array (times : tensor time) : result unit :=
  match shape times with
  | [_] =>
      if (2 <=? length (data times)) && strictly_increasing (data times)
      then Ok tt else Raise MalformedTimes
  | _ => Raise MalformedTimes
  end.

(** Modelled from the spec: [dtype_complex_to_real] of
    [dynamiqs/utils/array_types], the real counterpart of a complex dtype. *)
Definition dtype_complex_to_real (dt : dtype) : dtype :=
  match dt with
  | complex64 => float32
  | complex128 => float64
  | d => d
  end.

Definition dtype_eqb (a b : dtype) : bool :=
  match a, b with
  | float32, float32 | float64, float64
  | complex64, complex64 | complex128, complex128 => true
  | _, _ => false
  end.

Section TimeArrays.

Context {C : Type} {SC : Scalar C}.

(** ** Python objects *)

Inductive pyobj : Type :=
| PyNone
| PyInt (z : Z)
| PyFloat (q : Qc)
| PyStr (s : string)
| PyList (l : list pyobj)
| PyTuple (l : list pyobj)
| PyFunction (f : time -> pyobj)
| PyJaxArray (dt : dtype) (a : tensor C)   (* jax.Array *)
| PyNdarray (a : tensor C)                 (* numpy.ndarray *)
| PyTorchTensor (a : tensor C)             (* torch.Tensor *)
| PyQobj (a : tensor C).                   (* qutip.Qobj *)

(** [type(x).__name__]. *)
Definition type_name (x : pyobj) : string :=
  match x with
  | PyNone => "NoneType"
  | PyInt _ => "int"
  | PyFloat _ => "float"
  | PyStr _ => "str"
  | PyList _ => "list"
  | PyTuple _ => "tuple"
  | PyFunction _ => "function"
  | PyJaxArray _ _ => "Array"
  | PyNdarray _ => "ndarray"
  | PyTorchTensor _ => "Tensor"
  | PyQobj _ => "Qobj"
  end.

(** The builtin [tuple(...)]: no argument gives the empty tuple, one
    argument must be iterable, more are refused. *)
Definition builtin_tuple (args : list pyobj) : result pyobj :=
  match args with
  | [] => Ok (PyTuple [])
  | [PyList l] => Ok (PyTuple l)
  | [PyTuple l] => Ok (PyTuple l)
  | [x] => Raise (TypeError (NotIterable (type_name x)))
  | _ => Raise (TypeError (TupleArity (length args)))
  end.

(** The builtin [len(...)]. *)
Definition builtin_len (x : pyobj) : result nat :=
  match x with
  | PyList l => Ok (length l)
  | PyTuple l => Ok (length l)
  | _ => Raise (TypeError (NotIterable (type_name x)))
  end.

Definition shape_tuple (s : list nat) : pyobj :=
  PyTuple (map (fun d => PyInt (Z.of_nat d)) s).

(** ** [_Factor] and its two subclasses *)

Inductive _Factor : Type :=
| PWCFactor (times : list time) (values : tensor C) (nv : nat)
    (* times: (nv+1), values: (..., nv) *)
| ModulatedFactor (f : time -> result (tensor C)) (f0 : tensor C).
    (* f: (float) -> (...), f0: (...) *)

(** [_PWCFactor.__init__]: [self.nv = self.values.shape[-1]]. *)
Definition _PWCFactor (times : list time) (values : tensor C) : result _Factor :=
  match rev (shape values) with
  | nv :: _ => Ok (PWCFactor times values nv)
  | [] => Raise IndexError
  end.

Definition _ModulatedFactor (f : time -> result (tensor C)) (f0 : tensor C) : _Factor :=
  ModulatedFactor f f0.

Definition _Factor_shape (x : _Factor) : list nat :=
  match x with
  | PWCFactor _ values _ => removelast (shape values)   (* values.shape[:-1] *)
  | ModulatedFactor _ f0 => shape f0
  end.

Definition _PWCFactor__call__ (times : list time) (values : tensor C) (t : time)
  : result (tensor C) :=
  t0 <- first_time times ;;
  if time_ltb t t0 then
    v <- index_last values 0 ;; Ok (zeros_like v)
  else
    tl <- last_time times ;;
    if time_geb t tl then
      v <- index_last values 0 ;; Ok (zeros_like v)
    else
      (* find the index k such that t is in [t_k, t_{k+1}) *)
      let idx := (Z.of_nat (searchsorted_right times t) - 1)%Z in
      index_last values idx.

Definition _ModulatedFactor__call__ (f : time -> result (tensor C)) (f0 : tensor C)
  (t : time) : result (tensor C) :=
  v <- f t ;; reshape v (shape f0).

Definition _Factor__call__ (x : _Factor) (t : time) : result (tensor C) :=
  match x with
  | PWCFactor times values _ => _PWCFactor__call__ times values t
  | ModulatedFactor f f0 => _ModulatedFactor__call__ f f0 t
  end.

Definition _Factor_conj (x : _Factor) : result _Factor :=
  match x with
  | PWCFactor times values _ => _PWCFactor times (tconj values)
  | ModulatedFactor f f0 =>
      Ok (_ModulatedFactor (fun t => v <- f t ;; Ok (tconj v)) (tconj f0))
  end.

Definition _Factor_reshape (x : _Factor) (args : list nat) : result _Factor :=
  match x with
  | PWCFactor times values nv =>
      v <- reshape values (args ++ [nv]) ;; _PWCFactor times v
  | ModulatedFactor f f0 =>
      f0' <- reshape f0 args ;; Ok (_ModulatedFactor f f0')
  end.

(** The attribute [x.times], which only a PWC factor has. *)
Definition _Factor_times (x : _Factor) : result (list time) :=
  match x with
  | PWCFactor times _ _ => Ok times
  | ModulatedFactor _ _ => Raise (AttributeError "_ModulatedFactor" "times")
  end.

(** ** The [TimeArray] classes *)

(** The attributes that [FactorTimeArray.__init__] sets. *)
Record FactorTimeArray : Type := mkFactorTimeArray {
  factors : list _Factor;   (* list of length (nf) *)
  arrays : tensor C;        (* (nf, n, n) *)
  n : nat;
  static : tensor C
}.

Inductive TimeArray : Type :=
| ConstantTimeArray (x : tensor C)
| CallableTimeArray (f : time -> result (tensor C)) (f0 : tensor C)
| PWCTimeArray (self : FactorTimeArray) (times : list time)
| ModulatedTimeArray (self : FactorTimeArray).

(** The two concrete subclasses of [FactorTimeArray], as [self.__class__]
    names them. *)
Inductive factor_class : Type := PWC | Modulated.

(** What stands on either side of an arithmetic operator: an array-like or
    a [TimeArray]. *)
Inductive operand : Type :=
| OArray (a : tensor C)
| OTimeArray (A : TimeArray).

Definition FactorTimeArray__init__ (factors : list _Factor) (arrays : tensor C)
  (static : option (tensor C)) : result FactorTimeArray :=
  match rev (shape arrays) with
  | [] => Raise IndexError
  | n :: _ =>
      static' <- match static with
                 | None => a0 <- index_first arrays ;; Ok (zeros_like a0)
                 | Some s => Ok s
                 end ;;
      Ok (mkFactorTimeArray factors arrays n static')
  end.

(** [jnp.concatenate] of one-dimensional arrays; it needs at least one. *)
Definition concat_times (l : list (list time)) : result (list time) :=
  match l with
  | [] => Raise (ArrayError EmptySequence)
  | _ => Ok (concat l)
  end.

Definition PWCTimeArray__init__ (factors : list _Factor) (arrays : tensor C)
  (static : option (tensor C)) : result TimeArray :=
  self <- FactorTimeArray__init__ factors arrays static ;;
  (* merge all times *)
  ts <- mapM _Factor_times factors ;;
  all <- concat_times ts ;;
  Ok (PWCTimeArray self (unique all)).

Definition ModulatedTimeArray__init__ (factors : list _Factor) (arrays : tensor C)
  (static : option (tensor C)) : result TimeArray :=
  self <- FactorTimeArray__init__ factors arrays static ;;
  Ok (ModulatedTimeArray self).

(** [cls(factors, arrays, static=static)]. *)
Definition new (cls : factor_class) (factors : list _Factor) (arrays : tensor C)
  (static : option (tensor C)) : result TimeArray :=
  match cls with
  | PWC => PWCTimeArray__init__ factors arrays static
  | Modulated => ModulatedTimeArray__init__ factors arrays static
  end.

(** *** [ConstantTimeArray] *)

Definition ConstantTimeArray_shape (x : tensor C) : list nat := shape x.

Definition ConstantTimeArray_mT (x : tensor C) : result TimeArray :=
  x' <- mT x ;; Ok (ConstantTimeArray x').

Definition ConstantTimeArray__call__ (x : tensor C) (t : time) : result (tensor C) :=
  Ok x.

Definition ConstantTimeArray_reshape (x : tensor C) (args : list nat) : result TimeArray :=
  x' <- reshape x args ;; Ok (ConstantTimeArray x').

Definition ConstantTimeArray_conj (x : tensor C) : TimeArray :=
  ConstantTimeArray (tconj x).

Definition ConstantTimeArray__neg__ (x : tensor C) : TimeArray :=
  ConstantTimeArray (tneg x).

Definition ConstantTimeArray__mul__ (x y : tensor C) : result TimeArray :=
  x' <- tmul x y ;; Ok (ConstantTimeArray x').

Definition ConstantTimeArray__add__ (x : tensor C) (y : operand)
  : result (ret TimeArray) :=
  match y with
  | OArray y => x' <- tadd x y ;; Ok (Return (ConstantTimeArray x'))
  | OTimeArray (ConstantTimeArray yx) =>
      x' <- tadd x yx ;; Ok (Return (ConstantTimeArray x'))
  | _ => Ok NotImplemented
  end.

(** *** [CallableTimeArray] *)

Definition CallableTimeArray_shape (f0 : tensor C) : list nat := shape f0.

Definition CallableTimeArray_mT (f : time -> result (tensor C)) (f0 : tensor C)
  : result TimeArray :=
  let f' := fun t => v <- f t ;; mT v in
  f0' <- mT f0 ;;
  Ok (CallableTimeArray f' f0').

Definition CallableTimeArray__call__ (f : time -> result (tensor C)) (f0 : tensor C)
  (t : time) : result (tensor C) :=
  v <- f t ;; reshape v (CallableTimeArray_shape f0).

Definition CallableTimeArray_reshape (f : time -> result (tensor C)) (f0 : tensor C)
  (args : list nat) : result TimeArray :=
  f0' <- reshape f0 args ;; Ok (CallableTimeArray f f0').

Definition CallableTimeArray_conj (f : time -> result (tensor C)) (f0 : tensor C)
  : TimeArray :=
  CallableTimeArray (fun t => v <- f t ;; Ok (tconj v)) (tconj f0).

Definition CallableTimeArray__neg__ (f : time -> result (tensor C)) (f0 : tensor C)
  : TimeArray :=
  CallableTimeArray (fun t => v <- f t ;; Ok (tneg v)) (tneg f0).

Definition CallableTimeArray__mul__ (f : time -> result (tensor C)) (f0 y : tensor C)
  : result TimeArray :=
  let f' := fun t => v <- f t ;; tmul v y in
  f0' <- tmul f0 y ;;
  Ok (CallableTimeArray f' f0').

Definition CallableTimeArray__add__ (f : time -> result (tensor C)) (f0 : tensor C)
  (y : operand) : result (ret TimeArray) :=
  match y with
  | OArray y =>
      let f' := fun t => v <- f t ;; tadd v y in
      f0' <- tadd f0 y ;;
      Ok (Return (CallableTimeArray f' f0'))
  | OTimeArray (ConstantTimeArray yx) =>
      let f' := fun t => v <- f t ;; tadd v yx in
      f0' <- tadd f0 yx ;;
      Ok (Return (CallableTimeArray f' f0'))
  | OTimeArray (CallableTimeArray yf yf0) =>
      let f' := fun t => v <- f t ;; w <- yf t ;; tadd v w in
      f0' <- tadd f0 yf0 ;;
      Ok (Return (CallableTimeArray f' f0'))
  | _ => Ok NotImplemented
  end.

(** *** [FactorTimeArray] *)

(** [tuple(self.factors[0].shape, self.n, self.n)]. *)
Definition FactorTimeArray_shape (self : FactorTimeArray) : result pyobj :=
  match factors self with
  | [] => Raise IndexError
  | x :: _ =>
      builtin_tuple [shape_tuple (_Factor_shape x);
                     PyInt (Z.of_nat (n self)); PyInt (Z.of_nat (n self))]
  end.

Definition FactorTimeArray__call__ (self : FactorTimeArray) (t : time)
  : result (tensor C) :=
  xs <- mapM (fun x => _Factor__call__ x t) (factors self) ;;
  values <- stack xs (-1) ;;                              (* (..., nf) *)
  values <- reshape values (shape values ++ [1; 1]) ;;    (* (..., nf, 1, 1) *)
  p <- tmul values (arrays self) ;;
  s <- sum_axis p (-3) ;;
  tadd s (static self).                                   (* (..., n, n) *)

Definition FactorTimeArray_reshape (cls : factor_class) (self : FactorTimeArray)
  (args : list nat) : result TimeArray :=
  fs <- mapM (fun x => _Factor_reshape x (but_last_two args)) (factors self) ;;
  new cls fs (arrays self) (Some (static self)).

Definition FactorTimeArray_conj (cls : factor_class) (self : FactorTimeArray)
  : result TimeArray :=
  fs <- mapM _Factor_conj (factors self) ;;
  new cls fs (tconj (arrays self)) (Some (tconj (static self))).

Definition FactorTimeArray__neg__ (cls : factor_class) (self : FactorTimeArray)
  : result TimeArray :=
  new cls (factors self) (tneg (arrays self)) (Some (tneg (static self))).

Definition FactorTimeArray__mul__ (cls : factor_class) (self : FactorTimeArray)
  (y : tensor C) : result TimeArray :=
  a <- tmul (arrays self) y ;;
  s <- tmul (static self) y ;;
  new cls (factors self) a (Some s).

(** [isinstance(y, cls)], with the attributes of [y] when it holds. *)
Definition as_instance (cls : factor_class) (y : TimeArray) : option FactorTimeArray :=
  match cls, y with
  | PWC, PWCTimeArray o _ => Some o
  | Modulated, ModulatedTimeArray o => Some o
  | _, _ => None
  end.

Definition FactorTimeArray__add__ (cls : factor_class) (self : FactorTimeArray)
  (y : operand) : result (ret TimeArray) :=
  match y with
  | OArray y =>
      s <- tadd (static self) y ;;
      r <- new cls (factors self) (arrays self) (Some s) ;; Ok (Return r)
  | OTimeArray (ConstantTimeArray yx) =>
      s <- tadd (static self) yx ;;
      r <- new cls (factors self) (arrays self) (Some s) ;; Ok (Return r)
  | OTimeArray y =>
      match as_instance cls y with
      | Some o =>
          let fs := factors self ++ factors o in          (* length nf1 + nf2 *)
          a <- concatenate (arrays self) (arrays o) ;;    (* (nf1 + nf2, n, n) *)
          s <- tadd (static self) (static o) ;;           (* (n, n) *)
          r <- new cls fs a (Some s) ;; Ok (Return r)
      | None => Ok NotImplemented
      end
  end.

(** *** Method resolution on a [TimeArray] *)

(** [TimeArray.mT]: the body of the base-class property is its docstring
    alone, so it evaluates to [None]. *)
Definition TimeArray_mT_base : result (option TimeArray) := Ok None.

(** [A.mT].  Only [ConstantTimeArray] and [CallableTimeArray] override the
    property; the subclasses of [FactorTimeArray] inherit it from
    [TimeArray].  [None] is Python's [None]. *)
Definition TimeArray_mT (A : TimeArray) : result (option TimeArray) :=
  match A with
  | ConstantTimeArray x => r <- ConstantTimeArray_mT x ;; Ok (Some r)
  | CallableTimeArray f f0 => r <- CallableTimeArray_mT f f0 ;; Ok (Some r)
  | PWCTimeArray _ _ => TimeArray_mT_base
  | ModulatedTimeArray _ => TimeArray_mT_base
  end.

(** [A.shape]. *)
Definition TimeArray_shape (A : TimeArray) : result pyobj :=
  match A with
  | ConstantTimeArray x => Ok (shape_tuple (ConstantTimeArray_shape x))
  | CallableTimeArray _ f0 => Ok (shape_tuple (CallableTimeArray_shape f0))
  | PWCTimeArray self _ => FactorTimeArray_shape self
  | ModulatedTimeArray self => FactorTimeArray_shape self
  end.

(** [TimeArray.ndim]: [len(self.shape)]. *)
Definition TimeArray_ndim (A : TimeArray) : result nat :=
  s <- TimeArray_shape A ;; builtin_len s.

(** [A(t)]. *)
Definition TimeArray__call__ (A : TimeArray) (t : time) : result (tensor C) :=
  match A with
  | ConstantTimeArray x => ConstantTimeArray__call__ x t
  | CallableTimeArray f f0 => CallableTimeArray__call__ f f0 t
  | PWCTimeArray self _ => FactorTimeArray__call__ self t
  | ModulatedTimeArray self => FactorTimeArray__call__ self t
  end.

Definition TimeArray_reshape (A : TimeArray) (args : list nat) : result TimeArray :=
  match A with
  | ConstantTimeArray x => ConstantTimeArray_reshape x args
  | CallableTimeArray f f0 => CallableTimeArray_reshape f f0 args
  | PWCTimeArray self _ => FactorTimeArray_reshape PWC self args
  | ModulatedTimeArray self => FactorTimeArray_reshape Modulated self args
  end.

Definition TimeArray_conj (A : TimeArray) : result TimeArray :=
  match A with
  | ConstantTimeArray x => Ok (ConstantTimeArray_conj x)
  | CallableTimeArray f f0 => Ok (CallableTimeArray_conj f f0)
  | PWCTimeArray self _ => FactorTimeArray_conj PWC self
  | ModulatedTimeArray self => FactorTimeArray_conj Modulated self
  end.

Definition TimeArray__neg__ (A : TimeArray) : result TimeArray :=
  match A with
  | ConstantTimeArray x => Ok (ConstantTimeArray__neg__ x)
  | CallableTimeArray f f0 => Ok (CallableTimeArray__neg__ f f0)
  | PWCTimeArray self _ => FactorTimeArray__neg__ PWC self
  | ModulatedTimeArray self => FactorTimeArray__neg__ Modulated self
  end.

Definition TimeArray__mul__ (A : TimeArray) (y : tensor C) : result TimeArray :=
  match A with
  | ConstantTimeArray x => ConstantTimeArray__mul__ x y
  | CallableTimeArray f f0 => CallableTimeArray__mul__ f f0 y
  | PWCTimeArray self _ => FactorTimeArray__mul__ PWC self y
  | ModulatedTimeArray self => FactorTimeArray__mul__ Modulated self y
  end.

Definition TimeArray__rmul__ (A : TimeArray) (y : tensor C) : result TimeArray :=
  TimeArray__mul__ A y.

Definition TimeArray__add__ (A : TimeArray) (y : operand) : result (ret TimeArray) :=
  match A with
  | ConstantTimeArray x => ConstantTimeArray__add__ x y
  | CallableTimeArray f f0 => CallableTimeArray__add__ f f0 y
  | PWCTimeArray self _ => FactorTimeArray__add__ PWC self y
  | ModulatedTimeArray self => FactorTimeArray__add__ Modulated self y
  end.

(** *** The operators [+], unary [-] and binary [-] *)

Definition same_class (A B : TimeArray) : bool :=
  match A, B with
  | ConstantTimeArray _, ConstantTimeArray _
  | CallableTimeArray _ _, CallableTimeArray _ _
  | PWCTimeArray _ _, PWCTimeArray _ _
  | ModulatedTimeArray _, ModulatedTimeArray _ => true
  | _, _ => false
  end.

(** [-y]. *)
Definition py_neg (y : operand) : result operand :=
  match y with
  | OArray a => Ok (OArray (tneg a))
  | OTimeArray A => r <- TimeArray__neg__ A ;; Ok (OTimeArray r)
  end.

(** [x + y], as the interpreter evaluates it: [x.__add__(y)] first and, when
    that is [NotImplemented] and [y] is of another class, [y.__radd__(x)].
    An array on the left of a [TimeArray] defers to the reflected method.
    [TimeArray.__radd__] is [self + y], a new evaluation of [+]; [depth]
    is the number of nested evaluations the interpreter still allows. *)
Fixpoint py_add (depth : nat) (x y : operand) : result operand :=
  match depth with
  | 0 => Raise RecursionError
  | S d =>
      match x with
      | OArray a =>
          match y with
          | OArray b => r <- tadd a b ;; Ok (OArray r)
          | OTimeArray _ => py_add d y x            (* y.__radd__(x) *)
          end
      | OTimeArray A =>
          r <- TimeArray__add__ A y ;;
          match r with
          | Return R => Ok (OTimeArray R)
          | NotImplemented =>
              match y with
              | OTimeArray B =>
                  if same_class A B
                  then Raise (TypeError (UnsupportedOperand "+"))
                  else py_add d y x                 (* y.__radd__(x) *)
              | OArray _ => Raise (TypeError (UnsupportedOperand "+"))
              end
          end
      end
  end.

Definition TimeArray__radd__ (depth : nat) (self : TimeArray) (y : operand)
  : result operand :=
  py_add depth (OTimeArray self) y.

Definition TimeArray__sub__ (depth : nat) (self : TimeArray) (y : operand)
  : result operand :=
  y' <- py_neg y ;; py_add depth (OTimeArray self) y'.

Definition TimeArray__rsub__ (depth : nat) (self : TimeArray) (y : operand)
  : result operand :=
  s <- py_neg (OTimeArray self) ;; py_add depth y s.

(** [x - y]. *)
Definition py_sub (depth : nat) (x y : operand) : result operand :=
  match x, y with
  | OArray a, OArray b => r <- tsub a b ;; Ok (OArray r)
  | OTimeArray A, _ => TimeArray__sub__ depth A y
  | OArray _, OTimeArray B => TimeArray__rsub__ depth B x
  end.

(** ** The factories *)

(** An array-like argument stands here as the array that [jnp.asarray]
    makes of it; the cast to the target dtype leaves exact entries as they
    are. *)

Definition _factory_constant (x : tensor C) : TimeArray := ConstantTimeArray x.

(** The negation of [array.ndim != 2 or array.shape[-1] != array.shape[-2]]. *)
Definition is_square_matrix (a : tensor C) : bool :=
  match shape a with
  | [r; c] => c =? r
  | _ => false
  end.

Definition _factory_pwc (times : tensor time) (values array : tensor C) (dt : dtype)
  : result TimeArray :=
  (* times *)
  _ <- check_time_array times ;;
  let times := data times in
  (* values *)
  match shape values with
  | [] => Raise IndexError
  | d :: _ =>
      if negb (Z.of_nat d =? Z.of_nat (length times) - 1)%Z then
        Raise (TypeError (PWCValuesShape (shape values)))
      else
        (* array *)
        if negb (is_square_matrix array) then
          Raise (TypeError (PWCArrayNotSquare (shape array)))
        else
          x <- _PWCFactor times values ;;
          PWCTimeArray__init__ [x] (expand0 array) None
  end.

(** The array that an object with a [reshape] method holds: a jax array, a
    NumPy array or a torch tensor.  The other objects have no such
    method. *)
Definition as_array (o : pyobj) : option (tensor C) :=
  match o with
  | PyJaxArray _ a => Some a
  | PyNdarray a => Some a
  | PyTorchTensor a => Some a
  | _ => None
  end.

(** What the call makes of the user's function once [f(0.0)] has passed
    the checks: [f(t).reshape(...)] is evaluated on whatever [f(t)] is,
    and fails on an object without [reshape]. *)
Definition array_valued (f : time -> pyobj) (t : time) : result (tensor C) :=
  match as_array (f t) with
  | Some a => Ok a
  | None => Raise (AttributeError (type_name (f t)) "reshape")
  end.

Definition _factory_modulated (f : pyobj) (array : tensor C) (dt : dtype)
  : result TimeArray :=
  let rdtype := dtype_complex_to_real dt in
  (* check f *)
  match f with
  | PyFunction f =>
      match f 0%Qc with
      | PyJaxArray f0dt f0 =>
          if negb (dtype_eqb f0dt dt || dtype_eqb f0dt rdtype) then
            Raise (TypeError (ModulatedDtype dt rdtype f0dt))
          else
            (* array *)
            if negb (is_square_matrix array) then
              Raise (TypeError (ModulatedArrayNotSquare (shape array)))
            else
              ModulatedTimeArray__init__
                [_ModulatedFactor (array_valued f) f0] (expand0 array) None
      | o => Raise (TypeError (ModulatedNotArray (type_name o)))
      end
  | o => Raise (TypeError (ModulatedNotFunction (type_name o)))
  end.

Definition _factory_callable (x : time -> pyobj) (dt : dtype) : result TimeArray :=
  match x 0%Qc with
  | PyJaxArray f0dt f0 =>
      (* check type, dtype and device match *)
      if negb (dtype_eqb f0dt dt) then
        Raise (TypeError (CallableDtype dt f0dt))
      else Ok (CallableTimeArray (array_valued x) f0)
  | o => Raise (TypeError (CallableNotArray (type_name o)))
  end.

(** ** [MESolver] *)

(** [self.H] comes from the base class [Solver], which is not among the
    sources: the Hamiltonian, called at a time.  [jump_ops] is stored with a
    new leading dimension. *)
Record MESolver : Type := mkMESolver {
  H : time -> result (tensor C);
  jump_ops : tensor C             (* (1, len(jump_ops), n, n) *)
}.

Definition MESolver__init__ (H : time -> result (tensor C)) (jump_ops : tensor C)
  : MESolver :=
  mkMESolver H (expand0 jump_ops).

(** A cached property: computed on first use, the same value ever after. *)
Definition sum_no_jump (self : MESolver) : result (tensor C) :=
  a <- adjoint (jump_ops self) ;;
  p <- matmul a (jump_ops self) ;;
  sum_axis (squeeze0 p) 0.                                   (* (n, n) *)

(** The non-hermitian Hamiltonian at time [t]. *)
Definition H_nh (self : MESolver) (t : time) : result (tensor C) :=
  h <- H self t ;;
  s <- sum_no_jump self ;;
  tsub h (tscale chalfj s).                                  (* (b_H, 1, n, n) *)

(** [a[k]]: position [k] of the first axis. *)
Definition index0 (a : tensor C) (k : nat) : result (tensor C) :=
  match shape a with
  | [] => Raise IndexError
  | d :: s =>
      if k <? d then Ok (init s (fun idx => get a (k :: idx)))
      else Raise IndexError
  end.

(** Modelled from the spec: [kraus_map] of [utils/solver_utils], which is not
    among the sources.  The spec's glossary has it compute the sum over the
    jump operators [L_k] of [L_k @ rho @ L_k.adjoint()]; the operators come
    as [(1, m, n, n)] and the sum starts from zero. *)
Definition kraus_term (rho L : tensor C) (k : nat) : result (tensor C) :=
  Lk <- index0 L k ;;
  Lkd <- adjoint Lk ;;
  x <- matmul Lk rho ;;
  matmul x Lkd.

Definition kraus_map (rho operators : tensor C) : result (tensor C) :=
  L <- index0 operators 0 ;;                                  (* (m, n, n) *)
  fold_left (fun acc k => a <- acc ;; y <- kraus_term rho L k ;; tadd a y)
            (seq 0 (hd 0 (shape L))) (Ok (zeros_like rho)).

Definition lindbladian (self : MESolver) (t : time) (rho : tensor C)
  : result (tensor C) :=
  h <- H_nh self t ;;
  H_nh_rho <- matmul h rho ;;                                 (* (b_H, b_rho, n, n) *)
  L_rho_Ldag <- kraus_map rho (jump_ops self) ;;              (* (b_H, b_rho, n, n) *)
  a <- adjoint H_nh_rho ;;
  d <- tsub H_nh_rho a ;;
  tadd (tscale (cneg cj) d) L_rho_Ldag.

(** ** [to_tensor] *)

(** Modelled from the spec: [from_qutip] of [torchqdynamics/utils], which is
    not among the sources; it hands over the matrix of the quantum object
    as a tensor. *)
Definition from_qutip (x : tensor C) : tensor C := x.

(** [torch.as_tensor] on an array or a tensor: the same entries. *)
Definition as_tensor (x : tensor C) : tensor C := x.

(** [torch.tensor([])]: the empty tensor of size (0). *)
Definition empty_tensor : tensor C := mkTensor [0] [].

Fixpoint to_tensor (x : pyobj) : result (tensor C) :=
  match x with
  | PyNone => Ok empty_tensor
  | PyList l =>
      match l with
      | [] => Ok empty_tensor
      | _ => ys <- mapM to_tensor l ;; stack ys 0
      end
  | PyQobj q => Ok (from_qutip q)
  | PyNdarray a => Ok (as_tensor a)
  | PyTorchTensor a => Ok (as_tensor a)
  | o => Raise (TypeError (ToTensorUnsupported (type_name o)))
  end.

End TimeArrays.

(** ** Vocabulary of the statements *)

Section Statements.

Context {C : Type} {SC : Scalar C}.

(** The weighted sum of the base matrices: for factor values [vs], all of
    batch shape [bs], and base matrices [bases] of shape [(nf, n, n)], the
    array of shape [bs ++ [n; n]] whose entry at a batch position [b], row
    [r] and column [c] is the sum over [i] of [vs_i[b] * bases[i, r, c]]. *)
Definition weighted_sum (bs : list nat) (n : nat) (vs : list (tensor C))
  (bases : tensor C) : tensor C :=
  init (bs ++ [n; n])
       (fun idx =>
          csum (map (fun i => cmul (get (nth i vs (zeros [])) (but_last_two idx))
                                   (get bases (i :: last_two idx)))
                    (seq 0 (length vs)))).

(** A composite time array: its class and its attributes. *)
Definition composite (A : @TimeArray C)
  : option (factor_class * @FactorTimeArray C) :=
  match A with
  | PWCTimeArray self _ => Some (PWC, self)
  | ModulatedTimeArray self => Some (Modulated, self)
  | _ => None
  end.

(** The first operand of the last addition of [FactorTimeArray.__call__]:
    [(values * self.arrays).sum(-3)], to which the static part is added. *)
Definition factor_part (self : @FactorTimeArray C) (t : time) : result (tensor C) :=
  xs <- mapM (fun x => _Factor__call__ x t) (factors self) ;;
  values <- stack xs (-1) ;;
  values <- reshape values (shape values ++ [1; 1]) ;;
  p <- tmul values (arrays self) ;;
  sum_axis p (-3).

(** [isinstance(A, ConstantTimeArray)]. *)
Definition is_ConstantTimeArray (A : @TimeArray C) : bool :=
  match A with
  | ConstantTimeArray _ => true
  | _ => false
  end.

(** What [_PWCFactor.__init__] establishes: [nv] is the last dimension of
    the values. *)
Definition factor_invariant (x : @_Factor C) : Prop :=
  match x with
  | PWCFactor _ values nv => exists bs, shape values = bs ++ [nv]
  | ModulatedFactor _ _ => True
  end.

(** The merged breakpoints of a PWC time array. *)
Definition merged_times (A : @TimeArray C) : list time :=
  match A with
  | PWCTimeArray _ times => times
  | _ => []
  end.

End Statements.

Unset Implicit Arguments.

(** ** Notions used in the proofs *)

(** [sub_rev r1 r]: an operand of (reversed) shape [r1] broadcasts to the
    (reversed) shape [r]. *)
Inductive sub_rev : list nat -> list nat -> Prop :=
| sub_rev_nil : forall r, sub_rev [] r
| sub_rev_cons : forall d d' r1 r,
    d = d' \/ d = 1 -> sub_rev r1 r -> sub_rev (d :: r1) (d' :: r).

(** Sequencing of partial shape computations. *)
Definition obind {A B : Type} (m : option A) (k : A -> option B) : option B :=
  match m with
  | Some a => k a
  | None => None
  end.

(** ** Exact complex rationals and example inputs *)

(** Complex numbers with rational real and imaginary parts. *)
Definition GQ : Type := (Qc * Qc)%type.

Definition gq (re im : Z) : GQ := (Q2Qc (inject_Z re), Q2Qc (inject_Z im)).

Definition GQ_Scalar : Scalar GQ :=
  {| c0 := (0%Qc, 0%Qc);
     c1 := (1%Qc, 0%Qc);
     cj := (0%Qc, 1%Qc);
     chalfj := (0%Qc, Q2Qc (1 # 2));
     cadd := fun x y => (fst x + fst y, snd x + snd y)%Qc;
     csub := fun x y => (fst x - fst y, snd x - snd y)%Qc;
     cmul := fun x y => (fst x * fst y - snd x * snd y,
                         fst x * snd y + snd x * fst y)%Qc;
     cneg := fun x => (- fst x, - snd x)%Qc;
     cconj := fun x => (fst x, - snd x)%Qc |}.

#[export] Existing Instance GQ_Scalar.

Definition tq (z : Z) : time := Q2Qc (inject_Z z).

(** The PWC time array of the spec's boundary law: times [0, 1, 2], values
    [5, 7] and the matrix [[1, 2], [3, 4]]. *)
Definition ex_times : list time := [tq 0; tq 1; tq 2].
Definition ex_values : tensor GQ := mkTensor [2] [gq 5 0; gq 7 0].
Definition ex_matrix : tensor GQ := mkTensor [2; 2] [gq 1 0; gq 2 0; gq 3 0; gq 4 0].
Definition ex_factor : @_Factor GQ := PWCFactor ex_times ex_values 2.
Definition ex_self : @FactorTimeArray GQ :=
  mkFactorTimeArray [ex_factor] (expand0 ex_matrix) 2 (zeros [2; 2]).
Definition ex_pwc : @TimeArray GQ := PWCTimeArray ex_self ex_times.

(** Values with a batch of two coefficients per interval, on the same
    times. *)
Definition ex_batched_values : tensor GQ :=
  mkTensor [2; 2] [gq 1 0; gq 2 0; gq 3 0; gq 4 0].

(** A Hamiltonian and a Hermitian matrix of dimension 2, and no jump
    operator. *)
Definition ex_h : tensor GQ := mkTensor [2; 2] [gq 1 0; gq 0 1; gq 0 0; gq 2 0].
Definition ex_rho : tensor GQ := mkTensor [2; 2] [gq 1 0; gq 0 1; gq 0 (-1); gq 2 0].
Definition ex_no_jump : tensor GQ := mkTensor [0; 2; 2] [].
Definition ex_solver : @MESolver GQ := MESolver__init__ (fun _ => Ok ex_h) ex_no_jump.

(** A PWC construction with two defects, and a modulated construction whose
    function returns a nested list. *)
Definition ex_bad_values : tensor GQ := mkTensor [2] [gq 5 0; gq 7 0].
Definition ex_not_square : tensor GQ := mkTensor [1; 2] [gq 1 0; gq 2 0].
Definition ex_short_times : tensor time := mkTensor [2] [tq 0; tq 1].
Definition ex_list_function : time -> @pyobj GQ :=
  fun _ => PyList [PyList [PyFloat (tq 1)]].

(** A callable time array of shape (2, 1, 1), to be reshaped to
    (2, 1, 1, 1), and an array of shape (2, 2, 1, 1). *)
Definition ex_f0 : tensor GQ := mkTensor [2; 1; 1] [gq 1 0; gq 2 0].
Definition ex_callable : @TimeArray GQ := CallableTimeArray (fun _ => Ok ex_f0) ex_f0.
Definition ex_y : tensor GQ :=
  mkTensor [2; 2; 1; 1] [gq 0 0; gq 0 0; gq 0 0; gq 0 0].

(** The sum of the two PWC time arrays above: one factor with scalar
    values and one with a batch of two. *)
Definition ex_mixed_self : @FactorTimeArray GQ :=
  mkFactorTimeArray [ex_factor; PWCFactor ex_times ex_batched_values 2]
    (mkTensor [2; 2; 2] (data ex_matrix ++ data ex_matrix)) 2 (zeros [2; 2]).
Definition ex_mixed : @TimeArray GQ := PWCTimeArray ex_mixed_self ex_times.

(** A modulating function, [t -> t] as a complex scalar, and a function
    that returns a number. *)
Definition ex_ramp : time -> @pyobj GQ :=
  fun t => PyJaxArray complex128 (mkTensor [] [(t, 0%Qc)]).

(** One jump operator, [[0, 1], [0, 0]], for the Hamiltonian above. *)
Definition ex_jump : tensor GQ :=
  mkTensor [1; 2; 2] [gq 0 0; gq 1 0; gq 0 0; gq 0 0].
Definition ex_jump_solver : @MESolver GQ :=
  MESolver__init__ (fun _ => Ok ex_h) ex_jump.

(** ** Binary64 entries *)

(** The entries of the program's arrays are complex128 numbers: pairs of
    binary64 floats.  A finite binary64 number is a rational [m * 2^e]
    with [|m| < 2^53], and an operation returns the exact result rounded
    to the nearest such number, a tie going to the even significand.
    Overflow, subnormal numbers, infinities, NaN and the sign of zero are
    left out: the inputs below stay far from them. *)
Definition pow2 (k : Z) : Q :=
  if (0 <=? k)%Z then inject_Z (2 ^ k) else (/ inject_Z (2 ^ (- k)))%Q.

(** The integer part of a rational that is not negative. *)
Definition floorQ (x : Q) : Z := (Qnum x / Zpos (Qden x))%Z.

(** [floor (log2 a)] for [a > 0]. *)
Definition ilog2 (a : Q) : Z :=
  let k := (Z.log2 (Qnum a) - Z.log2 (Zpos (Qden a)))%Z in
  if Qle_bool (pow2 k) a then k else (k - 1)%Z.

(** The nearest integer of a rational that is not negative, ties to
    even. *)
Definition round_half_even (x : Q) : Z :=
  let m := floorQ x in
  match ((x - inject_Z m) ?= (1 # 2))%Q with
  | Lt => m
  | Gt => (m + 1)%Z
  | Eq => if Z.even m then m else (m + 1)%Z
  end.

(** The nearest binary64 number: 53 significant bits.  The result is
    given as a reduced fraction. *)
Definition round64 (q : Q) : Q :=
  if Qeq_bool q 0 then 0%Q
  else
    let a := if Qle_bool 0 q then q else (- q)%Q in
    let e := (ilog2 a - 52)%Z in
    let r := (inject_Z (round_half_even (a / pow2 e)) * pow2 e)%Q in
    Qred (if Qle_bool 0 q then r else (- r)%Q).

Definition fadd (x y : Qc) : Qc := Q2Qc (round64 (x + y)).
Definition fsub (x y : Qc) : Qc := Q2Qc (round64 (x - y)).
Definition fmul (x y : Qc) : Qc := Q2Qc (round64 (x * y)).

(** A complex128 number. *)
Record complex128_value : Type := mkComplex128 { real : Qc; imag : Qc }.

(** Complex addition and subtraction work on the two parts; the product
    is [(a c - b d) + (a d + b c) i], each operation rounded. *)
Definition complex128_Scalar : Scalar complex128_value :=
  {| c0 := mkComplex128 0%Qc 0%Qc;
     c1 := mkComplex128 1%Qc 0%Qc;
     cj := mkComplex128 0%Qc 1%Qc;
     chalfj := mkComplex128 0%Qc (Q2Qc (1 # 2));
     cadd := fun x y => mkComplex128 (fadd (real x) (real y))
                                     (fadd (imag x) (imag y));
     csub := fun x y => mkComplex128 (fsub (real x) (real y))
                                     (fsub (imag x) (imag y));
     cmul := fun x y =>
       mkComplex128 (fsub (fmul (real x) (real y)) (fmul (imag x) (imag y)))
                    (fadd (fmul (real x) (imag y)) (fmul (imag x) (real y)));
     cneg := fun x => mkComplex128 (- real x)%Qc (- imag x)%Qc;
     cconj := fun x => mkComplex128 (real x) (- imag x)%Qc |}.

#[export] Existing Instance complex128_Scalar.

(** The float of an integer below [2^53] in size, or of [10^16]. *)
Definition f64 (z : Z) : complex128_value :=
  mkComplex128 (Q2Qc (inject_Z z)) 0%Qc.

(** The example inputs as floats: values [5, 7], the matrix
    [[1, 2], [3, 4]], and the arrays [1e16 * ones((2, 2))] and
    [-1e16 * ones((2, 2))]. *)
Definition fl_values : tensor complex128_value := mkTensor [2] [f64 5; f64 7].
Definition fl_matrix : tensor complex128_value :=
  mkTensor [2; 2] [f64 1; f64 2; f64 3; f64 4].
Definition fl_shift : tensor complex128_value :=
  mkTensor [2; 2] (repeat (f64 (10 ^ 16)) 4).
Definition fl_back : tensor complex128_value :=
  mkTensor [2; 2] (repeat (f64 (- 10 ^ 16)) 4).

(** * Properties *)

(** ** Row-major indexing *)

Lemma length_indices (s : list nat) : length (indices s) = size_of s.
Proof.
  induction s as [|d s IH]; simpl; [reflexivity|].
  generalize 0 as start.
  induction d as [|d IHd]; intros start; simpl; [reflexivity|].
  rewrite length_app, length_map, IH, IHd. reflexivity.
Qed.

Lemma In_indices (s idx : list nat) : In idx (indices s) <-> valid s idx.
Proof.
  revert idx. induction s as [|d s IH]; intros idx; simpl.
  - split.
    + intros [<-|[]]. constructor.
    + intros Hv. inversion Hv. now left.
  - rewrite in_flat_map. split.
    + intros (i & Hi & Hin). apply in_seq in Hi.
      apply in_map_iff in Hin. destruct Hin as (r & <- & Hr).
      constructor; [lia | now apply IH].
    + intros Hv. inversion Hv as [|i d' r s' Hlt Hr]; subst.
      exists i. split; [apply in_seq; lia|].
      apply in_map. now apply IH.
Qed.

Lemma ravel_lt (s idx : list nat) : valid s idx -> ravel s idx < size_of s.
Proof.
  intros Hv. induction Hv as [|i d idx s Hlt Hv IH]; simpl; [lia|].
  nia.
Qed.

Lemma nth_flat_map_blocks {A B : Type} (g : A -> list B) (l : list A)
      (p i r : nat) (d : B) (da : A) :
  (forall x, In x l -> length (g x) = p) ->
  i < length l -> r < p ->
  nth (i * p + r) (flat_map g l) d = nth r (g (nth i l da)) d.
Proof.
  revert i. induction l as [|a l IH]; intros i Hlen Hi Hr; simpl in *; [lia|].
  assert (Ha : length (g a) = p) by (apply Hlen; now left).
  destruct i as [|i].
  - simpl. apply app_nth1. lia.
  - rewrite app_nth2 by lia.
    replace (S i * p + r - length (g a)) with (i * p + r) by lia.
    apply IH; [intros; apply Hlen; now right | lia | assumption].
Qed.

Lemma nth_ravel_indices (s idx d : list nat) :
  valid s idx -> nth (ravel s idx) (indices s) d = idx.
Proof.
  intros Hv. revert d.
  induction Hv as [|i n idx s Hlt Hv IH]; intros d; simpl; [reflexivity|].
  rewrite (nth_flat_map_blocks _ _ _ _ _ _ 0).
  - rewrite seq_nth by assumption. simpl.
    rewrite (nth_indep _ d (i :: idx)).
    + rewrite (map_nth (cons i)). now rewrite IH.
    + rewrite length_map, length_indices. now apply ravel_lt.
  - intros x _. now rewrite length_map, length_indices.
  - now rewrite length_seq.
  - now apply ravel_lt.
Qed.

Lemma ravel_nth_indices (s : list nat) (p : nat) (d : list nat) :
  p < size_of s -> ravel s (nth p (indices s) d) = p.
Proof.
  revert p d. induction s as [|n s IH]; intros p d Hp; simpl in *.
  - destruct p; [reflexivity | lia].
  - assert (Hs : 0 < size_of s) by (destruct (size_of s); lia).
    assert (Hq : p / size_of s < n).
    { apply Nat.Div0.div_lt_upper_bound. lia. }
    assert (Hr : p mod size_of s < size_of s) by (apply Nat.mod_upper_bound; lia).
    assert (Hp' : p = p / size_of s * size_of s + p mod size_of s).
    { rewrite Nat.mul_comm. apply Nat.div_mod_eq. }
    rewrite Hp' at 1.
    rewrite (nth_flat_map_blocks _ _ _ _ _ _ 0).
    + rewrite seq_nth by assumption. simpl.
      rewrite (nth_indep _ d (p / size_of s :: d)).
      * rewrite (map_nth (cons (p / size_of s))). rewrite IH by assumption. lia.
      * now rewrite length_map, length_indices.
    + intros x _. now rewrite length_map, length_indices.
    + now rewrite length_seq.
    + assumption.
Qed.

Lemma valid_length (s idx : list nat) : valid s idx -> length idx = length s.
Proof. apply Forall2_length. Qed.

Lemma valid_app (s1 s2 i1 i2 : list nat) :
  valid s1 i1 -> valid s2 i2 -> valid (s1 ++ s2) (i1 ++ i2).
Proof. apply Forall2_app. Qed.

Lemma valid_app_inv (s1 s2 idx : list nat) :
  valid (s1 ++ s2) idx ->
  exists i1 i2, idx = i1 ++ i2 /\ valid s1 i1 /\ valid s2 i2.
Proof.
  intros Hv. apply Forall2_app_inv_r in Hv.
  destruct Hv as (i1 & i2 & H1 & H2 & ->). now exists i1, i2.
Qed.

Lemma valid_two (n m : nat) (idx : list nat) :
  valid [n; m] idx -> exists i j, idx = [i; j] /\ i < n /\ j < m.
Proof.
  intros Hv. inversion Hv as [|i ? r ? Hi Hr]; subst.
  inversion Hr as [|j ? r' ? Hj Hr']; subst.
  inversion Hr'; subst. now exists i, j.
Qed.

Lemma Forall2_rev {A B : Type} (R : A -> B -> Prop) (l1 : list A) (l2 : list B) :
  Forall2 R l1 l2 -> Forall2 R (rev l1) (rev l2).
Proof.
  induction 1 as [|x y l1 l2 Hxy H IH]; simpl; [constructor|].
  apply Forall2_app; [assumption | now repeat constructor].
Qed.

Lemma valid_rev_inv (s idx : list nat) :
  Forall2 lt (rev idx) (rev s) -> valid s idx.
Proof.
  intros Hr. apply Forall2_rev in Hr. now rewrite !rev_involutive in Hr.
Qed.

Lemma size_of_app (s1 s2 : list nat) :
  size_of (s1 ++ s2) = size_of s1 * size_of s2.
Proof. induction s1 as [|d s1 IH]; simpl; [lia | rewrite IH; lia]. Qed.

Lemma ravel_app_ones (s idx : list nat) :
  length idx = length s -> ravel (s ++ [1; 1]) (idx ++ [0; 0]) = ravel s idx.
Proof.
  revert idx. induction s as [|d s IH]; intros [|i idx] Hlen; simpl in *;
    try discriminate; [reflexivity|].
  rewrite IH by lia. rewrite size_of_app. simpl. lia.
Qed.

(** ** Broadcasting *)


Lemma sub_rev_refl (r : list nat) : sub_rev r r.
Proof. induction r; constructor; auto. Qed.

Lemma broadcast_dim_Some (a b d : nat) :
  broadcast_dim a b = Some d -> (a = d \/ a = 1) /\ (b = d \/ b = 1).
Proof.
  unfold broadcast_dim.
  destruct (Nat.eqb_spec a b); [intros [= <-]; subst; auto|].
  destruct (Nat.eqb_spec a 1); [intros [= <-]; auto|].
  destruct (Nat.eqb_spec b 1); [intros [= <-]; auto|].
  discriminate.
Qed.

Lemma broadcast_rev_nil_r (r : list nat) : broadcast_rev r [] = Some r.
Proof. now destruct r. Qed.

Lemma broadcast_rev_sub (r1 r2 r : list nat) :
  broadcast_rev r1 r2 = Some r -> sub_rev r1 r /\ sub_rev r2 r.
Proof.
  revert r2 r. induction r1 as [|a r1 IH]; intros r2 r.
  - simpl. intros [= <-]. split; [constructor | apply sub_rev_refl].
  - destruct r2 as [|b r2]; simpl.
    + intros [= <-]. split; [apply sub_rev_refl | constructor].
    + destruct (broadcast_dim a b) as [d|] eqn:Hd; [|discriminate].
      destruct (broadcast_rev r1 r2) as [r'|] eqn:Hr; [|discriminate].
      intros [= <-]. apply broadcast_dim_Some in Hd. apply IH in Hr.
      split; constructor; tauto.
Qed.

Lemma clip_ones_valid (r ri : list nat) :
  Forall2 lt ri r -> clip_ones r ri = ri.
Proof.
  induction 1 as [|i d ri r Hlt H IH]; simpl; [reflexivity|].
  rewrite IH. destruct (Nat.eqb_spec d 1); [f_equal; lia | reflexivity].
Qed.

Lemma clip_ones_sub_valid (r1 r ri : list nat) :
  sub_rev r1 r -> Forall2 lt ri r -> Forall2 lt (clip_ones r1 ri) r1.
Proof.
  intros Hs. revert ri. induction Hs as [r|d d' r1 r Hd Hs IH]; intros ri Hv.
  - constructor.
  - inversion Hv as [|i ? ri' ? Hlt Hv']; subst. simpl.
    constructor; [|now apply IH].
    destruct (Nat.eqb_spec d 1); lia.
Qed.

Lemma clip_ones_clip_ones (r1 r ri : list nat) :
  sub_rev r1 r -> clip_ones r1 (clip_ones r ri) = clip_ones r1 ri.
Proof.
  intros Hs. revert ri. induction Hs as [r|d d' r1 r Hd Hs IH]; intros ri.
  - reflexivity.
  - destruct ri as [|i ri]; simpl; [reflexivity|].
    rewrite IH. f_equal.
    destruct (Nat.eqb_spec d 1); [reflexivity|].
    destruct (Nat.eqb_spec d' 1); [lia | reflexivity].
Qed.

Lemma clip_ones_app (r1 r2 i1 i2 : list nat) :
  length i1 = length r1 ->
  clip_ones (r1 ++ r2) (i1 ++ i2) = clip_ones r1 i1 ++ clip_ones r2 i2.
Proof.
  revert i1. induction r1 as [|d r1 IH]; intros [|i i1] Hlen; simpl in *;
    try discriminate; [reflexivity|].
  now rewrite IH by lia.
Qed.

Lemma bidx_valid_id (s idx : list nat) : valid s idx -> bidx s idx = idx.
Proof.
  intros Hv. unfold bidx. rewrite clip_ones_valid by now apply Forall2_rev.
  apply rev_involutive.
Qed.

Lemma bidx_app (s1 s2 i1 i2 : list nat) :
  length i2 = length s2 ->
  bidx (s1 ++ s2) (i1 ++ i2) = bidx s1 i1 ++ bidx s2 i2.
Proof.
  intros Hlen. unfold bidx. rewrite !rev_app_distr.
  rewrite clip_ones_app by now rewrite !length_rev.
  apply rev_app_distr.
Qed.

Lemma bidx_nil (idx : list nat) : bidx [] idx = [].
Proof. reflexivity. Qed.

Lemma bidx_tail (s i1 i2 : list nat) :
  valid s i2 -> bidx s (i1 ++ i2) = i2.
Proof.
  intros Hv. change s with ([] ++ s).
  rewrite bidx_app by now apply valid_length.
  rewrite bidx_nil. simpl. now apply bidx_valid_id.
Qed.

Lemma broadcast_shapes_sub (s1 s2 s : list nat) :
  broadcast_shapes s1 s2 = Some s ->
  sub_rev (rev s1) (rev s) /\ sub_rev (rev s2) (rev s).
Proof.
  unfold broadcast_shapes.
  destruct (broadcast_rev (rev s1) (rev s2)) as [r|] eqn:Hr; [|discriminate].
  intros [= <-]. rewrite rev_involutive. now apply broadcast_rev_sub.
Qed.

Lemma bidx_sub_valid (s1 s idx : list nat) :
  sub_rev (rev s1) (rev s) -> valid s idx -> valid s1 (bidx s1 idx).
Proof.
  intros Hs Hv. apply valid_rev_inv. unfold bidx. rewrite rev_involutive.
  eapply clip_ones_sub_valid; [eassumption | now apply Forall2_rev].
Qed.

Lemma bidx_bidx (s1 s idx : list nat) :
  sub_rev (rev s1) (rev s) -> bidx s1 (bidx s idx) = bidx s1 idx.
Proof.
  intros Hs. unfold bidx. rewrite rev_involutive.
  now rewrite clip_ones_clip_ones.
Qed.


Lemma broadcast_dim_assoc (a b c : nat) :
  obind (broadcast_dim a b) (fun d => broadcast_dim d c)
  = obind (broadcast_dim b c) (fun d => broadcast_dim a d).
Proof.
  unfold broadcast_dim, obind.
  repeat match goal with
         | |- context [Nat.eqb ?x ?y] => destruct (Nat.eqb_spec x y); subst
         end; try reflexivity; try congruence.
Qed.

Lemma broadcast_rev_assoc (r1 r2 r3 : list nat) :
  obind (broadcast_rev r1 r2) (fun r => broadcast_rev r r3)
  = obind (broadcast_rev r2 r3) (fun r => broadcast_rev r1 r).
Proof.
  revert r2 r3. induction r1 as [|a r1 IH]; intros r2 r3.
  - simpl. now destruct (broadcast_rev r2 r3).
  - destruct r2 as [|b r2].
    + reflexivity.
    + destruct r3 as [|c r3].
      * simpl. destruct (broadcast_dim a b), (broadcast_rev r1 r2); reflexivity.
      * simpl. specialize (IH r2 r3).
        pose proof (broadcast_dim_assoc a b c) as Hd.
        destruct (broadcast_dim a b) as [d1|], (broadcast_dim b c) as [d2|];
          simpl in Hd;
          destruct (broadcast_rev r1 r2) as [x|], (broadcast_rev r2 r3) as [y|];
          simpl in IH |- *; try rewrite Hd; try rewrite <- Hd;
          try rewrite IH; try rewrite <- IH; try reflexivity.
        all: repeat match goal with
               | |- context [match ?e with _ => _ end] => destruct e
               end; try reflexivity; try congruence.
Qed.

Lemma broadcast_shapes_assoc (s1 s2 s3 : list nat) :
  obind (broadcast_shapes s1 s2) (fun s => broadcast_shapes s s3)
  = obind (broadcast_shapes s2 s3) (fun s => broadcast_shapes s1 s).
Proof.
  unfold broadcast_shapes.
  pose proof (broadcast_rev_assoc (rev s1) (rev s2) (rev s3)) as H.
  destruct (broadcast_rev (rev s1) (rev s2)) as [x|],
           (broadcast_rev (rev s2) (rev s3)) as [y|]; simpl in *;
    rewrite ?rev_involutive;
    first [reflexivity | now rewrite H | now rewrite <- H].
Qed.

Lemma broadcast_dim_same (a : nat) : broadcast_dim a a = Some a.
Proof. unfold broadcast_dim. now rewrite Nat.eqb_refl. Qed.

Lemma broadcast_dim_1_l (a : nat) : broadcast_dim 1 a = Some a.
Proof. unfold broadcast_dim. now destruct (Nat.eqb_spec 1 a); subst. Qed.

Lemma broadcast_rev_same (r : list nat) : broadcast_rev r r = Some r.
Proof.
  induction r as [|a r IH]; simpl; [reflexivity|].
  now rewrite broadcast_dim_same, IH.
Qed.

Lemma broadcast_rev_app (r1 r2 r x : list nat) :
  length r1 = length r2 ->
  broadcast_rev r1 r2 = Some r -> broadcast_rev (r1 ++ x) r2 = Some (r ++ x).
Proof.
  revert r2 r. induction r1 as [|a r1 IH]; intros [|b r2] r Hlen; simpl in *;
    try discriminate.
  - intros [= <-]. apply broadcast_rev_nil_r.
  - destruct (broadcast_dim a b); [|discriminate].
    destruct (broadcast_rev r1 r2) as [r'|] eqn:Hr; [|discriminate].
    intros [= <-]. now rewrite (IH r2 r') by (auto; lia).
Qed.

Lemma broadcast_shapes_same (s : list nat) : broadcast_shapes s s = Some s.
Proof.
  unfold broadcast_shapes. rewrite broadcast_rev_same. simpl.
  now rewrite rev_involutive.
Qed.

(** A batch of matrices plus one matrix of the same dimensions. *)
Lemma broadcast_shapes_batch (b s : list nat) :
  broadcast_shapes (b ++ s) s = Some (b ++ s).
Proof.
  unfold broadcast_shapes. rewrite rev_app_distr.
  rewrite (broadcast_rev_app _ _ (rev s)); auto using broadcast_rev_same.
  simpl. now rewrite <- rev_app_distr, rev_involutive.
Qed.

(** ** Arrays *)

Section ArrayFacts.

Context {C : Type} {SC : Scalar C}.

Lemma get_init (s : list nat) (g : list nat -> C) (idx : list nat) :
  valid s idx -> get (init s g) idx = g idx.
Proof.
  intros Hv. unfold get, init. simpl.
  rewrite (nth_indep _ c0 (g idx)).
  - rewrite (map_nth g). now rewrite nth_ravel_indices.
  - rewrite length_map, length_indices. now apply ravel_lt.
Qed.

Lemma init_ext (s : list nat) (g1 g2 : list nat -> C) :
  (forall idx, valid s idx -> g1 idx = g2 idx) -> init s g1 = init s g2.
Proof.
  intros H. unfold init. f_equal. apply map_ext_in.
  intros idx Hin. apply H. now apply In_indices.
Qed.

Lemma shape_init (s : list nat) (g : list nat -> C) : shape (init s g) = s.
Proof. reflexivity. Qed.

Lemma reshape_Ok (a : tensor C) (s : list nat) :
  size_of s = size_of (shape a) -> reshape a s = Ok (mkTensor s (data a)).
Proof. intros H. unfold reshape. now rewrite H, Nat.eqb_refl. Qed.

Lemma wf_init (s : list nat) (g : list nat -> C) : wf (init s g).
Proof. unfold wf, init. simpl. now rewrite length_map, length_indices. Qed.

(** A well-formed array is the table of its entries. *)
Lemma init_get (a : tensor C) : wf a -> init (shape a) (get a) = a.
Proof.
  destruct a as [s d]. unfold wf, init, get. simpl. intros Hwf. f_equal.
  apply (nth_ext _ _ c0 c0).
  - now rewrite length_map, length_indices.
  - intros p Hp. rewrite length_map, length_indices in Hp.
    rewrite (nth_indep _ c0 (nth (ravel s []) d c0))
      by now rewrite length_map, length_indices.
    rewrite (map_nth (fun idx => nth (ravel s idx) d c0)).
    now rewrite ravel_nth_indices.
Qed.

Lemma broadcast2_Ok (g : C -> C -> C) (a b : tensor C) (s : list nat) :
  broadcast_shapes (shape a) (shape b) = Some s ->
  broadcast2 g a b
  = Ok (init s (fun idx => g (get a (bidx (shape a) idx))
                             (get b (bidx (shape b) idx)))).
Proof. unfold broadcast2. now intros ->. Qed.

Lemma csum_ext {A : Type} (g1 g2 : A -> C) (l : list A) :
  (forall x, In x l -> g1 x = g2 x) -> csum (map g1 l) = csum (map g2 l).
Proof. intros H. f_equal. now apply map_ext_in. Qed.

End ArrayFacts.

Lemma shape_eqb_refl (s : list nat) : shape_eqb s s = true.
Proof.
  unfold shape_eqb. induction s as [|d s IH]; simpl; [reflexivity|].
  now rewrite Nat.eqb_refl, IH.
Qed.

Lemma normalize_neg (n k : nat) :
  0 < k -> normalize (n + k) (- Z.of_nat k) = Some n.
Proof.
  intros Hk. unfold normalize.
  destruct (Z.leb_spec 0 (- Z.of_nat k)); [lia|].
  destruct (Z.leb_spec 0 (- Z.of_nat k + Z.of_nat (n + k))); [|lia].
  f_equal. lia.
Qed.

Lemma insert_at_app (l1 l2 : list nat) (x k : nat) :
  length l1 = k -> insert_at k x (l1 ++ l2) = l1 ++ x :: l2.
Proof.
  intros <-. unfold insert_at. rewrite firstn_app, skipn_app, Nat.sub_diag.
  rewrite firstn_all, skipn_all. simpl. now rewrite app_nil_r.
Qed.

Lemma insert_at_end (l : list nat) (x : nat) :
  insert_at (length l) x l = l ++ [x].
Proof.
  pose proof (insert_at_app l [] x _ eq_refl) as H. now rewrite app_nil_r in H.
Qed.

Lemma remove_at_app (l1 l2 : list nat) (x k : nat) :
  length l1 = k -> remove_at k (l1 ++ x :: l2) = l1 ++ l2.
Proof.
  intros <-. unfold remove_at. rewrite firstn_app, Nat.sub_diag, firstn_all.
  rewrite skipn_app, (skipn_all2 l1) by lia.
  replace (S (length l1) - length l1) with 1 by lia.
  simpl. now rewrite app_nil_r.
Qed.

Lemma nth_app_length (l1 l2 : list nat) (x d k : nat) :
  length l1 = k -> nth k (l1 ++ x :: l2) d = x.
Proof. intros <-. rewrite app_nth2 by lia. now rewrite Nat.sub_diag. Qed.

Lemma but_last_two_app (l : list nat) (i j : nat) :
  but_last_two (l ++ [i; j]) = l.
Proof.
  unfold but_last_two. rewrite length_app. simpl.
  replace (length l + 2 - 2) with (length l) by lia.
  rewrite firstn_app, Nat.sub_diag, firstn_all. simpl. apply app_nil_r.
Qed.

Lemma last_two_app (l : list nat) (i j : nat) :
  last_two (l ++ [i; j]) = [i; j].
Proof.
  unfold last_two. rewrite length_app. simpl.
  replace (length l + 2 - 2) with (length l) by lia.
  rewrite skipn_app, Nat.sub_diag, skipn_all. reflexivity.
Qed.

Lemma split_matrix_app (b : list nat) (n m : nat) :
  split_matrix (b ++ [n; m]) = Some (b, n, m).
Proof.
  unfold split_matrix. rewrite rev_app_distr. simpl.
  now rewrite rev_involutive.
Qed.

Lemma mapM_length {A B : Type} (g : A -> result B) (l : list A) (ys : list B) :
  mapM g l = Ok ys -> length ys = length l.
Proof.
  revert ys. induction l as [|x l IH]; intros ys; simpl.
  - now intros [= <-].
  - destruct (g x) as [y|e]; simpl; [|discriminate].
    destruct (mapM g l) as [ys'|e]; simpl; [|discriminate].
    intros [= <-]. simpl. f_equal. now apply IH.
Qed.

(** ** The call of a composite time array *)

Arguments init : simpl never.

Section FactorCallFacts.

Context {C : Type} {SC : Scalar C}.

Lemma stack_last_Ok (vs : list (tensor C)) (bs : list nat) (d : tensor C) :
  vs <> [] -> Forall (fun v => shape v = bs) vs ->
  stack vs (-1)
  = Ok (init (bs ++ [length vs])
             (fun idx => get (nth (nth (length bs) idx 0) vs (hd d vs))
                             (remove_at (length bs) idx))).
Proof.
  intros Hne Hall. destruct vs as [|a vs]; [congruence|].
  unfold stack.
  assert (Ha : shape a = bs) by now inversion Hall.
  assert (Hb : forallb (fun b => shape_eqb (shape b) (shape a)) (a :: vs) = true).
  { apply forallb_forall. intros b Hb. rewrite Forall_forall in Hall.
    rewrite (Hall b Hb), Ha. apply shape_eqb_refl. }
  rewrite Hb. unfold ndim. rewrite Ha.
  replace (S (length bs)) with (length bs + 1) by lia.
  change (-1)%Z with (- Z.of_nat 1)%Z. rewrite normalize_neg by lia.
  rewrite insert_at_end. reflexivity.
Qed.

Lemma broadcast_shapes_values_arrays (bs : list nat) (nf n : nat) :
  broadcast_shapes ((bs ++ [nf]) ++ [1; 1]) [nf; n; n] = Some (bs ++ [nf; n; n]).
Proof.
  unfold broadcast_shapes. rewrite <- app_assoc, rev_app_distr.
  change (rev ([nf] ++ [1; 1])) with [1; 1; nf].
  change (rev [nf; n; n]) with [n; n; nf].
  cbn [app broadcast_rev].
  rewrite !broadcast_dim_1_l, broadcast_dim_same, broadcast_rev_nil_r.
  cbn [option_map rev]. rewrite rev_involutive, <- !app_assoc. reflexivity.
Qed.

Lemma get_reshape_ones (a : tensor C) (s idx : list nat) :
  shape a = s -> length idx = length s ->
  get (mkTensor (s ++ [1; 1]) (data a)) (idx ++ [0; 0]) = get a idx.
Proof.
  intros Hs Hlen. unfold get. simpl. rewrite ravel_app_ones by assumption.
  now rewrite Hs.
Qed.

Lemma FactorTimeArray_call_sum (self : FactorTimeArray) (t : time)
      (vs : list (tensor C)) (bs : list nat) (m : nat) :
  mapM (fun x => _Factor__call__ x t) (factors self) = Ok vs ->
  vs <> [] ->
  Forall (fun v => shape v = bs) vs ->
  shape (arrays self) = [length vs; m; m] ->
  FactorTimeArray__call__ self t
  = tadd (weighted_sum bs m vs (arrays self)) (static self).
Proof.
  intros Hmap Hne Hall Harr. unfold FactorTimeArray__call__.
  rewrite Hmap. cbn [bind].
  rewrite (stack_last_Ok vs bs (zeros [])) by assumption. cbn [bind].
  rewrite reshape_Ok by (rewrite shape_init, size_of_app; simpl; lia).
  cbn [bind]. rewrite shape_init.
  unfold tmul. erewrite broadcast2_Ok
    by (cbn [shape]; rewrite Harr; apply broadcast_shapes_values_arrays).
  cbn [bind]. unfold sum_axis, ndim. rewrite shape_init.
  replace (length (bs ++ [length vs; m; m])) with (length bs + 3)
    by (rewrite length_app; reflexivity).
  change (-3)%Z with (- Z.of_nat 3)%Z. rewrite normalize_neg by lia.
  rewrite (remove_at_app bs), (nth_app_length bs) by reflexivity.
  cbn [bind]. f_equal. unfold weighted_sum. apply init_ext. intros idx Hv.
  apply valid_app_inv in Hv. destruct Hv as (b & rc & -> & Hb & Hrc).
  apply valid_two in Hrc. destruct Hrc as (r & c & -> & Hr & Hc).
  rewrite but_last_two_app, last_two_app.
  pose proof (valid_length _ _ Hb) as Hlen.
  apply csum_ext. intros i Hi. apply in_seq in Hi.
  rewrite (insert_at_app b) by assumption.
  rewrite get_init.
  2:{ apply valid_app; [assumption|]. repeat constructor; lia. }
  f_equal.
  - (* the factor value *)
    replace (b ++ [i; r; c]) with ((b ++ [i]) ++ [r; c])
      by now rewrite <- app_assoc.
    cbn [shape]. rewrite bidx_app by reflexivity.
    rewrite bidx_valid_id
      by (apply valid_app; [assumption | repeat constructor; lia]).
    assert (Hrc0 : bidx [1; 1] [r; c] = [0; 0]) by reflexivity.
    rewrite Hrc0.
    rewrite (get_reshape_ones
               (init (bs ++ [length vs])
                     (fun idx => get (nth (nth (length bs) idx 0) vs (hd (zeros []) vs))
                                     (remove_at (length bs) idx)))).
    + rewrite get_init
        by (apply valid_app; [assumption | repeat constructor; lia]).
      rewrite (nth_app_length b), (remove_at_app b), app_nil_r by assumption.
      f_equal. apply nth_indep. lia.
    + reflexivity.
    + rewrite !length_app. simpl. lia.
  - (* the base matrix *)
    rewrite Harr. rewrite bidx_tail by (repeat constructor; lia). reflexivity.
Qed.

End FactorCallFacts.

(** ** The two parts of a call *)

Section AdditionFacts.

Context {C : Type} {SC : Scalar C}.

(** A call is the factor part plus the static part, in this order. *)
Lemma FactorTimeArray_call_parts (self : FactorTimeArray) (t : time) :
  FactorTimeArray__call__ self t
  = (s <- factor_part self t ;; tadd s (static self)).
Proof.
  unfold FactorTimeArray__call__, factor_part.
  destruct (mapM (fun x => _Factor__call__ x t) (factors self)) as [xs|e];
    cbn [bind]; [|reflexivity].
  destruct (stack xs (-1)) as [values|e]; cbn [bind]; [|reflexivity].
  destruct (reshape values (shape values ++ [1; 1])) as [values'|e];
    cbn [bind]; [|reflexivity].
  destruct (tmul values' (arrays self)) as [p|e]; cbn [bind]; [|reflexivity].
  destruct (sum_axis p (-3)) as [s|e]; reflexivity.
Qed.

(** The factor part reads the factors and the base matrices only. *)
Lemma factor_part_ext (self self' : FactorTimeArray) (t : time) :
  factors self' = factors self ->
  arrays self' = arrays self ->
  factor_part self' t = factor_part self t.
Proof.
  intros Hf Ha. unfold factor_part. now rewrite Hf, Ha.
Qed.

(** A composite with another static part: the same factor part, then the
    new static part. *)
Lemma FactorTimeArray_call_static (self self' : FactorTimeArray) (t : time) :
  factors self' = factors self ->
  arrays self' = arrays self ->
  FactorTimeArray__call__ self' t
  = (s <- factor_part self t ;; tadd s (static self')).
Proof.
  intros Hf Ha.
  now rewrite FactorTimeArray_call_parts, (factor_part_ext self self' t Hf Ha).
Qed.

End AdditionFacts.

(** ** Construction of composite time arrays *)

Section ConstructionFacts.

Context {C : Type} {SC : Scalar C}.

(** A constructed composite holds the factors and base matrices it was
    given, and the same constructor accepts them with any other static
    part; only the static part differs in what it builds. *)
Lemma new_static (cls : factor_class) (fs : list _Factor) (arr : tensor C)
      (st0 : option (tensor C)) (A : TimeArray) (s' : tensor C) :
  new cls fs arr st0 = Ok A ->
  exists self R self',
    composite A = Some (cls, self) /\ factors self = fs /\ arrays self = arr /\
    new cls fs arr (Some s') = Ok R /\
    composite R = Some (cls, self') /\
    factors self' = fs /\ arrays self' = arr /\ static self' = s' /\
    n self' = n self /\ merged_times R = merged_times A.
Proof.
  unfold new, PWCTimeArray__init__, ModulatedTimeArray__init__,
    FactorTimeArray__init__.
  destruct (rev (shape arr)) as [|m r]; [destruct cls; discriminate|].
  destruct cls.
  - destruct (match st0 with
              | Some s => Ok s
              | None => a0 <- index_first arr ;; Ok (zeros_like a0)
              end) as [st|e]; cbn [bind]; [|discriminate].
    destruct (mapM _Factor_times fs) as [ts|e]; cbn [bind]; [|discriminate].
    destruct (concat_times ts) as [all|e]; cbn [bind]; [|discriminate].
    intros [= <-]. eexists _, _, _. cbn. repeat split; reflexivity.
  - destruct (match st0 with
              | Some s => Ok s
              | None => a0 <- index_first arr ;; Ok (zeros_like a0)
              end) as [st|e]; cbn [bind]; [|discriminate].
    intros [= <-]. eexists _, _, _. cbn. repeat split; reflexivity.
Qed.

Lemma composite_call (A : TimeArray) (cls : factor_class)
      (self : @FactorTimeArray C) (t : time) :
  composite A = Some (cls, self) ->
  TimeArray__call__ A t = FactorTimeArray__call__ self t.
Proof. destruct A; cbn; intros H; try discriminate; now injection H as <- <-. Qed.

Lemma composite_add (A : TimeArray) (cls : factor_class)
      (self : @FactorTimeArray C) (y : operand) :
  composite A = Some (cls, self) ->
  TimeArray__add__ A y = FactorTimeArray__add__ cls self y.
Proof. destruct A; cbn; intros H; try discriminate; now injection H as <- <-. Qed.

End ConstructionFacts.

(** ** Composite time arrays: call and constant absorption *)

Section CompositeClaims.

Context {C : Type} {SC : Scalar C}.

(** C1, as the code has it.  Let [A] be a composite time array (PWC or
    Modulated) whose factors all return at time [t], with values [vs] of
    one batch shape [bs] (they are stacked), and whose base matrices have
    shape [(nf, m, m)] for its [nf] factors.  Then
    [A(t)] is the weighted sum of the base matrices, i.e. the array with
    entries [sum_i vs_i[b] * arrays[i, r, c]], plus the static part
    (broadcast addition); with a static part of shape [(m, m)] the call
    returns the array of shape [bs ++ [m; m]] with entries
    [(sum_i vs_i[b] * arrays[i, r, c]) + static[r, c]]. *)
Theorem composite_call_weighted_sum
        (A : TimeArray) (cls : factor_class) (self : FactorTimeArray)
        (t : time) (vs : list (tensor C)) (bs : list nat) (m : nat) :
  composite A = Some (cls, self) ->
  factors self <> [] ->
  mapM (fun x => _Factor__call__ x t) (factors self) = Ok vs ->
  Forall (fun v => shape v = bs) vs ->
  shape (arrays self) = [length (factors self); m; m] ->
  TimeArray__call__ A t = tadd (weighted_sum bs m vs (arrays self)) (static self)
  /\ (shape (static self) = [m; m] ->
      TimeArray__call__ A t
      = Ok (init (bs ++ [m; m])
                 (fun idx =>
                    cadd (csum (map (fun i =>
                                       cmul (get (nth i vs (zeros [])) (but_last_two idx))
                                            (get (arrays self) (i :: last_two idx)))
                                    (seq 0 (length (factors self)))))
                         (get (static self) (last_two idx))))).
Proof.
  intros HA Hne Hmap Hall Harr.
  pose proof (mapM_length _ _ _ Hmap) as Hlen.
  pose proof (composite_call _ _ _ t HA) as Hcall.
  assert (Hvs : vs <> []).
  { intros ->. destruct (factors self); [congruence | discriminate]. }
  rewrite <- Hlen in Harr.
  rewrite Hcall, (FactorTimeArray_call_sum self t vs bs m) by assumption.
  split; [reflexivity|]. intros Hst.
  assert (Hbs : broadcast_shapes (shape (weighted_sum bs m vs (arrays self)))
                                 (shape (static self)) = Some (bs ++ [m; m])).
  { unfold weighted_sum. rewrite shape_init, Hst. apply broadcast_shapes_batch. }
  unfold tadd. rewrite (broadcast2_Ok _ _ _ _ Hbs).
  f_equal. apply init_ext. intros idx Hv.
  change (shape (weighted_sum bs m vs (arrays self))) with (bs ++ [m; m]).
  rewrite Hst, (bidx_valid_id _ _ Hv).
  unfold weighted_sum. rewrite get_init by assumption. rewrite Hlen.
  f_equal.
  apply valid_app_inv in Hv. destruct Hv as (b & rc & -> & Hb & Hrc).
  rewrite bidx_tail by assumption.
  apply valid_two in Hrc. destruct Hrc as (r & c & -> & _ & _).
  now rewrite last_two_app.
Qed.

(** C6.  Let [A] be a constructed composite time array and [y] an array
    that can be added to its static part.  Then [A + y], for [y] a plain
    array as for the [ConstantTimeArray] of [y], is a composite of the same
    class with the same factors and the same base matrices; its static part
    is [static + y], its dimension and (for PWC) its times are those of
    [A]; and at every time the call of [A] is the factor part plus the
    static part, and the call of [A + y] is the same factor part plus
    [static + y] (each fails as its right-hand side does). *)
Theorem composite_add_constant
        (cls : factor_class) (fs : list _Factor) (arr : tensor C)
        (st0 : option (tensor C)) (A : TimeArray) (self : FactorTimeArray)
        (y sy : tensor C) :
  new cls fs arr st0 = Ok A ->
  composite A = Some (cls, self) ->
  tadd (static self) y = Ok sy ->
  exists R self',
    py_add 1 (OTimeArray A) (OArray y) = Ok (OTimeArray R) /\
    py_add 1 (OTimeArray A) (OTimeArray (ConstantTimeArray y)) = Ok (OTimeArray R) /\
    composite R = Some (cls, self') /\
    factors self' = factors self /\
    length (factors self') = length (factors self) /\
    arrays self' = arrays self /\
    n self' = n self /\
    merged_times R = merged_times A /\
    static self' = sy /\
    forall t,
      TimeArray__call__ A t
      = (s <- factor_part self t ;; tadd s (static self)) /\
      TimeArray__call__ R t
      = (s <- factor_part self t ;; tadd s sy).
Proof.
  intros Hnew HA Hsy.
  destruct (new_static cls fs arr st0 A sy Hnew)
    as (self0 & R & self' & HA0 & Hf & Ha & HR & HcR & Hf' & Ha' & Hs' & Hn & Ht).
  rewrite HA in HA0. injection HA0 as <-.
  exists R, self'.
  assert (Hadd : FactorTimeArray__add__ cls self (OArray y) = Ok (Return R)).
  { unfold FactorTimeArray__add__. rewrite Hsy. cbn [bind].
    rewrite Hf, Ha, HR. reflexivity. }
  assert (Hadd' : FactorTimeArray__add__ cls self
                    (OTimeArray (ConstantTimeArray y)) = Ok (Return R)).
  { unfold FactorTimeArray__add__. rewrite Hsy. cbn [bind].
    rewrite Hf, Ha, HR. reflexivity. }
  split; [|split; [|split; [|split; [|split; [|split; [|split; [|split;
    [|split]]]]]]]].
  - cbn [py_add]. now rewrite (composite_add _ _ _ _ HA), Hadd.
  - cbn [py_add]. now rewrite (composite_add _ _ _ _ HA), Hadd'.
  - assumption.
  - congruence.
  - congruence.
  - congruence.
  - assumption.
  - assumption.
  - assumption.
  - intros t. split.
    + rewrite (composite_call _ _ _ t HA). apply FactorTimeArray_call_parts.
    + rewrite (composite_call _ _ _ t HcR), <- Hs'.
      apply FactorTimeArray_call_static; congruence.
Qed.

End CompositeClaims.

(** ** Sorted arrays of times *)

Lemma time_ltb_lt (x y : time) : time_ltb x y = true <-> (x < y)%Qc.
Proof.
  unfold time_ltb. rewrite Qclt_alt.
  destruct (x ?= y)%Qc; split; intros H; congruence.
Qed.

Lemma time_ltb_ge (x y : time) : time_ltb x y = false <-> (y <= x)%Qc.
Proof.
  split.
  - intros H. apply Qcnot_lt_le. intros Hlt.
    apply time_ltb_lt in Hlt. congruence.
  - intros H. destruct (time_ltb x y) eqn:E; [|reflexivity].
    apply time_ltb_lt in E. now apply Qcle_not_lt in H.
Qed.

Lemma time_geb_ge (x y : time) : time_geb x y = true <-> (y <= x)%Qc.
Proof.
  unfold time_geb, time_leb. rewrite Qcle_alt.
  destruct (y ?= x)%Qc; split; intros H; congruence.
Qed.

Lemma time_geb_lt (x y : time) : time_geb x y = false <-> (x < y)%Qc.
Proof.
  split.
  - intros H. apply Qcnot_le_lt. intros Hle.
    apply time_geb_ge in Hle. congruence.
  - intros H. destruct (time_geb x y) eqn:E; [|reflexivity].
    apply time_geb_ge in E. now apply Qcle_not_lt in E.
Qed.

Lemma Qclt_irrefl (x : Qc) : ~ (x < x)%Qc.
Proof. intros H. now apply Qclt_not_eq in H. Qed.

Lemma In_insert_unique (x z : time) (l : list time) :
  In z (insert_unique x l) <-> z = x \/ In z l.
Proof.
  induction l as [|y l IH]; simpl.
  - intuition.
  - destruct (x ?= y)%Qc eqn:E; simpl.
    + apply Qceq_alt in E. subst. intuition.
    + intuition.
    + rewrite IH. intuition.
Qed.

Lemma In_unique (z : time) (l : list time) : In z (unique l) <-> In z l.
Proof.
  induction l as [|x l IH]; simpl; [reflexivity|].
  rewrite In_insert_unique, IH. intuition.
Qed.

Lemma sorted_insert_unique (x : time) (l : list time) :
  StronglySorted Qclt l -> StronglySorted Qclt (insert_unique x l).
Proof.
  induction 1 as [|y l Hs IH Hy]; simpl.
  - repeat constructor.
  - destruct (x ?= y)%Qc eqn:E.
    + now constructor.
    + apply Qclt_alt in E. constructor; [now constructor|].
      constructor; [assumption|].
      eapply Forall_impl; [|eassumption].
      intros z Hz. eapply Qclt_trans; eassumption.
    + apply Qcgt_alt in E. constructor; [assumption|].
      apply Forall_forall. intros z Hz. apply In_insert_unique in Hz.
      destruct Hz as [->|Hz]; [assumption|].
      rewrite Forall_forall in Hy. now apply Hy.
Qed.

Lemma sorted_unique (l : list time) : StronglySorted Qclt (unique l).
Proof.
  induction l as [|x l IH]; simpl; [constructor|].
  now apply sorted_insert_unique.
Qed.

(** A strictly increasing list is determined by its elements. *)
Lemma sorted_ext (l1 l2 : list time) :
  StronglySorted Qclt l1 -> StronglySorted Qclt l2 ->
  (forall z, In z l1 <-> In z l2) -> l1 = l2.
Proof.
  intros H1. revert l2.
  induction H1 as [|a l1 Hs1 IH Ha]; intros l2 H2 Hin.
  - destruct l2 as [|b l2]; [reflexivity|].
    exfalso. apply (Hin b). now left.
  - destruct H2 as [|b l2 Hs2 Hb].
    + exfalso. apply (Hin a). now left.
    + rewrite Forall_forall in Ha, Hb.
      assert (Hab : a = b).
      { destruct (proj1 (Hin a) (or_introl eq_refl)) as [Hba|Hal2]; [now subst|].
        destruct (proj2 (Hin b) (or_introl eq_refl)) as [Hba|Hbl1]; [assumption|].
        exfalso. apply (Qclt_irrefl a).
        eapply Qclt_trans; [apply Ha, Hbl1 | apply Hb, Hal2]. }
      subst b. f_equal. apply IH; [assumption|].
      intros z. split; intros Hz.
      * destruct (proj1 (Hin z) (or_intror Hz)) as [<-|Hz2]; [|assumption].
        exfalso. apply (Qclt_irrefl a). now apply Ha.
      * destruct (proj2 (Hin z) (or_intror Hz)) as [<-|Hz1]; [|assumption].
        exfalso. apply (Qclt_irrefl a). now apply Hb.
Qed.

(** Merging the merged times of two operands merges all their times. *)
Lemma unique_app (l1 l2 : list time) :
  unique (l1 ++ l2) = unique (unique l1 ++ unique l2).
Proof.
  apply sorted_ext; try apply sorted_unique.
  intros z. rewrite !In_unique, !in_app_iff, !In_unique. reflexivity.
Qed.

Lemma sorted_nth (l : list time) (i j : nat) (d : time) :
  StronglySorted Qclt l -> i < j -> j < length l ->
  (nth i l d < nth j l d)%Qc.
Proof.
  intros Hs. revert i j. induction Hs as [|a l Hs IH Ha]; intros i j Hij Hj.
  - simpl in Hj. lia.
  - destruct j as [|j]; [lia|]. simpl in Hj.
    destruct i as [|i]; simpl.
    + rewrite Forall_forall in Ha. apply Ha, nth_In. lia.
    + apply IH; lia.
Qed.

Lemma sorted_nth_le (l : list time) (i j : nat) (d : time) :
  StronglySorted Qclt l -> i <= j -> j < length l ->
  (nth i l d <= nth j l d)%Qc.
Proof.
  intros Hs Hij Hj. destruct (Nat.eq_dec i j) as [->|Hne].
  - apply Qcle_refl.
  - apply Qclt_le_weak, sorted_nth; [assumption | lia | assumption].
Qed.

(** ** Sum of two PWC time arrays *)

Lemma mapM_app {A B : Type} (g : A -> result B) (l1 l2 : list A)
      (ys1 ys2 : list B) :
  mapM g l1 = Ok ys1 -> mapM g l2 = Ok ys2 ->
  mapM g (l1 ++ l2) = Ok (ys1 ++ ys2).
Proof.
  revert ys1. induction l1 as [|x l1 IH]; intros ys1; simpl.
  - now intros [= <-].
  - destruct (g x) as [y|e]; cbn [bind]; [|discriminate].
    destruct (mapM g l1) as [ys|e]; cbn [bind]; [|discriminate].
    intros [= <-] H2. now rewrite (IH ys eq_refl H2).
Qed.

Section PWCSumClaim.

Context {C : Type} {SC : Scalar C}.

Lemma new_PWC_inv (fs : list _Factor) (arr : tensor C) (st0 : option (tensor C))
      (A : TimeArray) :
  new PWC fs arr st0 = Ok A ->
  exists m r st ts,
    rev (shape arr) = m :: r /\ mapM _Factor_times fs = Ok ts /\ ts <> [] /\
    A = PWCTimeArray (mkFactorTimeArray fs arr m st) (unique (concat ts)).
Proof.
  unfold new, PWCTimeArray__init__, FactorTimeArray__init__.
  destruct (rev (shape arr)) as [|m r]; [discriminate|].
  destruct (match st0 with
            | Some s => Ok s
            | None => a0 <- index_first arr ;; Ok (zeros_like a0)
            end) as [st|e]; cbn [bind]; [|discriminate].
  destruct (mapM _Factor_times fs) as [ts|e]; cbn [bind]; [|discriminate].
  destruct ts as [|t0 ts]; [discriminate|]. cbn.
  intros [= <-]. exists m, r, st, (t0 :: ts). repeat split. discriminate.
Qed.

(** C5.  Let [A] and [B] be constructed PWC time arrays with [nf1] and
    [nf2] factors, base matrices of shapes [nf1 :: s] and [nf2 :: s], and
    static parts that add up to [st].  Then [A + B] is a PWC time array
    whose factors are those of [A] followed by those of [B] ([nf1 + nf2] of
    them), whose base matrices are the concatenation of both stacks, whose
    static part is [st], and whose times are the strictly increasing list
    of the times of [A] and of [B], each once. *)
Theorem pwc_add_pwc
        (fsA fsB : list _Factor) (arrA arrB : tensor C)
        (stA stB : option (tensor C)) (A B : TimeArray)
        (selfA selfB : FactorTimeArray) (nf1 nf2 : nat) (s : list nat)
        (st : tensor C) (depth : nat) :
  new PWC fsA arrA stA = Ok A ->
  new PWC fsB arrB stB = Ok B ->
  composite A = Some (PWC, selfA) ->
  composite B = Some (PWC, selfB) ->
  length fsA = nf1 -> length fsB = nf2 ->
  shape arrA = nf1 :: s -> shape arrB = nf2 :: s ->
  tadd (static selfA) (static selfB) = Ok st ->
  exists R selfR,
    py_add (S depth) (OTimeArray A) (OTimeArray B) = Ok (OTimeArray R) /\
    composite R = Some (PWC, selfR) /\
    factors selfR = factors selfA ++ factors selfB /\
    length (factors selfR) = nf1 + nf2 /\
    concatenate (arrays selfA) (arrays selfB) = Ok (arrays selfR) /\
    shape (arrays selfR) = (nf1 + nf2) :: s /\
    static selfR = st /\
    merged_times R = unique (merged_times A ++ merged_times B) /\
    StronglySorted Qclt (merged_times R) /\
    (forall z, In z (merged_times R)
               <-> In z (merged_times A) \/ In z (merged_times B)).
Proof.
  intros HA HB HcA HcB Hn1 Hn2 HsA HsB Hst.
  apply new_PWC_inv in HA, HB.
  destruct HA as (mA & rA & sA & tsA & HrA & HtA & HneA & ->).
  destruct HB as (mB & rB & sB & tsB & HrB & HtB & HneB & ->).
  cbn in HcA, HcB. injection HcA as <-. injection HcB as <-.
  cbn [static factors arrays] in *.
  assert (Hcat : concatenate arrA arrB
                 = Ok (init ((nf1 + nf2) :: s)
                            (fun idx => match idx with
                                        | i :: r => if i <? nf1 then get arrA (i :: r)
                                                    else get arrB ((i - nf1) :: r)
                                        | [] => c0
                                        end))).
  { unfold concatenate. now rewrite HsA, HsB, shape_eqb_refl. }
  destruct (rev ((nf1 + nf2) :: s)) as [|mR rR] eqn:HrR.
  { apply (f_equal (@length nat)) in HrR. rewrite length_rev in HrR. discriminate. }
  set (catd := init ((nf1 + nf2) :: s) _) in Hcat.
  set (selfR := mkFactorTimeArray (fsA ++ fsB) catd mR st).
  exists (PWCTimeArray selfR (unique (concat (tsA ++ tsB)))), selfR.
  assert (Hts : tsA ++ tsB <> []).
  { destruct tsA; [congruence | discriminate]. }
  assert (Hadd : TimeArray__add__
                   (PWCTimeArray (mkFactorTimeArray fsA arrA mA sA)
                                 (unique (concat tsA)))
                   (OTimeArray (PWCTimeArray (mkFactorTimeArray fsB arrB mB sB)
                                             (unique (concat tsB))))
                 = Ok (Return (PWCTimeArray selfR (unique (concat (tsA ++ tsB)))))).
  { cbn [TimeArray__add__ FactorTimeArray__add__ as_instance
         static factors arrays].
    rewrite Hcat, Hst. cbn [bind].
    unfold new, PWCTimeArray__init__, FactorTimeArray__init__.
    change (shape catd) with ((nf1 + nf2) :: s). rewrite HrR. cbn [bind].
    rewrite (mapM_app _ _ _ _ _ HtA HtB). cbn [bind].
    destruct (tsA ++ tsB) eqn:E; [congruence|]. reflexivity. }
  repeat split.
  - cbn [py_add]. now rewrite Hadd.
  - cbn [factors selfR]. rewrite length_app. congruence.
  - exact Hcat.
  - cbn [merged_times]. rewrite concat_app. apply unique_app.
  - apply sorted_unique.
  - cbn [merged_times]. rewrite !In_unique, concat_app, in_app_iff. tauto.
  - cbn [merged_times]. rewrite !In_unique, concat_app, in_app_iff. tauto.
Qed.

End PWCSumClaim.

(** ** The piecewise-constant factor *)

Lemma last_nth_length {A : Type} (l : list A) (d e : A) :
  l <> [] -> last l d = nth (length l - 1) l e.
Proof.
  induction l as [|x l IH]; intros Hne; [congruence|].
  destruct l as [|y l]; [reflexivity|].
  change (last (x :: y :: l) d) with (last (y :: l) d).
  rewrite IH by discriminate. simpl. now rewrite Nat.sub_0_r.
Qed.

Lemma midpoint_bounds (lo hi : nat) :
  lo < hi -> lo <= (lo + hi) / 2 < hi.
Proof.
  intros H. pose proof (Nat.div_mod_eq (lo + hi) 2) as E.
  pose proof (Nat.mod_upper_bound (lo + hi) 2). lia.
Qed.

(** The binary search returns the insertion point on the right: every
    earlier time is at most [t], every later one is greater. *)
Lemma bisect_right_spec (a : list time) (t : time) :
  StronglySorted Qclt a ->
  forall fuel lo hi,
    lo <= hi -> hi <= length a -> hi - lo <= fuel ->
    (forall i, i < lo -> (nth i a 0 <= t)%Qc) ->
    (forall i, hi <= i -> i < length a -> (t < nth i a 0)%Qc) ->
    let r := bisect_right fuel a t lo hi in
    lo <= r <= hi /\
    (forall i, i < r -> (nth i a 0 <= t)%Qc) /\
    (forall i, r <= i -> i < length a -> (t < nth i a 0)%Qc).
Proof.
  intros Hs fuel. induction fuel as [|fuel IH]; intros lo hi Hlh Hhi Hf Hlo Hup.
  - simpl. assert (lo = hi) by lia. subst. repeat split; auto.
  - cbn [bisect_right].
    destruct (Nat.ltb_spec lo hi) as [Hlt|Hge].
    + pose proof (midpoint_bounds lo hi Hlt) as [Hm1 Hm2].
      destruct (time_ltb t (nth ((lo + hi) / 2) a 0%Qc)) eqn:E.
      * apply time_ltb_lt in E.
        destruct (IH lo ((lo + hi) / 2)) as (Hr & H1 & H2); try lia; auto.
        { intros i Hi Hil. eapply Qclt_le_trans; [exact E|].
          apply sorted_nth_le; auto. }
        repeat split; auto; lia.
      * apply time_ltb_ge in E.
        destruct (IH (S ((lo + hi) / 2)) hi) as (Hr & H1 & H2); try lia; auto.
        { intros i Hi. eapply Qcle_trans; [|exact E].
          apply sorted_nth_le; auto; lia. }
        repeat split; auto; lia.
    + assert (lo = hi) by lia. subst. repeat split; auto.
Qed.

Lemma searchsorted_right_spec (a : list time) (t : time) :
  StronglySorted Qclt a ->
  let r := searchsorted_right a t in
  r <= length a /\
  (forall i, i < r -> (nth i a 0 <= t)%Qc) /\
  (forall i, r <= i -> i < length a -> (t < nth i a 0)%Qc).
Proof.
  intros Hs. unfold searchsorted_right.
  destruct (bisect_right_spec a t Hs (length a) 0 (length a))
    as (Hr & H1 & H2); try lia.
  repeat split; auto; lia.
Qed.

Lemma clamp_index_in_range (d k : nat) :
  k < d -> clamp_index d (Z.of_nat k) = k.
Proof. intros H. unfold clamp_index. destruct (Z.ltb_spec (Z.of_nat k) 0); lia. Qed.

Section PWCFactorClaim.

Context {C : Type} {SC : Scalar C}.

Lemma index_last_Ok (values : tensor C) (bs : list nat) (nv k : nat) :
  shape values = bs ++ [nv] -> k < nv ->
  index_last values (Z.of_nat k)
  = Ok (init bs (fun idx => get values (idx ++ [k]))).
Proof.
  intros Hs Hk. unfold index_last. rewrite Hs, rev_app_distr. simpl rev.
  cbn [app]. destruct nv as [|nv]; [lia|].
  rewrite removelast_last, clamp_index_in_range by assumption. reflexivity.
Qed.

(** C2.  Let a PWC factor have strictly increasing times [times[0..nv]],
    with [nv >= 1], and values of shape [bs ++ [nv]].  A call at [t] with
    [t < times[0]] or [times[nv] <= t] returns the zero array of the batch
    shape [bs].  A call at [t] with [times[0] <= t < times[nv]] returns
    [values[..., k]] for an interval [k < nv] with
    [times[k] <= t < times[k+1]]; no other interval contains [t], and [k+1]
    is what the binary search returns. *)
Theorem pwc_factor_call
        (times : list time) (values : tensor C) (nv : nat) (bs : list nat)
        (t : time) :
  StronglySorted Qclt times ->
  length times = S nv ->
  0 < nv ->
  shape values = bs ++ [nv] ->
  ((t < nth 0 times 0 \/ nth nv times 0 <= t)%Qc ->
   _Factor__call__ (PWCFactor times values nv) t = Ok (zeros bs))
  /\
  ((nth 0 times 0 <= t)%Qc -> (t < nth nv times 0)%Qc ->
   exists k,
     k < nv /\
     (nth k times 0 <= t)%Qc /\ (t < nth (S k) times 0)%Qc /\
     (forall k', k' < nv -> (nth k' times 0 <= t)%Qc ->
                 (t < nth (S k') times 0)%Qc -> k' = k) /\
     searchsorted_right times t = S k /\
     _Factor__call__ (PWCFactor times values nv) t
     = Ok (init bs (fun idx => get values (idx ++ [k])))).
Proof.
  intros Hs Hlen Hnv Hshape.
  assert (Hfirst : first_time times = Ok (nth 0 times 0%Qc)).
  { destruct times; [discriminate | reflexivity]. }
  assert (Hlast : last_time times = Ok (nth nv times 0%Qc)).
  { destruct times as [|x l]; [discriminate|]. unfold last_time. f_equal.
    rewrite (last_nth_length _ x 0%Qc) by discriminate.
    rewrite Hlen. f_equal. lia. }
  assert (Hzero : (v <- index_last values 0 ;; Ok (zeros_like v)) = Ok (zeros bs)).
  { change 0%Z with (Z.of_nat 0).
    rewrite (index_last_Ok values bs nv 0) by assumption. reflexivity. }
  cbn [_Factor__call__]. unfold _PWCFactor__call__.
  rewrite Hfirst. cbn [bind]. split.
  - intros [Hlt|Hge].
    + apply time_ltb_lt in Hlt. now rewrite Hlt.
    + destruct (time_ltb t (nth 0 times 0%Qc)); [assumption|].
      rewrite Hlast. cbn [bind].
      apply time_geb_ge in Hge. now rewrite Hge.
  - intros Hge Hlt.
    apply time_ltb_ge in Hge. rewrite Hge, Hlast. cbn [bind].
    apply time_ltb_ge in Hge.
    pose proof Hlt as Hlt'. apply time_geb_lt in Hlt'. rewrite Hlt'.
    destruct (searchsorted_right_spec times t Hs) as (Hr & Hlow & Hup).
    set (r := searchsorted_right times t) in *.
    assert (Hr1 : 1 <= r).
    { destruct r; [|lia]. exfalso.
      apply (Qclt_irrefl t). eapply Qclt_le_trans; [|exact Hge].
      apply Hup; lia. }
    assert (Hr2 : r <= nv).
    { destruct (Nat.le_gt_cases r nv) as [|Hgt]; [assumption|]. exfalso.
      apply (Qclt_irrefl t). eapply Qclt_le_trans; [exact Hlt|].
      apply Hlow. lia. }
    exists (r - 1). repeat split.
    + lia.
    + apply Hlow. lia.
    + replace (S (r - 1)) with r by lia. apply Hup; lia.
    + intros k' Hk' Hk1 Hk2.
      assert (k' < r).
      { destruct (Nat.lt_ge_cases k' r) as [|Hc]; [assumption|]. exfalso.
        apply (Qclt_irrefl t). eapply Qclt_le_trans; [|exact Hk1].
        apply Hup; lia. }
      assert (r <= S k').
      { destruct (Nat.le_gt_cases r (S k')) as [|Hc]; [assumption|]. exfalso.
        apply (Qclt_irrefl t). eapply Qclt_le_trans; [exact Hk2|].
        apply Hlow. lia. }
      lia.
    + lia.
    + replace (Z.of_nat r - 1)%Z with (Z.of_nat (r - 1)) by lia.
      apply (index_last_Ok values bs nv); [assumption | lia].
Qed.

End PWCFactorClaim.

(** ** More on broadcasting *)

Lemma broadcast_dim_comm (a b : nat) : broadcast_dim a b = broadcast_dim b a.
Proof.
  unfold broadcast_dim.
  repeat match goal with
         | |- context [Nat.eqb ?x ?y] => destruct (Nat.eqb_spec x y); subst
         end; try reflexivity; try congruence.
Qed.

Lemma broadcast_rev_comm (r1 r2 : list nat) :
  broadcast_rev r1 r2 = broadcast_rev r2 r1.
Proof.
  revert r2. induction r1 as [|a r1 IH]; intros [|b r2]; simpl; try reflexivity.
  now rewrite broadcast_dim_comm, IH.
Qed.

Lemma broadcast_shapes_comm (s1 s2 : list nat) :
  broadcast_shapes s1 s2 = broadcast_shapes s2 s1.
Proof. unfold broadcast_shapes. now rewrite broadcast_rev_comm. Qed.

Lemma broadcast_rev_prefix (r x y : list nat) :
  broadcast_rev (r ++ x) (r ++ y) = option_map (app r) (broadcast_rev x y).
Proof.
  induction r as [|a r IH]; simpl.
  - now destruct (broadcast_rev x y).
  - rewrite broadcast_dim_same, IH. now destruct (broadcast_rev x y).
Qed.

Lemma broadcast_shapes_suffix (a b s : list nat) :
  broadcast_shapes (a ++ s) (b ++ s)
  = option_map (fun x => x ++ s) (broadcast_shapes a b).
Proof.
  unfold broadcast_shapes. rewrite !rev_app_distr, broadcast_rev_prefix.
  destruct (broadcast_rev (rev a) (rev b)) as [z|]; simpl; [|reflexivity].
  now rewrite rev_app_distr, rev_involutive.
Qed.

Lemma broadcast_shapes_absorb (a b c : list nat) :
  broadcast_shapes a b = Some c -> broadcast_shapes c b = Some c.
Proof.
  intros H. pose proof (broadcast_shapes_assoc a b b) as Ha.
  rewrite H, broadcast_shapes_same in Ha. cbn [obind] in Ha. congruence.
Qed.

(** ** Matrix products and adjoints *)

Section MatrixFacts.

Context {C : Type} {SC : Scalar C}.

Lemma matmul_Ok (a b : tensor C) (ba bb bs : list nat) (n k m : nat) :
  shape a = ba ++ [n; k] -> shape b = bb ++ [k; m] ->
  broadcast_shapes ba bb = Some bs ->
  matmul a b
  = Ok (init (bs ++ [n; m])
             (fun idx =>
                let bi := but_last_two idx in
                let i := nth 0 (last_two idx) 0 in
                let j := nth 1 (last_two idx) 0 in
                csum (map (fun l => cmul (get a (bidx ba bi ++ [i; l]))
                                         (get b (bidx bb bi ++ [l; j])))
                          (seq 0 k)))).
Proof.
  intros Ha Hb Hbs. unfold matmul.
  rewrite Ha, Hb, !split_matrix_app, Nat.eqb_refl, Hbs. reflexivity.
Qed.

Lemma adjoint_Ok (a : tensor C) (b : list nat) (n m : nat) :
  shape a = b ++ [n; m] ->
  adjoint a
  = Ok (init (b ++ [m; n])
             (fun idx => cconj (get a (but_last_two idx ++ rev (last_two idx))))).
Proof. intros Ha. unfold adjoint. now rewrite Ha, split_matrix_app. Qed.

Lemma get_matrix_entry (bs : list nat) (n m : nat) (g : list nat -> C)
      (b : list nat) (i j : nat) :
  valid bs b -> i < n -> j < m ->
  get (init (bs ++ [n; m]) g) (b ++ [i; j]) = g (b ++ [i; j]).
Proof.
  intros Hb Hi Hj. apply get_init.
  apply valid_app; [assumption | now repeat constructor].
Qed.

Lemma valid_matrix_inv (bs : list nat) (n m : nat) (idx : list nat) :
  valid (bs ++ [n; m]) idx ->
  exists b i j, idx = b ++ [i; j] /\ valid bs b /\ i < n /\ j < m.
Proof.
  intros Hv. apply valid_app_inv in Hv. destruct Hv as (b & rc & -> & Hb & Hrc).
  apply valid_two in Hrc. destruct Hrc as (i & j & -> & Hi & Hj).
  now exists b, i, j.
Qed.

Lemma get_zeros (s idx : list nat) : valid s idx -> get (zeros s : tensor C) idx = c0.
Proof. intros Hv. unfold zeros. now rewrite get_init. Qed.

End MatrixFacts.

(** ** The Lindbladian without jump operators *)

Section LindbladFacts.

Context {C : Type} {SC : Scalar C}.

Lemma sum_no_jump_empty (Hf : time -> result (tensor C)) (J : tensor C) (m : nat) :
  shape J = [0; m; m] ->
  sum_no_jump (MESolver__init__ Hf J) = Ok (zeros [m; m]).
Proof.
  intros HJ. unfold sum_no_jump, MESolver__init__. cbn [jump_ops].
  assert (HsJ : shape (expand0 J) = [1; 0] ++ [m; m]).
  { unfold expand0. cbn [shape]. now rewrite HJ. }
  rewrite (adjoint_Ok _ _ _ _ HsJ). cbn [bind].
  rewrite (matmul_Ok _ _ [1; 0] [1; 0] [1; 0] m m m);
    [|reflexivity | assumption | apply broadcast_shapes_same].
  cbn [bind]. unfold squeeze0. rewrite shape_init. cbn [app].
  unfold sum_axis, ndim. cbn [shape length]. reflexivity.
Qed.

Lemma kraus_map_empty (Hf : time -> result (tensor C)) (J rho : tensor C) (m : nat) :
  shape J = [0; m; m] ->
  kraus_map rho (jump_ops (MESolver__init__ Hf J)) = Ok (zeros_like rho).
Proof.
  intros HJ. unfold kraus_map, MESolver__init__, index0, expand0.
  cbn [jump_ops shape]. rewrite HJ. reflexivity.
Qed.

Context {L : ScalarLaws C}.

Lemma csub_0_r (x : C) : csub x c0 = x.
Proof. now rewrite csub_def, cneg_0, cadd_0_r. Qed.

Lemma cconj_fold (l : list C) (acc : C) :
  cconj (fold_left cadd l acc) = fold_left cadd (map cconj l) (cconj acc).
Proof.
  revert acc. induction l as [|x l IH]; intros acc; simpl; [reflexivity|].
  now rewrite IH, cconj_add.
Qed.

Lemma cconj_csum (l : list C) : cconj (csum l) = csum (map cconj l).
Proof. unfold csum. now rewrite cconj_fold, cconj_0. Qed.

(** Subtracting a matrix of zeros from a batch of matrices. *)
Lemma tsub_zero_matrix (h z : tensor C) (bh : list nat) (m : nat) :
  wf h -> shape h = bh ++ [m; m] -> shape z = [m; m] ->
  (forall idx, valid [m; m] idx -> get z idx = c0) ->
  tsub h z = Ok h.
Proof.
  intros Hwf Hh Hz Hz0. unfold tsub.
  assert (Hbs : broadcast_shapes (shape h) (shape z) = Some (shape h)).
  { rewrite Hh, Hz. apply broadcast_shapes_batch. }
  rewrite (broadcast2_Ok _ _ _ _ Hbs). f_equal.
  transitivity (init (shape h) (get h)); [|now apply init_get].
  apply init_ext. intros idx Hv.
  rewrite (bidx_valid_id _ _ Hv), Hz0; [apply csub_0_r|].
  rewrite Hz. rewrite Hh in Hv.
  apply valid_matrix_inv in Hv. destruct Hv as (b & i & j & -> & Hb & Hi & Hj).
  rewrite bidx_tail; repeat constructor; assumption.
Qed.

Lemma H_nh_empty (Hf : time -> result (tensor C)) (J h : tensor C) (t : time)
      (bh : list nat) (m : nat) :
  shape J = [0; m; m] -> Hf t = Ok h -> wf h -> shape h = bh ++ [m; m] ->
  H_nh (MESolver__init__ Hf J) t = Ok h.
Proof.
  intros HJ Hh Hwf Hsh. unfold H_nh.
  rewrite (sum_no_jump_empty Hf J m HJ).
  unfold MESolver__init__ at 1. cbn [H]. rewrite Hh. cbn [bind].
  apply (tsub_zero_matrix h _ bh m); auto.
  intros idx Hv. unfold tscale, tmap.
  change (shape (zeros [m; m])) with [m; m].
  rewrite get_init by assumption. rewrite get_zeros by assumption.
  apply cmul_0_r.
Qed.

End LindbladFacts.

Section LindbladClaim.

Context {C : Type} {SC : Scalar C} {L : ScalarLaws C}.

(** Entries of a Hermitian batch of matrices. *)
Lemma hermitian_entry (rho : tensor C) (br : list nat) (m : nat)
      (b : list nat) (i j : nat) :
  shape rho = br ++ [m; m] -> adjoint rho = Ok rho ->
  valid br b -> i < m -> j < m ->
  cconj (get rho (b ++ [j; i])) = get rho (b ++ [i; j]).
Proof.
  intros Hs Hherm Hb Hi Hj.
  rewrite (adjoint_Ok rho br m m Hs) in Hherm. injection Hherm as Hherm.
  rewrite <- Hherm at 2.
  rewrite get_matrix_entry by assumption.
  now rewrite but_last_two_app, last_two_app.
Qed.

(** C7.  With an empty set of jump operators (a tensor of shape
    [(0, m, m)]), a Hamiltonian [H(t) = h] of shape [bh ++ [m; m]] and a
    Hermitian [rho] of shape [br ++ [m; m]] whose batch shapes broadcast:
    the cached [sum_no_jump] is the zero matrix, the Kraus map of [rho] is
    zero, and [lindbladian(t, rho)] returns
    [-1j * (h @ rho - rho @ h.adjoint())]. *)
Theorem lindbladian_no_jump_ops
        (Hf : time -> result (tensor C)) (J h rho : tensor C) (t : time)
        (m : nat) (bh br bs : list nat) :
  shape J = [0; m; m] ->
  Hf t = Ok h -> wf h -> shape h = bh ++ [m; m] ->
  shape rho = br ++ [m; m] ->
  broadcast_shapes bh br = Some bs ->
  adjoint rho = Ok rho ->
  sum_no_jump (MESolver__init__ Hf J) = Ok (zeros [m; m]) /\
  kraus_map rho (jump_ops (MESolver__init__ Hf J)) = Ok (zeros_like rho) /\
  exists h_rho h_dag rho_h_dag d,
    matmul h rho = Ok h_rho /\
    adjoint h = Ok h_dag /\
    matmul rho h_dag = Ok rho_h_dag /\
    tsub h_rho rho_h_dag = Ok d /\
    lindbladian (MESolver__init__ Hf J) t rho = Ok (tscale (cneg cj) d).
Proof.
  intros HJ Hh Hwf Hsh Hsr Hbs Hherm.
  split; [now apply sum_no_jump_empty|].
  split; [now apply (kraus_map_empty Hf J rho m)|].
  assert (Hbs' : broadcast_shapes br bh = Some bs)
    by now rewrite broadcast_shapes_comm.
  pose proof (matmul_Ok h rho bh br bs m m m Hsh Hsr Hbs) as HX.
  pose proof (adjoint_Ok h bh m m Hsh) as Hhd.
  set (X := init (bs ++ [m; m]) _) in HX.
  set (hd := init (bh ++ [m; m]) _) in Hhd.
  pose proof (matmul_Ok rho hd br bh bs m m m Hsr eq_refl Hbs') as HY.
  set (Y := init (bs ++ [m; m]) _) in HY.
  assert (Hsame : broadcast_shapes (bs ++ [m; m]) (bs ++ [m; m])
                  = Some (bs ++ [m; m])) by apply broadcast_shapes_same.
  pose proof (broadcast2_Ok csub X Y _ Hsame) as HD.
  set (D := init (bs ++ [m; m]) _) in HD.
  exists X, hd, Y, D. repeat split; try assumption.
  unfold lindbladian.
  rewrite (H_nh_empty Hf J h t bh m) by assumption. cbn [bind].
  rewrite HX. cbn [bind].
  rewrite (kraus_map_empty Hf J rho m) by assumption. cbn [bind].
  rewrite (adjoint_Ok X bs m m eq_refl). cbn [bind].
  set (XA := init (bs ++ [m; m]) _).
  unfold tsub at 1. rewrite (broadcast2_Ok csub X XA _ Hsame). cbn [bind].
  set (D0 := init (bs ++ [m; m]) _).
  assert (Habs : broadcast_shapes (shape (tscale (cneg cj) D0))
                                  (shape (zeros_like rho))
                 = Some (bs ++ [m; m])).
  { unfold tscale, tmap, zeros_like, zeros. rewrite !shape_init.
    unfold D0. rewrite shape_init, Hsr, broadcast_shapes_suffix.
    rewrite (broadcast_shapes_absorb _ _ _ Hbs). reflexivity. }
  unfold tadd. rewrite (broadcast2_Ok cadd _ _ _ Habs). f_equal.
  change (tscale (cneg cj) D)
    with (init (bs ++ [m; m]) (fun idx => cmul (cneg cj) (get D idx))).
  apply init_ext. intros idx Hv.
  apply broadcast_shapes_sub in Habs. destruct Habs as [Hsub1 Hsub2].
  change (shape (tscale (cneg cj) D0)) with (bs ++ [m; m]) in *.
  rewrite (bidx_valid_id _ _ Hv).
  unfold zeros_like. rewrite get_zeros by (eapply bidx_sub_valid; eassumption).
  rewrite cadd_0_r.
  unfold tscale, tmap. change (shape D0) with (bs ++ [m; m]).
  rewrite get_init by assumption. f_equal.
  unfold D0, D. rewrite !get_init by assumption.
  change (shape X) with (bs ++ [m; m]). change (shape XA) with (bs ++ [m; m]).
  change (shape Y) with (bs ++ [m; m]).
  rewrite (bidx_valid_id _ _ Hv). f_equal.
  (* the adjoint of [h @ rho] against [rho @ h.adjoint()] *)
  apply valid_matrix_inv in Hv. destruct Hv as (b & i & j & -> & Hb & Hi & Hj).
  apply broadcast_shapes_sub in Hbs. destruct Hbs as [Hsh_b Hsr_b].
  assert (Hvh : valid bh (bidx bh b)) by (eapply bidx_sub_valid; eassumption).
  assert (Hvr : valid br (bidx br b)) by (eapply bidx_sub_valid; eassumption).
  unfold XA. rewrite get_matrix_entry by assumption.
  rewrite but_last_two_app, last_two_app. cbn [rev app].
  unfold X, Y. rewrite !get_matrix_entry by assumption.
  rewrite !but_last_two_app, !last_two_app. cbn [nth].
  rewrite cconj_csum, map_map. apply csum_ext. intros l Hl.
  apply in_seq in Hl.
  rewrite cconj_mul, cmul_comm. f_equal.
  - apply (hermitian_entry rho br m); auto; lia.
  - unfold hd. rewrite get_matrix_entry by (auto; lia).
    now rewrite but_last_two_app, last_two_app.
Qed.

End LindbladClaim.

(** ** Validation in the factories *)

Section FactoryClaims.

Context {C : Type} {SC : Scalar C}.

(** C9, as the code has it.  The factories check their arguments in order
    and raise at the first check that fails, so each error below is
    reported when the checks before it pass.
    - PWC: with accepted [times], a [values] array whose leading dimension
      is not [len(times) - 1] raises the values-shape error, which carries
      the shape of [values].
    - PWC: with accepted [times] and [values], an [array] that is not a
      square matrix raises the not-a-square-matrix error.
    - Modulated: a function whose result at [0.0] is no [Array] raises the
      unexpected-return-type error.
    - Modulated: with a function returning an [Array] of an accepted dtype,
      an [array] that is not a square matrix raises the not-a-square-matrix
      error.
    In each case the factory itself raises: no time array is built. *)
Theorem factory_validation_errors
        (times : tensor time) (values array : tensor C) (dt : dtype)
        (g : time -> pyobj) (d : nat) (s : list nat) :
  (check_time_array times = Ok tt ->
   shape values = d :: s -> d + 1 <> length (data times) ->
   _factory_pwc times values array dt
   = Raise (TypeError (PWCValuesShape (shape values))))
  /\
  (check_time_array times = Ok tt ->
   shape values = d :: s -> d + 1 = length (data times) ->
   is_square_matrix array = false ->
   _factory_pwc times values array dt
   = Raise (TypeError (PWCArrayNotSquare (shape array))))
  /\
  ((forall f0dt f0, g 0%Qc <> PyJaxArray f0dt f0) ->
   _factory_modulated (PyFunction g) array dt
   = Raise (TypeError (ModulatedNotArray (type_name (g 0%Qc)))))
  /\
  (forall f0dt f0,
      g 0%Qc = PyJaxArray f0dt f0 ->
      f0dt = dt \/ f0dt = dtype_complex_to_real dt ->
      is_square_matrix array = false ->
      _factory_modulated (PyFunction g) array dt
      = Raise (TypeError (ModulatedArrayNotSquare (shape array)))).
Proof.
  repeat split.
  - intros Hc Hs Hd. unfold _factory_pwc. rewrite Hc, Hs. cbn [bind].
    destruct (Z.eqb_spec (Z.of_nat d) (Z.of_nat (length (data times)) - 1));
      [lia | reflexivity].
  - intros Hc Hs Hd Hsq. unfold _factory_pwc. rewrite Hc, Hs. cbn [bind].
    destruct (Z.eqb_spec (Z.of_nat d) (Z.of_nat (length (data times)) - 1));
      [|lia].
    cbn [negb]. now rewrite Hsq.
  - intros Hg. unfold _factory_modulated.
    destruct (g 0%Qc) eqn:E; try reflexivity.
    exfalso. eapply Hg. reflexivity.
  - intros f0dt f0 Hg Hdt Hsq. unfold _factory_modulated. rewrite Hg.
    assert (Hok : dtype_eqb f0dt dt || dtype_eqb f0dt (dtype_complex_to_real dt)
                  = true).
    { destruct Hdt as [->| ->]; destruct dt; reflexivity. }
    rewrite Hok. cbn [negb]. now rewrite Hsq.
Qed.

(** ** Properties the composite classes do not provide *)

(** C3, on the code.  [shape] of a composite time array evaluates
    [tuple(self.factors[0].shape, self.n, self.n)]: the builtin is handed
    three arguments and raises; [ndim], which is [len(self.shape)], raises
    with it.  Neither returns a value. *)
Theorem composite_shape_raises
        (x : _Factor) (fs : list _Factor) (arr st : tensor C) (m : nat)
        (times : list time) :
  let self := mkFactorTimeArray (x :: fs) arr m st in
  TimeArray_shape (PWCTimeArray self times) = Raise (TypeError (TupleArity 3)) /\
  TimeArray_ndim (PWCTimeArray self times) = Raise (TypeError (TupleArity 3)) /\
  TimeArray_shape (ModulatedTimeArray self) = Raise (TypeError (TupleArity 3)) /\
  TimeArray_ndim (ModulatedTimeArray self) = Raise (TypeError (TupleArity 3)).
Proof. repeat split. Qed.

(** C4, on the code.  [ConstantTimeArray] and [CallableTimeArray] define
    [mT]; the composite classes do not, and the property they inherit from
    [TimeArray] evaluates to [None], which is no time array. *)
Theorem composite_mT_is_None (self : FactorTimeArray) (times : list time) :
  @TimeArray_mT C SC (PWCTimeArray self times) = Ok None /\
  @TimeArray_mT C SC (ModulatedTimeArray self) = Ok None.
Proof. split; reflexivity. Qed.

(** C10, on the code.  A list is always converted element by element, and
    a Python number is none of the supported types: a list of numbers
    raises [TypeError] instead of being converted. *)
Theorem to_tensor_list_of_numbers (a b : Qc) :
  @to_tensor C SC (PyList [PyFloat a; PyFloat b])
  = Raise (TypeError (ToTensorUnsupported "float")) /\
  @to_tensor C SC (PyList [PyList [PyInt 1; PyInt 0]; PyList [PyInt 0; PyInt 1]])
  = Raise (TypeError (ToTensorUnsupported "int")).
Proof. split; reflexivity. Qed.

(** What [to_tensor] does on the other inputs: the empty tensor for [None]
    and for the empty list, the stack of the converted elements for a
    non-empty list, the entries of a quantum object, an array or a tensor,
    and a [TypeError] naming the type otherwise. *)
Lemma to_tensor_cases (x : pyobj) (l : list pyobj) (a : tensor C) :
  @to_tensor C SC PyNone = Ok empty_tensor /\
  @to_tensor C SC (PyList []) = Ok empty_tensor /\
  shape (@empty_tensor C) = [0] /\
  to_tensor (PyList (x :: l)) = (ys <- mapM to_tensor (x :: l) ;; stack ys 0) /\
  to_tensor (PyQobj a) = Ok a /\
  to_tensor (PyNdarray a) = Ok a /\
  to_tensor (PyTorchTensor a) = Ok a /\
  @to_tensor C SC (PyStr "sigmaz") = Raise (TypeError (ToTensorUnsupported "str")) /\
  @to_tensor C SC (PyInt 3) = Raise (TypeError (ToTensorUnsupported "int")).
Proof. repeat split. Qed.

(** A constant time array returns its array at every time, and its [mT]
    is the constant time array of the transposed array. *)
Lemma constant_call_and_mT (x : tensor C) (t : time) :
  TimeArray__call__ (_factory_constant x) t = Ok x /\
  TimeArray_mT (ConstantTimeArray x)
  = (x' <- mT x ;; Ok (Some (ConstantTimeArray x'))).
Proof.
  split; [reflexivity|]. cbn. unfold ConstantTimeArray_mT.
  now destruct (mT x).
Qed.

End FactoryClaims.

(** * The claims at concrete inputs *)

Lemma GQ_laws : ScalarLaws GQ.
Proof.
  split; intros; repeat match goal with x : GQ |- _ => destruct x end;
    cbn; f_equal; ring.
Qed.


Lemma ex_times_sorted : StronglySorted Qclt ex_times.
Proof. repeat constructor. Qed.

Lemma ex_pwc_built :
  _factory_pwc (mkTensor [3] ex_times) ex_values ex_matrix complex128 = Ok ex_pwc
  /\ new PWC [ex_factor] (expand0 ex_matrix) None = Ok ex_pwc.
Proof. split; vm_compute; reflexivity. Qed.

(** The boundary law of the spec on this array: zero before the first time,
    [5 * M] on [0, 1), [7 * M] on [1, 2), zero from the last time on. *)
Example ex_pwc_boundary_law :
  TimeArray__call__ ex_pwc (Q2Qc (-1 # 10)) = Ok (zeros [2; 2]) /\
  TimeArray__call__ ex_pwc (tq 0)
  = Ok (mkTensor [2; 2] [gq 5 0; gq 10 0; gq 15 0; gq 20 0]) /\
  TimeArray__call__ ex_pwc (Q2Qc (999 # 1000))
  = Ok (mkTensor [2; 2] [gq 5 0; gq 10 0; gq 15 0; gq 20 0]) /\
  TimeArray__call__ ex_pwc (tq 1)
  = Ok (mkTensor [2; 2] [gq 7 0; gq 14 0; gq 21 0; gq 28 0]) /\
  TimeArray__call__ ex_pwc (tq 2) = Ok (zeros [2; 2]).
Proof. repeat split; vm_compute; reflexivity. Qed.

(** The composite call at [t = 1/2], where the only factor has value 5. *)
Lemma composite_call_weighted_sum_witness :
  mapM (fun x => _Factor__call__ x (Q2Qc (1 # 2))) (factors ex_self)
  = Ok [mkTensor [] [gq 5 0]]
  /\ TimeArray__call__ ex_pwc (Q2Qc (1 # 2))
     = Ok (mkTensor [2; 2] [gq 5 0; gq 10 0; gq 15 0; gq 20 0]).
Proof.
  split; [vm_compute; reflexivity|].
  refine (eq_trans
            (proj1 (composite_call_weighted_sum
                      ex_pwc PWC ex_self (Q2Qc (1 # 2))
                      [mkTensor [] [gq 5 0]] [] 2 _ _ _ _ _)) _).
  - reflexivity.
  - discriminate.
  - vm_compute; reflexivity.
  - repeat constructor.
  - reflexivity.
  - vm_compute. reflexivity.
Defined.

(** C1, as stated, fails: the sum of the example, whose factor has scalar
    values, and of a PWC time array whose factor has a batch of two values
    is a composite with two factors, both of which return at [t = 0], with
    base matrices of shape (2, 2, 2) and a static part of shape (2, 2); its
    call raises, because the values of the factors cannot be stacked. *)
Lemma composite_call_mixed_batch_counterexample :
  exists B R self vs,
    _factory_pwc (mkTensor [3] ex_times) ex_batched_values ex_matrix complex128
    = Ok B /\
    py_add 1 (OTimeArray ex_pwc) (OTimeArray B) = Ok (OTimeArray R) /\
    composite R = Some (PWC, self) /\
    mapM (fun x => _Factor__call__ x (tq 0)) (factors self) = Ok vs /\
    map (@shape GQ) vs = [[]; [2]] /\
    shape (arrays self) = [2; 2; 2] /\
    shape (static self) = [2; 2] /\
    TimeArray__call__ R (tq 0) = Raise (ArrayError IncompatibleShapes).
Proof.
  do 4 eexists. repeat split; try (vm_compute; reflexivity).
Qed.

(** The factor of the example outside its times, and inside them. *)
Lemma pwc_factor_call_witness :
  _Factor__call__ ex_factor (tq 2) = Ok (zeros [])
  /\ exists k,
      k < 2 /\
      (nth k ex_times 0 <= tq 1)%Qc /\ (tq 1 < nth (S k) ex_times 0)%Qc /\
      (forall k', k' < 2 -> (nth k' ex_times 0 <= tq 1)%Qc ->
                  (tq 1 < nth (S k') ex_times 0)%Qc -> k' = k) /\
      searchsorted_right ex_times (tq 1) = S k /\
      _Factor__call__ ex_factor (tq 1)
      = Ok (init [] (fun idx => get ex_values (idx ++ [k]))).
Proof.
  split.
  - apply (proj1 (pwc_factor_call ex_times ex_values 2 [] (tq 2)
                    ex_times_sorted eq_refl (Nat.lt_0_succ 1) eq_refl)).
    right. vm_compute. discriminate.
  - apply (proj2 (pwc_factor_call ex_times ex_values 2 [] (tq 1)
                    ex_times_sorted eq_refl (Nat.lt_0_succ 1) eq_refl)).
    + vm_compute. discriminate.
    + vm_compute. reflexivity.
Defined.

(** The example added to itself: two factors, the same times. *)
Lemma pwc_add_pwc_witness :
  exists R selfR,
    py_add 1 (OTimeArray ex_pwc) (OTimeArray ex_pwc) = Ok (OTimeArray R) /\
    composite R = Some (PWC, selfR) /\
    factors selfR = [ex_factor; ex_factor] /\
    shape (arrays selfR) = [2; 2; 2] /\
    merged_times R = ex_times.
Proof.
  destruct (pwc_add_pwc [ex_factor] [ex_factor]
              (expand0 ex_matrix) (expand0 ex_matrix) None None
              ex_pwc ex_pwc ex_self ex_self 1 1 [2; 2]
              (init [2; 2] (fun idx => cadd (get (zeros [2; 2]) (bidx [2; 2] idx))
                                            (get (zeros [2; 2]) (bidx [2; 2] idx))))
              0
              (proj2 ex_pwc_built) (proj2 ex_pwc_built)
              eq_refl eq_refl eq_refl eq_refl eq_refl eq_refl eq_refl)
    as (R & selfR & Hadd & Hc & Hf & _ & _ & Hs & _ & Ht & _).
  exists R, selfR. repeat split; assumption.
Defined.

(** The example plus its own matrix: one factor still, and every call is
    the factor part plus the matrix. *)
Lemma composite_add_constant_witness :
  exists R self',
    py_add 1 (OTimeArray ex_pwc) (OArray ex_matrix) = Ok (OTimeArray R) /\
    composite R = Some (PWC, self') /\
    factors self' = [ex_factor] /\
    arrays self' = expand0 ex_matrix /\
    static self' = ex_matrix /\
    forall t, TimeArray__call__ R t
              = (s <- factor_part ex_self t ;; tadd s ex_matrix).
Proof.
  destruct (composite_add_constant
              PWC [ex_factor] (expand0 ex_matrix) None ex_pwc ex_self ex_matrix
              ex_matrix
              (proj2 ex_pwc_built) eq_refl ltac:(vm_compute; reflexivity))
    as (R & self' & Hadd & _ & Hc & Hf & _ & Ha & _ & _ & Hs & Hcall).
  exists R, self'.
  split; [|split; [|split; [|split; [|split]]]]; try assumption.
  intros t. apply (Hcall t).
Defined.

(** In binary64 the two orders of addition differ.  The PWC array of the
    example, shifted by [1e16]: adding [-1e16] to it gives an array whose
    call at [0] has the entry [5 * 1 + (1e16 - 1e16) = 5], while the call
    of the shifted array has the entry [5 + 1e16], rounded to
    [10000000000000004], and [-1e16] added to it gives [4]. *)
Lemma composite_add_constant_rounding_counterexample :
  exists A0 A self R v w,
    _factory_pwc (mkTensor [3] ex_times) fl_values fl_matrix complex128 = Ok A0 /\
    py_add 1 (OTimeArray A0) (OArray fl_shift) = Ok (OTimeArray A) /\
    composite A = Some (PWC, self) /\
    py_add 1 (OTimeArray A) (OArray fl_back) = Ok (OTimeArray R) /\
    TimeArray__call__ R (tq 0) = Ok v /\
    (a <- TimeArray__call__ A (tq 0) ;; tadd a fl_back) = Ok w /\
    get v [0; 0] = f64 5 /\
    get w [0; 0] = f64 4.
Proof.
  eexists _, _, _, _, _, _.
  split; [vm_compute; reflexivity|].
  split; [vm_compute; reflexivity|].
  split; [vm_compute; reflexivity|].
  split; [vm_compute; reflexivity|].
  split; [vm_compute; reflexivity|].
  split; [vm_compute; reflexivity|].
  split; vm_compute; reflexivity.
Qed.


Lemma lindbladian_no_jump_ops_witness :
  adjoint ex_rho = Ok ex_rho /\
  sum_no_jump ex_solver = Ok (zeros [2; 2]) /\
  exists h_rho h_dag rho_h_dag d,
    matmul ex_h ex_rho = Ok h_rho /\
    adjoint ex_h = Ok h_dag /\
    matmul ex_rho h_dag = Ok rho_h_dag /\
    tsub h_rho rho_h_dag = Ok d /\
    lindbladian ex_solver (tq 0) ex_rho = Ok (tscale (cneg cj) d).
Proof.
  assert (Hherm : adjoint ex_rho = Ok ex_rho) by (vm_compute; reflexivity).
  split; [exact Hherm|].
  destruct (lindbladian_no_jump_ops (L := GQ_laws)
              (fun _ => Ok ex_h) ex_no_jump ex_h ex_rho (tq 0) 2 [] [] []
              eq_refl eq_refl eq_refl eq_refl eq_refl eq_refl Hherm)
    as (Hsum & _ & Hex).
  split; assumption.
Defined.


Lemma factory_validation_errors_witness :
  _factory_pwc ex_short_times ex_bad_values ex_matrix complex128
  = Raise (TypeError (PWCValuesShape [2]))
  /\ _factory_pwc (mkTensor [3] ex_times) ex_values ex_not_square complex128
     = Raise (TypeError (PWCArrayNotSquare [1; 2]))
  /\ _factory_modulated (PyFunction ex_list_function) ex_matrix complex128
     = Raise (TypeError (ModulatedNotArray "list")).
Proof.
  split; [|split].
  - apply (proj1 (factory_validation_errors
                    ex_short_times ex_bad_values ex_matrix complex128
                    ex_list_function 2 [])); [reflexivity | reflexivity | discriminate].
  - apply (proj1 (proj2 (factory_validation_errors
                    (mkTensor [3] ex_times) ex_values ex_not_square complex128
                    ex_list_function 2 []))); reflexivity.
  - apply (proj1 (proj2 (proj2 (factory_validation_errors
                    ex_short_times ex_bad_values ex_matrix complex128
                    ex_list_function 2 [])))).
    intros f0dt f0. discriminate.
Defined.

(** C9, as stated, fails: this PWC construction has an [array] that is not
    a square matrix, and the error raised is the one about [values]. *)
Lemma factory_pwc_not_square_counterexample :
  is_square_matrix ex_not_square = false
  /\ _factory_pwc ex_short_times ex_bad_values ex_not_square complex128
     = Raise (TypeError (PWCValuesShape [2])).
Proof. split; reflexivity. Qed.

(** C8, on the code.  A callable time array of shape (2, 1, 1), reshaped to
    (2, 1, 1, 1), minus an array [y] of shape (2, 2, 1, 1): the difference
    is built and its call returns, but the new function subtracts [y] from
    [f(t)] before the pending reshape, so the entry at [0, 1] is
    [f(t)[1] - y[0, 1]] where the difference of the calls has
    [f(t)[0] - y[0, 1]]. *)
Theorem callable_sub_after_reshape :
  exists A R v w,
    TimeArray_reshape ex_callable [2; 1; 1; 1] = Ok A /\
    TimeArray__sub__ 2 A (OArray ex_y) = Ok (OTimeArray R) /\
    TimeArray__call__ R (tq 0) = Ok v /\
    (a <- TimeArray__call__ A (tq 0) ;; tsub a ex_y) = Ok w /\
    shape v = shape w /\
    get v [0; 1; 0; 0] = gq 2 0 /\
    get w [0; 1; 0; 0] = gq 1 0.
Proof.
  do 4 eexists. repeat split; try (vm_compute; reflexivity).
Qed.

(** * Further properties of the code *)

Lemma GQ_ring_laws : ScalarRingLaws GQ.
Proof.
  split; intros; repeat match goal with x : GQ |- _ => destruct x end;
    cbn; f_equal; ring.
Qed.

(** ** Indices under insertion and removal of a position *)

Lemma valid_insert_at (s idx : list nat) (q i : nat) :
  q < length s -> valid (remove_at q s) idx -> i < nth q s 0 ->
  valid s (insert_at q i idx).
Proof.
  revert s idx. induction q as [|q IH]; intros [|d s] idx Hq Hv Hi;
    simpl in *; try lia.
  - unfold insert_at. simpl. constructor; assumption.
  - unfold remove_at in Hv. simpl in Hv.
    inversion Hv as [|j ? idx' ? Hj Hv']; subst.
    unfold insert_at. simpl. constructor; [assumption|].
    apply IH; [lia | assumption | assumption].
Qed.

Lemma valid_remove_at (s idx : list nat) (q m : nat) :
  q <= length s -> valid (insert_at q m s) idx -> valid s (remove_at q idx).
Proof.
  revert s idx. induction q as [|q IH]; intros s idx Hq Hv.
  - unfold insert_at in Hv. simpl in Hv.
    inversion Hv as [|j ? idx' ? Hj Hv']; subst.
    unfold remove_at. simpl. assumption.
  - destruct s as [|d s]; simpl in Hq; [lia|].
    unfold insert_at in Hv. simpl in Hv.
    inversion Hv as [|j ? idx' ? Hj Hv']; subst.
    unfold remove_at. simpl. constructor; [assumption|].
    apply IH; [lia | assumption].
Qed.

Lemma normalize_lt (m : nat) (k : Z) (q : nat) : normalize m k = Some q -> q < m.
Proof.
  unfold normalize.
  destruct (Z.leb_spec 0 k).
  - destruct (Z.ltb_spec k (Z.of_nat m)); [|discriminate]. intros [= <-]. lia.
  - destruct (Z.leb_spec 0 (k + Z.of_nat m)); [|discriminate]. intros [= <-]. lia.
Qed.

Lemma shape_eqb_eq (s1 s2 : list nat) : shape_eqb s1 s2 = true -> s1 = s2.
Proof.
  unfold shape_eqb. revert s2.
  induction s1 as [|a s1 IH]; intros [|b s2]; simpl; try discriminate;
    [reflexivity|].
  intros H. apply andb_prop in H. destruct H as [Hab H].
  apply Nat.eqb_eq in Hab. subst. f_equal. now apply IH.
Qed.

Lemma clamp_index_lt (d : nat) (k : Z) : 0 < d -> clamp_index d k < d.
Proof. intros Hd. unfold clamp_index. destruct (k <? 0)%Z; lia. Qed.

Lemma forallb_map_comp {A B : Type} (g : A -> B) (p : B -> bool) (l : list A) :
  forallb p (map g l) = forallb (fun x => p (g x)) l.
Proof. induction l as [|x l IH]; simpl; [reflexivity | now rewrite IH]. Qed.

(** ** Elementwise maps through the array operations *)

Section ElementwiseFacts.

Context {C : Type} {SC : Scalar C}.

Lemma shape_tmap (g : C -> C) (a : tensor C) : shape (tmap g a) = shape a.
Proof. reflexivity. Qed.

Lemma get_tmap (g : C -> C) (a : tensor C) (idx : list nat) :
  valid (shape a) idx -> get (tmap g a) idx = g (get a idx).
Proof. intros Hv. unfold tmap. now rewrite get_init. Qed.

Lemma tmap_init (g : C -> C) (s : list nat) (h : list nat -> C) :
  tmap g (init s h) = init s (fun idx => g (h idx)).
Proof.
  unfold tmap. rewrite shape_init. apply init_ext.
  intros idx Hv. now rewrite get_init.
Qed.

(** The buffer of a table of entries read through the row-major position. *)
Lemma map_ravel_indices (s : list nat) (d : list C) (g : C -> C) :
  map (fun idx => g (nth (ravel s idx) d c0)) (indices s)
  = map (fun p => g (nth p d c0)) (seq 0 (size_of s)).
Proof.
  apply (nth_ext _ _ (g (nth (ravel s []) d c0)) (g (nth 0 d c0))).
  - now rewrite !length_map, length_indices, length_seq.
  - intros p Hp. rewrite length_map, length_indices in Hp.
    rewrite (map_nth (fun idx => g (nth (ravel s idx) d c0))).
    rewrite (map_nth (fun p => g (nth p d c0))).
    rewrite ravel_nth_indices by assumption.
    now rewrite seq_nth by assumption.
Qed.

Lemma reshape_tmap (g : C -> C) (a : tensor C) (s : list nat) :
  reshape (tmap g a) s = (a' <- reshape a s ;; Ok (tmap g a')).
Proof.
  unfold reshape. rewrite shape_tmap.
  destruct (Nat.eqb_spec (size_of s) (size_of (shape a))) as [E|E];
    [|reflexivity].
  cbn [bind]. f_equal. unfold tmap, init, get. cbn [shape data].
  f_equal. rewrite !map_ravel_indices. now rewrite E.
Qed.

Lemma broadcast2_tmap_r (op : C -> C -> C) (g : C -> C) (a b : tensor C) :
  (forall x y, op x (g y) = g (op x y)) ->
  broadcast2 op a (tmap g b) = (r <- broadcast2 op a b ;; Ok (tmap g r)).
Proof.
  intros Hg. unfold broadcast2. rewrite shape_tmap.
  destruct (broadcast_shapes (shape a) (shape b)) as [s|] eqn:E; [|reflexivity].
  cbn [bind]. f_equal. rewrite tmap_init. apply init_ext. intros idx Hv.
  apply broadcast_shapes_sub in E. destruct E as [_ Hb].
  rewrite get_tmap by (eapply bidx_sub_valid; eassumption).
  apply Hg.
Qed.

Lemma broadcast2_tmap (op : C -> C -> C) (g : C -> C) (a b : tensor C) :
  (forall x y, op (g x) (g y) = g (op x y)) ->
  broadcast2 op (tmap g a) (tmap g b) = (r <- broadcast2 op a b ;; Ok (tmap g r)).
Proof.
  intros Hg. unfold broadcast2. rewrite !shape_tmap.
  destruct (broadcast_shapes (shape a) (shape b)) as [s|] eqn:E; [|reflexivity].
  cbn [bind]. f_equal. rewrite tmap_init. apply init_ext. intros idx Hv.
  apply broadcast_shapes_sub in E. destruct E as [Ha Hb].
  rewrite !get_tmap by (eapply bidx_sub_valid; eassumption).
  apply Hg.
Qed.

Lemma fold_left_additive (g : C -> C) (l : list C) (acc : C) :
  (forall x y, g (cadd x y) = cadd (g x) (g y)) ->
  g (fold_left cadd l acc) = fold_left cadd (map g l) (g acc).
Proof.
  intros Hg. revert acc. induction l as [|x l IH]; intros acc; simpl;
    [reflexivity|].
  now rewrite IH, Hg.
Qed.

Lemma csum_additive (g : C -> C) (l : list C) :
  g c0 = c0 -> (forall x y, g (cadd x y) = cadd (g x) (g y)) ->
  g (csum l) = csum (map g l).
Proof.
  intros H0 Hg. unfold csum. rewrite fold_left_additive by assumption.
  now rewrite H0.
Qed.

Lemma sum_axis_tmap (g : C -> C) (a : tensor C) (k : Z) :
  g c0 = c0 -> (forall x y, g (cadd x y) = cadd (g x) (g y)) ->
  sum_axis (tmap g a) k = (r <- sum_axis a k ;; Ok (tmap g r)).
Proof.
  intros H0 Hg. unfold sum_axis, ndim. rewrite shape_tmap.
  destruct (normalize (length (shape a)) k) as [q|] eqn:E; [|reflexivity].
  apply normalize_lt in E.
  cbn [bind]. f_equal. rewrite tmap_init. apply init_ext. intros idx Hv.
  rewrite csum_additive by assumption. rewrite map_map.
  apply csum_ext. intros i Hi. apply in_seq in Hi.
  apply get_tmap. apply valid_insert_at; [assumption | assumption | lia].
Qed.

Lemma forallb_same_shape (l : list (tensor C)) (a : tensor C) (b : tensor C) :
  forallb (fun b => shape_eqb (shape b) (shape a)) l = true ->
  In b l -> shape b = shape a.
Proof.
  intros H Hin. rewrite forallb_forall in H. apply shape_eqb_eq. now apply H.
Qed.

Lemma stack_tmap (g : C -> C) (l : list (tensor C)) (k : Z) :
  stack (map (tmap g) l) k = (r <- stack l k ;; Ok (tmap g r)).
Proof.
  destruct l as [|a l]; [reflexivity|].
  unfold stack. cbn [map]. unfold ndim. rewrite shape_tmap.
  change (tmap g a :: map (tmap g) l) with (map (tmap g) (a :: l)).
  rewrite forallb_map_comp.
  destruct (forallb (fun b => shape_eqb (shape (tmap g b)) (shape a)) (a :: l))
    eqn:Hall.
  - change (fun b => shape_eqb (shape (tmap g b)) (shape a))
      with (fun b : tensor C => shape_eqb (shape b) (shape a)) in Hall.
    rewrite Hall.
    destruct (normalize (S (length (shape a))) k) as [q|] eqn:E; [|reflexivity].
    apply normalize_lt in E.
    cbn [bind]. f_equal. rewrite tmap_init, length_map. apply init_ext.
    intros idx Hv.
    rewrite (map_nth (tmap g)).
    apply get_tmap.
    assert (Hs : shape (nth (nth q idx 0) (a :: l) a) = shape a).
    { destruct (Nat.lt_ge_cases (nth q idx 0) (length (a :: l))) as [Hlt|Hge].
      - eapply forallb_same_shape; [eassumption | now apply nth_In].
      - now rewrite nth_overflow. }
    rewrite Hs. eapply valid_remove_at; [|eassumption]. lia.
  - change (fun b => shape_eqb (shape (tmap g b)) (shape a))
      with (fun b : tensor C => shape_eqb (shape b) (shape a)) in Hall.
    now rewrite Hall.
Qed.

Lemma index_last_tmap (g : C -> C) (a : tensor C) (k : Z) :
  index_last (tmap g a) k = (r <- index_last a k ;; Ok (tmap g r)).
Proof.
  unfold index_last. rewrite shape_tmap.
  destruct (rev (shape a)) as [|d r] eqn:E; [reflexivity|].
  destruct d as [|d]; [reflexivity|].
  cbn [bind]. f_equal. rewrite tmap_init. apply init_ext. intros idx Hv.
  apply get_tmap.
  assert (Hs : shape a = rev r ++ [S d]).
  { rewrite <- (rev_involutive (shape a)), E. reflexivity. }
  rewrite Hs in Hv |- *. rewrite removelast_last in Hv.
  apply valid_app; [assumption|].
  constructor; [apply clamp_index_lt; lia | constructor].
Qed.

Lemma tmap_zeros (g : C -> C) (s : list nat) : g c0 = c0 -> tmap g (zeros s) = zeros s.
Proof.
  intros H0. unfold zeros. rewrite tmap_init. apply init_ext. now intros.
Qed.

End ElementwiseFacts.

(** ** Sums of time arrays of two classes *)

Section MixedSums.

Context {C : Type} {SC : Scalar C}.

Lemma add_other_class_NotImplemented (A B : @TimeArray C) :
  same_class A B = false ->
  is_ConstantTimeArray A = false -> is_ConstantTimeArray B = false ->
  TimeArray__add__ A (OTimeArray B) = Ok NotImplemented.
Proof. destruct A, B; cbn; intros; try discriminate; reflexivity. Qed.

Lemma same_class_sym (A B : @TimeArray C) : same_class A B = same_class B A.
Proof. now destruct A, B. Qed.

(** X1.  [A + B] for time arrays of two different classes, neither of them a
    [ConstantTimeArray]: [A.__add__(B)] is [NotImplemented], so the
    interpreter calls [B.__radd__(A)], which evaluates [B + A], where
    [B.__add__(A)] is [NotImplemented] again and [A.__radd__(B)] evaluates
    [A + B] anew.  Whatever the number of nested evaluations allowed, the
    sum ends in [RecursionError]; it never returns a time array and never
    raises the [TypeError] of an unsupported operand. *)
Theorem mixed_class_add_never_returns (A B : @TimeArray C) (depth : nat) :
  same_class A B = false ->
  is_ConstantTimeArray A = false -> is_ConstantTimeArray B = false ->
  py_add depth (OTimeArray A) (OTimeArray B) = Raise RecursionError.
Proof.
  revert A B. induction depth as [|d IH]; intros A B Hc HA HB; [reflexivity|].
  cbn [py_add]. rewrite add_other_class_NotImplemented by assumption.
  cbn [bind]. rewrite Hc. apply IH; [now rewrite same_class_sym | |]; assumption.
Qed.

End MixedSums.

Lemma mixed_class_add_never_returns_witness :
  py_add 1000 (OTimeArray ex_pwc) (OTimeArray ex_callable) = Raise RecursionError
  /\ py_add 1000 (OTimeArray ex_callable) (OTimeArray ex_pwc) = Raise RecursionError.
Proof.
  split.
  - apply (mixed_class_add_never_returns ex_pwc ex_callable 1000); reflexivity.
  - apply (mixed_class_add_never_returns ex_callable ex_pwc 1000); reflexivity.
Defined.

(** ** [CallableTimeArray]: evaluation after an operation *)

Section CallableFacts.

Context {C : Type} {SC : Scalar C}.

Lemma reshape_same (a : tensor C) : reshape a (shape a) = Ok a.
Proof. destruct a as [s d]. unfold reshape. cbn [shape]. now rewrite Nat.eqb_refl. Qed.

Lemma reshape_to (a : tensor C) (s : list nat) : shape a = s -> reshape a s = Ok a.
Proof. intros <-. apply reshape_same. Qed.

Lemma broadcast2_shape (op : C -> C -> C) (a b r : tensor C) :
  broadcast2 op a b = Ok r -> broadcast_shapes (shape a) (shape b) = Some (shape r).
Proof.
  unfold broadcast2.
  destruct (broadcast_shapes (shape a) (shape b)) as [s|]; [|discriminate].
  now intros [= <-].
Qed.

Lemma broadcast2_same_shapes (op : C -> C -> C) (a a' b b' r : tensor C) :
  shape a' = shape a -> shape b' = shape b ->
  broadcast2 op a b = Ok r ->
  exists r', broadcast2 op a' b' = Ok r' /\ shape r' = shape r.
Proof.
  intros Ha Hb H. pose proof (broadcast2_shape _ _ _ _ H) as Hs.
  unfold broadcast2. rewrite Ha, Hb, Hs. eexists. split; reflexivity.
Qed.

Lemma reshape_reshape (v : tensor C) (s1 s2 : list nat) :
  size_of s2 = size_of s1 ->
  (v' <- reshape v s1 ;; reshape v' s2) = reshape v s2.
Proof.
  intros Hs. unfold reshape at 1 3.
  rewrite Hs.
  destruct (Nat.eqb_spec (size_of s1) (size_of (shape v))) as [E|E];
    [|reflexivity].
  cbn [bind]. unfold reshape. cbn [shape data]. now rewrite Hs, Nat.eqb_refl.
Qed.

(** X2.  Negation and conjugation of a [CallableTimeArray] commute with its
    evaluation, whatever reshapes it went through: both operations return,
    leave the shape as it is, and at every time [(-A)(t)] is [-(A(t))] and
    [A.conj()(t)] is [A(t).conj()] (raising when [A(t)] raises). *)
Theorem callable_neg_conj_call (f : time -> result (tensor C)) (f0 : tensor C) :
  let A := CallableTimeArray f f0 in
  exists R R',
    py_neg (OTimeArray A) = Ok (OTimeArray R) /\
    TimeArray_conj A = Ok R' /\
    TimeArray_shape R = TimeArray_shape A /\
    TimeArray_shape R' = TimeArray_shape A /\
    (forall t, TimeArray__call__ R t
               = (v <- TimeArray__call__ A t ;; Ok (tneg v))) /\
    (forall t, TimeArray__call__ R' t
               = (v <- TimeArray__call__ A t ;; Ok (tconj v))).
Proof.
  intros A. exists (CallableTimeArray__neg__ f f0), (CallableTimeArray_conj f f0).
  repeat split.
  - intros t. cbn. unfold CallableTimeArray__call__, CallableTimeArray_shape.
    destruct (f t) as [v|e]; cbn [bind]; [|reflexivity].
    unfold tneg. rewrite shape_tmap. apply reshape_tmap.
  - intros t. cbn. unfold CallableTimeArray__call__, CallableTimeArray_shape.
    destruct (f t) as [v|e]; cbn [bind]; [|reflexivity].
    unfold tconj. rewrite shape_tmap. apply reshape_tmap.
Qed.

(** X3.  [A.reshape] with the dimensions [args], on a [CallableTimeArray]
    whose stored array has as many entries as the shape [args]: the result
    has shape [args] and its evaluation is the evaluation of [A] reshaped.
    With another number of entries the reshape raises. *)
Theorem callable_reshape_call (f : time -> result (tensor C)) (f0 : tensor C)
        (args : list nat) :
  let A := CallableTimeArray f f0 in
  (size_of args = size_of (shape f0) ->
   exists R,
     TimeArray_reshape A args = Ok R /\
     TimeArray_shape R = Ok (shape_tuple args) /\
     forall t, TimeArray__call__ R t
               = (v <- TimeArray__call__ A t ;; reshape v args))
  /\ (size_of args <> size_of (shape f0) ->
      TimeArray_reshape A args = Raise (ArrayError BadReshape)).
Proof.
  intros A. split.
  - intros Hs. exists (CallableTimeArray f (mkTensor args (data f0))).
    cbn. unfold CallableTimeArray_reshape. rewrite reshape_Ok by assumption.
    repeat split. intros t.
    unfold CallableTimeArray__call__, CallableTimeArray_shape. cbn [shape].
    destruct (f t) as [v|e]; cbn [bind]; [|reflexivity].
    symmetry. now apply reshape_reshape.
  - intros Hs. cbn. unfold CallableTimeArray_reshape, reshape.
    apply Nat.eqb_neq in Hs. now rewrite Hs.
Qed.

(** X4.  A [CallableTimeArray] whose function returns, at time [t], an array [v]
    of the stored shape (as it does as long as the time array has not been
    reshaped): [A(t)] is [v], and the product with an array [y] and the
    sums with an array [y], with a constant time array and with another
    such callable time array evaluate at [t] to [v * y], [v + y] and
    [v + w], [w] being the value of the other array. *)
Theorem callable_arith_call (f : time -> result (tensor C)) (f0 y : tensor C)
        (t : time) (v : tensor C) :
  f t = Ok v -> shape v = shape f0 ->
  let A := CallableTimeArray f f0 in
  TimeArray__call__ A t = Ok v /\
  (forall R, TimeArray__mul__ A y = Ok R -> TimeArray__call__ R t = tmul v y) /\
  (forall R, py_add 1 (OTimeArray A) (OArray y) = Ok (OTimeArray R) ->
             TimeArray__call__ R t = tadd v y) /\
  (forall R, py_add 1 (OTimeArray A) (OTimeArray (ConstantTimeArray y))
             = Ok (OTimeArray R) ->
             TimeArray__call__ R t = tadd v y) /\
  (forall g g0 w R,
      g t = Ok w -> shape w = shape g0 ->
      py_add 1 (OTimeArray A) (OTimeArray (CallableTimeArray g g0))
      = Ok (OTimeArray R) ->
      TimeArray__call__ R t = tadd v w).
Proof.
  intros Hv Hs A.
  assert (Hop : forall (op : C -> C -> C) (b b0 f0' : tensor C),
             shape b = shape b0 ->
             broadcast2 op f0 b0 = Ok f0' ->
             (r <- broadcast2 op v b ;; reshape r (shape f0')) = broadcast2 op v b).
  { intros op b b0 f0' Hb H0.
    destruct (broadcast2_same_shapes op f0 v b0 b f0' Hs Hb H0) as (r & Hr & Hsr).
    rewrite Hr. cbn [bind]. now apply reshape_to. }
  split; [|repeat split].
  - cbn. unfold CallableTimeArray__call__, CallableTimeArray_shape.
    rewrite Hv. cbn [bind]. now apply reshape_to.
  - intros R. cbn. unfold CallableTimeArray__mul__.
    destruct (tmul f0 y) as [f0'|e] eqn:E0; cbn [bind]; [|discriminate].
    intros [= <-]. cbn. unfold CallableTimeArray__call__, CallableTimeArray_shape.
    rewrite Hv. cbn [bind]. now apply (Hop cmul y y f0').
  - intros R. cbn.
    destruct (tadd f0 y) as [f0'|e] eqn:E0; cbn [bind]; [|discriminate].
    intros [= <-]. cbn. unfold CallableTimeArray__call__, CallableTimeArray_shape.
    rewrite Hv. cbn [bind]. now apply (Hop cadd y y f0').
  - intros R. cbn.
    destruct (tadd f0 y) as [f0'|e] eqn:E0; cbn [bind]; [|discriminate].
    intros [= <-]. cbn. unfold CallableTimeArray__call__, CallableTimeArray_shape.
    rewrite Hv. cbn [bind]. now apply (Hop cadd y y f0').
  - intros g g0 w R Hw Hsw. cbn.
    destruct (tadd f0 g0) as [f0'|e] eqn:E0; cbn [bind]; [|discriminate].
    intros [= <-]. cbn. unfold CallableTimeArray__call__, CallableTimeArray_shape.
    rewrite Hv, Hw. cbn [bind]. now apply (Hop cadd w g0 f0').
Qed.

(** X5.  Under the same condition, [A.mT] is a callable time array whose value
    at [t] is [v.mT]; it is refused when the stored array has fewer than
    two dimensions. *)
Theorem callable_mT_call (f : time -> result (tensor C)) (f0 : tensor C)
        (t : time) (v : tensor C) :
  f t = Ok v -> shape v = shape f0 ->
  let A := CallableTimeArray f f0 in
  (2 <= ndim f0 ->
   exists R, TimeArray_mT A = Ok (Some R) /\ TimeArray__call__ R t = mT v) /\
  (ndim f0 < 2 -> TimeArray_mT A = Raise (ArrayError TooFewDimensions)).
Proof.
  intros Hv Hs A. unfold ndim. split.
  - intros Hn.
    assert (Hsp : exists b n m, shape f0 = b ++ [n; m]).
    { destruct (rev (shape f0)) as [|m [|n rb]] eqn:E.
      - apply (f_equal (@length nat)) in E. rewrite length_rev in E. simpl in E. lia.
      - apply (f_equal (@length nat)) in E. rewrite length_rev in E. simpl in E. lia.
      - exists (rev rb), n, m. rewrite <- (rev_involutive (shape f0)), E.
        simpl. now rewrite <- app_assoc. }
    destruct Hsp as (b & n & m & Hf0).
    cbn. unfold CallableTimeArray_mT, mT. rewrite Hf0, split_matrix_app.
    cbn [bind]. eexists. split; [reflexivity|].
    cbn. unfold CallableTimeArray__call__, CallableTimeArray_shape.
    rewrite Hv. cbn [bind]. unfold mT. rewrite Hs, Hf0, split_matrix_app.
    cbn [bind]. rewrite shape_init. now apply reshape_to.
  - intros Hn. cbn. unfold CallableTimeArray_mT, mT, split_matrix.
    destruct (rev (shape f0)) as [|m [|n rb]] eqn:E; [reflexivity | reflexivity |].
    apply (f_equal (@length nat)) in E. rewrite length_rev in E. simpl in E. lia.
Qed.

End CallableFacts.

(** ** Composite time arrays: negation, conjugation and subtraction *)

Section CompositeOperations.

Context {C : Type} {SC : Scalar C}.

(** The constructor that accepted factors and base matrices accepts any
    factors with the same times and any base matrices of the same shape,
    with any static part. *)
Lemma new_variant (cls : factor_class) (fs fs' : list _Factor) (arr arr' : tensor C)
      (st0 : option (tensor C)) (A : TimeArray) (s' : tensor C) :
  new cls fs arr st0 = Ok A ->
  shape arr' = shape arr ->
  (cls = PWC -> mapM _Factor_times fs' = mapM _Factor_times fs) ->
  exists self R self',
    composite A = Some (cls, self) /\
    new cls fs' arr' (Some s') = Ok R /\
    composite R = Some (cls, self') /\
    factors self' = fs' /\ arrays self' = arr' /\ static self' = s' /\
    n self' = n self /\ merged_times R = merged_times A.
Proof.
  unfold new, PWCTimeArray__init__, ModulatedTimeArray__init__,
    FactorTimeArray__init__.
  intros Hnew Hsh Hts. rewrite Hsh.
  destruct (rev (shape arr)) as [|m r]; [destruct cls; discriminate|].
  destruct cls.
  - rewrite (Hts eq_refl).
    destruct (match st0 with
              | Some s => Ok s
              | None => a0 <- index_first arr ;; Ok (zeros_like a0)
              end) as [st|e]; cbn [bind] in *; [|discriminate].
    destruct (mapM _Factor_times fs) as [ts|e]; cbn [bind] in *; [|discriminate].
    destruct (concat_times ts) as [all|e]; cbn [bind] in *; [|discriminate].
    injection Hnew as <-. eexists _, _, _. cbn. repeat split; reflexivity.
  - destruct (match st0 with
              | Some s => Ok s
              | None => a0 <- index_first arr ;; Ok (zeros_like a0)
              end) as [st|e]; cbn [bind] in *; [|discriminate].
    injection Hnew as <-. eexists _, _, _. cbn. repeat split; reflexivity.
Qed.

Lemma composite_neg (A : TimeArray) (cls : factor_class) (self : @FactorTimeArray C) :
  composite A = Some (cls, self) ->
  TimeArray__neg__ A = FactorTimeArray__neg__ cls self.
Proof. destruct A; cbn; intros H; try discriminate; now injection H as <- <-. Qed.

Lemma composite_conj (A : TimeArray) (cls : factor_class) (self : @FactorTimeArray C) :
  composite A = Some (cls, self) ->
  TimeArray_conj A = FactorTimeArray_conj cls self.
Proof. destruct A; cbn; intros H; try discriminate; now injection H as <- <-. Qed.

Lemma composite_mul (A : TimeArray) (cls : factor_class) (self : @FactorTimeArray C)
      (y : tensor C) :
  composite A = Some (cls, self) ->
  TimeArray__mul__ A y = FactorTimeArray__mul__ cls self y.
Proof. destruct A; cbn; intros H; try discriminate; now injection H as <- <-. Qed.

Lemma composite_reshape (A : TimeArray) (cls : factor_class)
      (self : @FactorTimeArray C) (args : list nat) :
  composite A = Some (cls, self) ->
  TimeArray_reshape A args = FactorTimeArray_reshape cls self args.
Proof. destruct A; cbn; intros H; try discriminate; now injection H as <- <-. Qed.

Context {L : ScalarLaws C} {LR : ScalarRingLaws C}.

Lemma cneg_cadd_cneg (x y : C) : cadd (cneg x) (cneg y) = cneg (cadd x y).
Proof. symmetry. apply cneg_add. Qed.

Lemma cconj_cadd_cconj (x y : C) : cadd (cconj x) (cconj y) = cconj (cadd x y).
Proof. symmetry. apply cconj_add. Qed.

Lemma cconj_cmul_cconj (x y : C) : cmul (cconj x) (cconj y) = cconj (cmul x y).
Proof. symmetry. apply cconj_mul. Qed.

(** Negated base matrices and static part negate every call. *)
Lemma FactorTimeArray_call_neg (self self' : FactorTimeArray) (t : time) :
  factors self' = factors self ->
  arrays self' = tneg (arrays self) ->
  static self' = tneg (static self) ->
  FactorTimeArray__call__ self' t
  = (v <- FactorTimeArray__call__ self t ;; Ok (tneg v)).
Proof.
  intros Hf Ha Hs. unfold FactorTimeArray__call__. rewrite Hf, Ha, Hs.
  destruct (mapM (fun x => _Factor__call__ x t) (factors self)) as [xs|e];
    cbn [bind]; [|reflexivity].
  destruct (stack xs (-1)) as [values|e]; cbn [bind]; [|reflexivity].
  destruct (reshape values (shape values ++ [1; 1])) as [values'|e];
    cbn [bind]; [|reflexivity].
  unfold tmul, tneg. rewrite broadcast2_tmap_r by apply cmul_neg_r.
  destruct (broadcast2 cmul values' (arrays self)) as [p|e]; cbn [bind];
    [|reflexivity].
  rewrite sum_axis_tmap by (apply cneg_0 || apply cneg_add).
  destruct (sum_axis p (-3)) as [s|e]; cbn [bind]; [|reflexivity].
  unfold tadd. rewrite broadcast2_tmap by apply cneg_cadd_cneg.
  reflexivity.
Qed.

(** The factor part over the negated base matrices is the negated factor
    part. *)
Lemma factor_part_neg (self self' : FactorTimeArray) (t : time) :
  factors self' = factors self ->
  arrays self' = tneg (arrays self) ->
  factor_part self' t = (s <- factor_part self t ;; Ok (tneg s)).
Proof.
  intros Hf Ha. unfold factor_part. rewrite Hf, Ha.
  destruct (mapM (fun x => _Factor__call__ x t) (factors self)) as [xs|e];
    cbn [bind]; [|reflexivity].
  destruct (stack xs (-1)) as [values|e]; cbn [bind]; [|reflexivity].
  destruct (reshape values (shape values ++ [1; 1])) as [values'|e];
    cbn [bind]; [|reflexivity].
  unfold tmul, tneg. rewrite broadcast2_tmap_r by apply cmul_neg_r.
  destruct (broadcast2 cmul values' (arrays self)) as [p|e]; cbn [bind];
    [|reflexivity].
  rewrite sum_axis_tmap by (apply cneg_0 || apply cneg_add).
  destruct (sum_axis p (-3)) as [s|e]; reflexivity.
Qed.

(** The conjugate of a factor evaluates to the conjugate. *)
Lemma _Factor_conj_call (x x' : _Factor) (t : time) :
  _Factor_conj x = Ok x' ->
  _Factor__call__ x' t = (v <- _Factor__call__ x t ;; Ok (tconj v)).
Proof.
  destruct x as [times values nv|f f0]; cbn [_Factor_conj].
  - unfold _PWCFactor. change (shape (tconj values)) with (shape values).
    destruct (rev (shape values)) as [|nv' r]; [discriminate|].
    intros [= <-]. cbn [_Factor__call__]. unfold _PWCFactor__call__.
    assert (Hz : (v <- index_last (tconj values) 0 ;; Ok (zeros_like v))
                 = (r0 <- (v <- index_last values 0 ;; Ok (zeros_like v)) ;;
                    Ok (tconj r0))).
    { unfold tconj. rewrite index_last_tmap.
      destruct (index_last values 0) as [v|e]; cbn [bind]; [|reflexivity].
      unfold zeros_like. rewrite shape_tmap.
      now rewrite tmap_zeros by apply cconj_0. }
    destruct (first_time times) as [t0|e]; cbn [bind]; [|reflexivity].
    destruct (time_ltb t t0); [exact Hz|].
    destruct (last_time times) as [tl|e]; cbn [bind]; [|reflexivity].
    destruct (time_geb t tl); [exact Hz|].
    unfold tconj. apply index_last_tmap.
  - intros [= <-]. cbn. unfold _ModulatedFactor__call__.
    destruct (f t) as [v|e]; cbn [bind]; [|reflexivity].
    unfold tconj. rewrite shape_tmap. apply reshape_tmap.
Qed.

Lemma _Factor_conj_times (x x' : _Factor) :
  _Factor_conj x = Ok x' -> _Factor_times x' = _Factor_times x.
Proof.
  destruct x as [times values nv|f f0]; cbn [_Factor_conj].
  - unfold _PWCFactor. destruct (rev (shape (tconj values))); [discriminate|].
    now intros [= <-].
  - now intros [= <-].
Qed.

Lemma mapM_conj_call (fs fs' : list _Factor) (t : time) :
  mapM _Factor_conj fs = Ok fs' ->
  mapM (fun x => _Factor__call__ x t) fs'
  = (vs <- mapM (fun x => _Factor__call__ x t) fs ;; Ok (map tconj vs)).
Proof.
  revert fs'. induction fs as [|x fs IH]; intros fs'; cbn [mapM].
  - now intros [= <-].
  - destruct (_Factor_conj x) as [x'|e] eqn:Ex; cbn [bind]; [|discriminate].
    destruct (mapM _Factor_conj fs) as [fs1|e]; cbn [bind]; [|discriminate].
    intros [= <-]. cbn [mapM].
    rewrite (_Factor_conj_call x x' t Ex), (IH fs1 eq_refl).
    destruct (_Factor__call__ x t) as [v|e]; cbn [bind]; [|reflexivity].
    destruct (mapM (fun x0 => _Factor__call__ x0 t) fs) as [vs|e]; reflexivity.
Qed.

Lemma mapM_conj_times (fs fs' : list _Factor) :
  mapM _Factor_conj fs = Ok fs' ->
  mapM _Factor_times fs' = mapM _Factor_times fs.
Proof.
  revert fs'. induction fs as [|x fs IH]; intros fs'; cbn [mapM].
  - now intros [= <-].
  - destruct (_Factor_conj x) as [x'|e] eqn:Ex; cbn [bind]; [|discriminate].
    destruct (mapM _Factor_conj fs) as [fs1|e]; cbn [bind]; [|discriminate].
    intros [= <-]. cbn [mapM].
    now rewrite (_Factor_conj_times x x' Ex), (IH fs1 eq_refl).
Qed.

(** Conjugated factors, base matrices and static part conjugate every
    call. *)
Lemma FactorTimeArray_call_conj (self self' : FactorTimeArray) (t : time) :
  mapM _Factor_conj (factors self) = Ok (factors self') ->
  arrays self' = tconj (arrays self) ->
  static self' = tconj (static self) ->
  FactorTimeArray__call__ self' t
  = (v <- FactorTimeArray__call__ self t ;; Ok (tconj v)).
Proof.
  intros Hf Ha Hs. unfold FactorTimeArray__call__.
  rewrite (mapM_conj_call _ _ t Hf), Ha, Hs.
  destruct (mapM (fun x => _Factor__call__ x t) (factors self)) as [xs|e];
    cbn [bind]; [|reflexivity].
  unfold tconj. rewrite stack_tmap.
  destruct (stack xs (-1)) as [values|e]; cbn [bind]; [|reflexivity].
  rewrite shape_tmap, reshape_tmap.
  destruct (reshape values (shape values ++ [1; 1])) as [values'|e];
    cbn [bind]; [|reflexivity].
  unfold tmul. rewrite broadcast2_tmap by apply cconj_cmul_cconj.
  destruct (broadcast2 cmul values' (arrays self)) as [p|e]; cbn [bind];
    [|reflexivity].
  rewrite sum_axis_tmap by (apply cconj_0 || apply cconj_add).
  destruct (sum_axis p (-3)) as [s|e]; cbn [bind]; [|reflexivity].
  unfold tadd. rewrite broadcast2_tmap by apply cconj_cadd_cconj.
  reflexivity.
Qed.

Lemma tadd_tneg_r (a y : tensor C) : tadd a (tneg y) = tsub a y.
Proof.
  unfold tadd, tsub, broadcast2, tneg. rewrite shape_tmap.
  destruct (broadcast_shapes (shape a) (shape y)) as [s|] eqn:E; [|reflexivity].
  f_equal. apply init_ext. intros idx Hv.
  apply broadcast_shapes_sub in E. destruct E as [_ Hy].
  rewrite get_tmap by (eapply bidx_sub_valid; eassumption).
  symmetry. apply csub_def.
Qed.

Lemma tadd_tneg_l (a y : tensor C) : tadd (tneg a) y = tsub y a.
Proof.
  unfold tadd, tsub, broadcast2, tneg. rewrite shape_tmap.
  rewrite (broadcast_shapes_comm (shape y) (shape a)).
  destruct (broadcast_shapes (shape a) (shape y)) as [s|] eqn:E; [|reflexivity].
  f_equal. apply init_ext. intros idx Hv.
  apply broadcast_shapes_sub in E. destruct E as [Ha _].
  rewrite get_tmap by (eapply bidx_sub_valid; eassumption).
  rewrite csub_def. apply cadd_comm.
Qed.

(** X6.  The negation of a constructed composite time array [A] (PWC or
    Modulated) is a composite of the same class, with the same factors and
    times, the negated base matrices and the negated static part, and at
    every time [(-A)(t)] is [-(A(t))] (raising when [A(t)] raises). *)
Theorem composite_neg_call
        (cls : factor_class) (fs : list _Factor) (arr : tensor C)
        (st0 : option (tensor C)) (A : TimeArray) (self : FactorTimeArray) :
  new cls fs arr st0 = Ok A ->
  composite A = Some (cls, self) ->
  exists R self',
    py_neg (OTimeArray A) = Ok (OTimeArray R) /\
    composite R = Some (cls, self') /\
    factors self' = factors self /\
    arrays self' = tneg (arrays self) /\
    static self' = tneg (static self) /\
    merged_times R = merged_times A /\
    forall t, TimeArray__call__ R t
              = (v <- TimeArray__call__ A t ;; Ok (tneg v)).
Proof.
  intros Hnew HA.
  destruct (new_variant cls fs fs arr (tneg arr) st0 A (tneg (static self))
              Hnew eq_refl (fun _ => eq_refl))
    as (self0 & R & self' & HA0 & HR & HcR & Hf' & Ha' & Hs' & _ & Ht).
  rewrite HA in HA0. injection HA0 as <-.
  destruct (new_static cls fs arr st0 A (static self) Hnew)
    as (self1 & _ & _ & HA1 & Hf & Ha & _).
  rewrite HA in HA1. injection HA1 as <-.
  exists R, self'. repeat split.
  - cbn [py_neg]. rewrite (composite_neg _ _ _ HA).
    unfold FactorTimeArray__neg__. now rewrite Hf, Ha, HR.
  - assumption.
  - congruence.
  - congruence.
  - assumption.
  - assumption.
  - intros t. rewrite (composite_call _ _ _ t HA), (composite_call _ _ _ t HcR).
    apply FactorTimeArray_call_neg; congruence.
Qed.

(** X7.  The conjugate of a constructed composite time array [A] whose factors
    can be conjugated is a composite of the same class, with the
    conjugated base matrices and static part and the same times, and at
    every time [A.conj()(t)] is [A(t).conj()] (raising when [A(t)]
    raises). *)
Theorem composite_conj_call
        (cls : factor_class) (fs fs' : list _Factor) (arr : tensor C)
        (st0 : option (tensor C)) (A : TimeArray) (self : FactorTimeArray) :
  new cls fs arr st0 = Ok A ->
  composite A = Some (cls, self) ->
  mapM _Factor_conj fs = Ok fs' ->
  exists R self',
    TimeArray_conj A = Ok R /\
    composite R = Some (cls, self') /\
    factors self' = fs' /\
    arrays self' = tconj (arrays self) /\
    static self' = tconj (static self) /\
    merged_times R = merged_times A /\
    forall t, TimeArray__call__ R t
              = (v <- TimeArray__call__ A t ;; Ok (tconj v)).
Proof.
  intros Hnew HA Hfs.
  destruct (new_variant cls fs fs' arr (tconj arr) st0 A (tconj (static self))
              Hnew eq_refl (fun _ => mapM_conj_times _ _ Hfs))
    as (self0 & R & self' & HA0 & HR & HcR & Hf' & Ha' & Hs' & _ & Ht).
  rewrite HA in HA0. injection HA0 as <-.
  destruct (new_static cls fs arr st0 A (static self) Hnew)
    as (self1 & _ & _ & HA1 & Hf & Ha & _).
  rewrite HA in HA1. injection HA1 as <-.
  exists R, self'. repeat split.
  - rewrite (composite_conj _ _ _ HA).
    unfold FactorTimeArray_conj. rewrite Hf, Hfs. cbn [bind].
    now rewrite Ha, HR.
  - assumption.
  - assumption.
  - congruence.
  - assumption.
  - assumption.
  - intros t. rewrite (composite_call _ _ _ t HA), (composite_call _ _ _ t HcR).
    apply FactorTimeArray_call_conj; congruence.
Qed.

(** X8.  [A - y] for a constructed composite time array [A] and an array [y]
    that can be subtracted from its static part: [TimeArray.__sub__]
    evaluates [A + (-y)], a composite of the same class with the same
    factors and base matrices and the static part [static - y]; at every
    time [A(t)] is the factor part plus the static part, and [(A - y)(t)]
    is the same factor part plus [static - y]. *)
Theorem composite_sub_array_call
        (cls : factor_class) (fs : list _Factor) (arr : tensor C)
        (st0 : option (tensor C)) (A : TimeArray) (self : FactorTimeArray)
        (y sy : tensor C) :
  new cls fs arr st0 = Ok A ->
  composite A = Some (cls, self) ->
  tsub (static self) y = Ok sy ->
  exists R self',
    py_sub 1 (OTimeArray A) (OArray y) = Ok (OTimeArray R) /\
    composite R = Some (cls, self') /\
    factors self' = factors self /\
    arrays self' = arrays self /\
    static self' = sy /\
    merged_times R = merged_times A /\
    forall t,
      TimeArray__call__ A t
      = (s <- factor_part self t ;; tadd s (static self)) /\
      TimeArray__call__ R t
      = (s <- factor_part self t ;; tadd s sy).
Proof.
  intros Hnew HA Hsy. rewrite <- tadd_tneg_r in Hsy.
  destruct (new_static cls fs arr st0 A sy Hnew)
    as (self0 & R & self' & HA0 & Hf & Ha & HR & HcR & Hf' & Ha' & Hs' & Hn & Ht).
  rewrite HA in HA0. injection HA0 as <-.
  exists R, self'. repeat split.
  - cbn [py_sub]. unfold TimeArray__sub__. cbn [py_neg bind py_add].
    rewrite (composite_add _ _ _ _ HA). unfold FactorTimeArray__add__.
    rewrite Hsy. cbn [bind]. now rewrite Hf, Ha, HR.
  - assumption.
  - congruence.
  - congruence.
  - assumption.
  - assumption.
  - rewrite (composite_call _ _ _ t HA). apply FactorTimeArray_call_parts.
  - rewrite (composite_call _ _ _ t HcR), <- Hs'.
    apply FactorTimeArray_call_static; congruence.
Qed.

(** X9.  [y - A] for an array [y] on the left of a constructed composite time
    array [A]: the array defers to [TimeArray.__rsub__], which evaluates
    [y + (-A)], and this sum is handed on to [(-A).__radd__(y)], that is
    [(-A) + y].  The result is a composite of the same class with the
    factors of [A], the negated base matrices and the static part
    [(-static) + y], which is [y - static]; at every time [A(t)] is the
    factor part plus the static part, and [(y - A)(t)] is the negated
    factor part plus [y - static]. *)
Theorem composite_rsub_array_call
        (cls : factor_class) (fs : list _Factor) (arr : tensor C)
        (st0 : option (tensor C)) (A : TimeArray) (self : FactorTimeArray)
        (y sy : tensor C) :
  new cls fs arr st0 = Ok A ->
  composite A = Some (cls, self) ->
  tsub y (static self) = Ok sy ->
  exists R self',
    py_sub 2 (OArray y) (OTimeArray A) = Ok (OTimeArray R) /\
    composite R = Some (cls, self') /\
    factors self' = factors self /\
    arrays self' = tneg (arrays self) /\
    static self' = sy /\
    merged_times R = merged_times A /\
    forall t,
      TimeArray__call__ A t
      = (s <- factor_part self t ;; tadd s (static self)) /\
      TimeArray__call__ R t
      = (s <- factor_part self t ;; tadd (tneg s) sy).
Proof.
  intros Hnew HA Hsy. rewrite <- tadd_tneg_l in Hsy.
  destruct (new_static cls fs arr st0 A (static self) Hnew)
    as (self1 & _ & _ & HA1 & Hf & Ha & _).
  rewrite HA in HA1. injection HA1 as <-.
  destruct (new_variant cls fs fs arr (tneg arr) st0 A (tneg (static self))
              Hnew eq_refl (fun _ => eq_refl))
    as (self0 & N & selfN & HA0 & HN & HcN & HfN & HaN & HsN & _ & HtN).
  rewrite HA in HA0. injection HA0 as <-.
  destruct (new_static cls fs (tneg arr) (Some (tneg (static self))) N sy HN)
    as (self2 & R & self' & HN2 & _ & _ & HR & HcR & Hf' & Ha' & Hs' & _ & Ht).
  rewrite HcN in HN2. injection HN2 as <-.
  assert (Hneg : TimeArray__neg__ A = Ok N).
  { rewrite (composite_neg _ _ _ HA). unfold FactorTimeArray__neg__.
    now rewrite Hf, Ha. }
  exists R, self'. repeat split.
  - cbn [py_sub]. unfold TimeArray__rsub__. cbn [py_neg]. rewrite Hneg.
    cbn [bind py_add]. rewrite (composite_add _ _ _ _ HcN).
    unfold FactorTimeArray__add__. rewrite HsN, Hsy. cbn [bind].
    now rewrite HfN, HaN, HR.
  - assumption.
  - congruence.
  - congruence.
  - assumption.
  - congruence.
  - rewrite (composite_call _ _ _ t HA). apply FactorTimeArray_call_parts.
  - rewrite (composite_call _ _ _ t HcR), FactorTimeArray_call_parts, Hs'.
    rewrite (factor_part_neg self self' t) by congruence.
    destruct (factor_part self t) as [s|e]; reflexivity.
Qed.

End CompositeOperations.

(** ** Composite time arrays: sums and products, entry by entry *)

Lemma seq_from (a len : nat) : seq a len = map (Nat.add a) (seq 0 len).
Proof.
  revert a. induction len as [|len IH]; intros a; simpl; [reflexivity|].
  f_equal; [lia|]. rewrite (IH (S a)), <- (seq_shift len 0), map_map.
  apply map_ext. intros j. lia.
Qed.

Section CompositeEntries.

Context {C : Type} {SC : Scalar C}.

(** The call of a composite whose factor values have one batch shape and
    whose static part is a matrix, entry by entry. *)
Lemma FactorTimeArray_call_entries (self : FactorTimeArray) (t : time)
      (vs : list (tensor C)) (bs : list nat) (m : nat) :
  mapM (fun x => _Factor__call__ x t) (factors self) = Ok vs ->
  vs <> [] ->
  Forall (fun v => shape v = bs) vs ->
  shape (arrays self) = [length vs; m; m] ->
  shape (static self) = [m; m] ->
  FactorTimeArray__call__ self t
  = Ok (init (bs ++ [m; m])
             (fun idx => cadd (get (weighted_sum bs m vs (arrays self)) idx)
                              (get (static self) (last_two idx)))).
Proof.
  intros Hmap Hne Hall Harr Hst.
  rewrite (FactorTimeArray_call_sum self t vs bs m) by assumption.
  assert (Hbs : broadcast_shapes (shape (weighted_sum bs m vs (arrays self)))
                                 (shape (static self)) = Some (bs ++ [m; m])).
  { unfold weighted_sum. rewrite shape_init, Hst. apply broadcast_shapes_batch. }
  unfold tadd. rewrite (broadcast2_Ok _ _ _ _ Hbs).
  f_equal. apply init_ext. intros idx Hv.
  change (shape (weighted_sum bs m vs (arrays self))) with (bs ++ [m; m]).
  rewrite Hst, (bidx_valid_id _ _ Hv). f_equal.
  apply valid_app_inv in Hv. destruct Hv as (b & rc & -> & Hb & Hrc).
  rewrite bidx_tail by assumption.
  apply valid_two in Hrc. destruct Hrc as (r & c & -> & _ & _).
  now rewrite last_two_app.
Qed.

Lemma get_weighted_sum (bs : list nat) (m : nat) (vs : list (tensor C))
      (bases : tensor C) (b : list nat) (r c : nat) :
  valid bs b -> r < m -> c < m ->
  get (weighted_sum bs m vs bases) (b ++ [r; c])
  = csum (map (fun i => cmul (get (nth i vs (zeros [])) b) (get bases [i; r; c]))
              (seq 0 (length vs))).
Proof.
  intros Hb Hr Hc. unfold weighted_sum.
  rewrite get_matrix_entry by assumption.
  now rewrite but_last_two_app, last_two_app.
Qed.

Lemma composite_as_instance (B : TimeArray) (cls : factor_class)
      (self : @FactorTimeArray C) :
  composite B = Some (cls, self) ->
  as_instance cls B = Some self /\ is_ConstantTimeArray B = false.
Proof. destruct B; cbn; intros H; try discriminate; now injection H as <- <-. Qed.

Lemma composite_add_same_class (A B : TimeArray) (cls : factor_class)
      (selfA selfB : @FactorTimeArray C) :
  composite A = Some (cls, selfA) -> composite B = Some (cls, selfB) ->
  TimeArray__add__ A (OTimeArray B)
  = (a <- concatenate (arrays selfA) (arrays selfB) ;;
     s <- tadd (static selfA) (static selfB) ;;
     r <- new cls (factors selfA ++ factors selfB) a (Some s) ;; Ok (Return r)).
Proof.
  destruct A; cbn; intros HA; try discriminate; injection HA as <- <-;
    destruct B; cbn; intros HB; try discriminate; injection HB as <-;
    reflexivity.
Qed.

(** Two constructed composites of one class can be joined. *)
Lemma new_app (cls : factor_class) (fsA fsB : list _Factor) (arrA arrB arr : tensor C)
      (stA stB : option (tensor C)) (A B : TimeArray) (s : tensor C) :
  new cls fsA arrA stA = Ok A -> new cls fsB arrB stB = Ok B ->
  rev (shape arr) <> [] ->
  exists R self',
    new cls (fsA ++ fsB) arr (Some s) = Ok R /\
    composite R = Some (cls, self') /\
    factors self' = fsA ++ fsB /\ arrays self' = arr /\ static self' = s /\
    merged_times R = unique (merged_times A ++ merged_times B).
Proof.
  intros HA HB Harr. destruct cls.
  - apply new_PWC_inv in HA, HB.
    destruct HA as (mA & rA & sA & tsA & _ & HtA & HneA & ->).
    destruct HB as (mB & rB & sB & tsB & _ & HtB & HneB & ->).
    unfold new, PWCTimeArray__init__, FactorTimeArray__init__.
    destruct (rev (shape arr)) as [|m r]; [congruence|]. cbn [bind].
    rewrite (mapM_app _ _ _ _ _ HtA HtB). cbn [bind].
    assert (Hc : concat_times (tsA ++ tsB) = Ok (concat (tsA ++ tsB))).
    { destruct tsA; [congruence | reflexivity]. }
    rewrite Hc. cbn [bind]. eexists _, _.
    repeat split. cbn [merged_times]. rewrite concat_app. apply unique_app.
  - unfold new, ModulatedTimeArray__init__, FactorTimeArray__init__ in *.
    destruct (rev (shape arr)) as [|m r]; [congruence|]. cbn [bind].
    destruct (rev (shape arrA)); [discriminate|].
    destruct (rev (shape arrB)); [discriminate|].
    destruct (match stA with
              | Some s0 => Ok s0
              | None => a0 <- index_first arrA ;; Ok (zeros_like a0)
              end); cbn [bind] in HA; [|discriminate].
    destruct (match stB with
              | Some s0 => Ok s0
              | None => a0 <- index_first arrB ;; Ok (zeros_like a0)
              end); cbn [bind] in HB; [|discriminate].
    injection HA as <-. injection HB as <-.
    eexists _, _. repeat split.
Qed.

(** The call of a composite as the weighted sum plus the static part,
    with its result. *)
Lemma FactorTimeArray_call_value (self : FactorTimeArray) (t : time)
      (vs : list (tensor C)) (bs : list nat) (m : nat) :
  mapM (fun x => _Factor__call__ x t) (factors self) = Ok vs ->
  vs <> [] ->
  Forall (fun v => shape v = bs) vs ->
  shape (arrays self) = [length vs; m; m] ->
  shape (static self) = [m; m] ->
  exists v,
    FactorTimeArray__call__ self t = Ok v /\
    tadd (weighted_sum bs m vs (arrays self)) (static self) = Ok v /\
    shape v = bs ++ [m; m].
Proof.
  intros Hmap Hne Hall Harr Hst.
  pose proof (FactorTimeArray_call_entries self t vs bs m
                Hmap Hne Hall Harr Hst) as Hcall.
  eexists. split; [exact Hcall|]. split; [|apply shape_init].
  rewrite <- Hcall. symmetry.
  now apply FactorTimeArray_call_sum.
Qed.

(** X10.  The sum of two constructed composite time arrays of one class (two PWC
    or two Modulated ones) whose factors all return, at time [t], values of
    one batch shape, with base matrices of dimension [m] and static parts
    of shape [(m, m)]: [A + B] is built and the three calls return.  The
    call of [A + B] is the weighted sum of the factor values of [A]
    followed by those of [B] over the concatenated base matrices, plus the
    sum of the two static parts; an entry of that weighted sum adds up,
    from left to right, the products of [A] and then those of [B]. *)
Theorem composite_sum_call
        (cls : factor_class) (fsA fsB : list _Factor) (arrA arrB : tensor C)
        (stA stB : option (tensor C)) (A B : TimeArray)
        (selfA selfB : FactorTimeArray) (t : time)
        (vsA vsB : list (tensor C)) (bs : list nat) (m : nat) :
  new cls fsA arrA stA = Ok A ->
  new cls fsB arrB stB = Ok B ->
  composite A = Some (cls, selfA) ->
  composite B = Some (cls, selfB) ->
  fsA <> [] -> fsB <> [] ->
  mapM (fun x => _Factor__call__ x t) fsA = Ok vsA ->
  mapM (fun x => _Factor__call__ x t) fsB = Ok vsB ->
  Forall (fun v => shape v = bs) vsA ->
  Forall (fun v => shape v = bs) vsB ->
  shape arrA = [length fsA; m; m] ->
  shape arrB = [length fsB; m; m] ->
  shape (static selfA) = [m; m] ->
  shape (static selfB) = [m; m] ->
  exists R arrR stR a b v,
    py_add 1 (OTimeArray A) (OTimeArray B) = Ok (OTimeArray R) /\
    concatenate arrA arrB = Ok arrR /\
    tadd (static selfA) (static selfB) = Ok stR /\
    TimeArray__call__ A t = Ok a /\
    tadd (weighted_sum bs m vsA arrA) (static selfA) = Ok a /\
    TimeArray__call__ B t = Ok b /\
    tadd (weighted_sum bs m vsB arrB) (static selfB) = Ok b /\
    TimeArray__call__ R t = Ok v /\
    tadd (weighted_sum bs m (vsA ++ vsB) arrR) stR = Ok v /\
    forall i r c, valid bs i -> r < m -> c < m ->
      get (weighted_sum bs m (vsA ++ vsB) arrR) (i ++ [r; c])
      = csum (map (fun k => cmul (get (nth k vsA (zeros [])) i)
                                 (get arrA [k; r; c]))
                  (seq 0 (length vsA))
              ++ map (fun k => cmul (get (nth k vsB (zeros [])) i)
                                    (get arrB [k; r; c]))
                     (seq 0 (length vsB))).
Proof.
  intros HnewA HnewB HA HB HneA HneB HmA HmB HallA HallB HarrA HarrB HstA HstB.
  destruct (new_static cls fsA arrA stA A (static selfA) HnewA)
    as (sA & _ & _ & HA1 & HfA & HaA & _).
  rewrite HA in HA1. injection HA1 as <-.
  destruct (new_static cls fsB arrB stB B (static selfB) HnewB)
    as (sB & _ & _ & HB1 & HfB & HaB & _).
  rewrite HB in HB1. injection HB1 as <-.
  pose proof (mapM_length _ _ _ HmA) as HlA.
  pose proof (mapM_length _ _ _ HmB) as HlB.
  assert (HvA : vsA <> []) by (intros ->; destruct fsA; [congruence | discriminate]).
  assert (HvB : vsB <> []) by (intros ->; destruct fsB; [congruence | discriminate]).
  (* the pieces of the sum *)
  set (arrR := init [length fsA + length fsB; m; m]
                 (fun idx => match idx with
                             | i :: r => if i <? length fsA then get arrA (i :: r)
                                         else get arrB ((i - length fsA) :: r)
                             | [] => c0
                             end)).
  assert (Hcat : concatenate arrA arrB = Ok arrR).
  { unfold concatenate. rewrite HarrA, HarrB, shape_eqb_refl. reflexivity. }
  set (stR := init [m; m]
                (fun idx => cadd (get (static selfA) (bidx [m; m] idx))
                                 (get (static selfB) (bidx [m; m] idx)))).
  assert (Hst : tadd (static selfA) (static selfB) = Ok stR).
  { unfold tadd. erewrite broadcast2_Ok
      by (rewrite HstA, HstB; apply broadcast_shapes_same).
    now rewrite HstA, HstB. }
  destruct (new_app cls fsA fsB arrA arrB arrR stA stB A B stR HnewA HnewB)
    as (R & selfR & HR & HcR & HfR & HaR & HsR & _); [discriminate|].
  (* the three calls *)
  rewrite <- HlA in HarrA. rewrite <- HlB in HarrB.
  pose proof (FactorTimeArray_call_value selfA t vsA bs m) as HcallA.
  rewrite HfA, HaA in HcallA.
  destruct (HcallA HmA HvA HallA HarrA HstA) as (a & HcA & HwA & _).
  pose proof (FactorTimeArray_call_value selfB t vsB bs m) as HcallB.
  rewrite HfB, HaB in HcallB.
  destruct (HcallB HmB HvB HallB HarrB HstB) as (b & HcB & HwB & _).
  pose proof (FactorTimeArray_call_value selfR t (vsA ++ vsB) bs m) as HcallR.
  rewrite HfR, HaR, HsR in HcallR.
  specialize (HcallR (mapM_app _ _ _ _ _ HmA HmB)).
  destruct (HcallR
              ltac:(intros E; apply app_eq_nil in E; tauto)
              ltac:(apply Forall_app; tauto)
              ltac:(now rewrite length_app, HlA, HlB)
              eq_refl) as (v & HcR' & HwR & _).
  clear HcallA HcallB HcallR.
  exists R, arrR, stR, a, b, v.
  split; [|split; [|split; [|split; [|split; [|split; [|split; [|split;
    [|split]]]]]]]]; try assumption.
  - cbn [py_add]. rewrite (composite_add_same_class _ _ _ _ _ HA HB).
    rewrite HfA, HfB, HaA, HaB, Hcat, Hst. cbn [bind]. now rewrite HR.
  - now rewrite (composite_call _ _ _ t HA).
  - now rewrite (composite_call _ _ _ t HB).
  - now rewrite (composite_call _ _ _ t HcR).
  - intros i r c Hi Hr Hc.
    rewrite get_weighted_sum by assumption.
    rewrite length_app, seq_app, map_app. cbn [Nat.add].
    f_equal. f_equal.
    + apply map_ext_in. intros k Hk. apply in_seq in Hk.
      rewrite app_nth1 by lia. f_equal. unfold arrR.
      rewrite get_init by (repeat constructor; lia).
      assert (Hlt : (k <? length fsA) = true) by (apply Nat.ltb_lt; lia).
      now rewrite Hlt.
    + rewrite (seq_from (length vsA)), map_map.
      apply map_ext_in. intros j Hj. apply in_seq in Hj.
      rewrite app_nth2_plus. f_equal. unfold arrR.
      rewrite get_init by (repeat constructor; lia).
      assert (Hge : (length vsA + j <? length fsA) = false)
        by (apply Nat.ltb_ge; lia).
      rewrite Hge. do 2 f_equal. lia.
Qed.

Context {L : ScalarLaws C}.

Lemma csum_one (x : C) : csum [x] = x.
Proof. unfold csum. simpl. apply cadd_0_l. Qed.

Lemma cmul_0_l (x : C) : cmul c0 x = c0.
Proof. rewrite cmul_comm. apply cmul_0_r. Qed.

End CompositeEntries.

Section CompositeProduct.

Context {C : Type} {SC : Scalar C}.

Lemma broadcast_shapes_nil_r (s : list nat) : broadcast_shapes s [] = Some s.
Proof.
  unfold broadcast_shapes. simpl rev at 2. rewrite broadcast_rev_nil_r.
  simpl. now rewrite rev_involutive.
Qed.

(** X11.  The product [A * y] of a constructed composite time array with a
    matrix [y] of its dimension, or with a scalar: the composite of the
    same class with the same factors and times whose base matrices and
    static part are multiplied by [y]; [y * A] is the same time array.
    Where the factors return values of one batch shape at [t], both calls
    return: [A(t)] is the weighted sum over the base matrices plus the
    static part, and [(A * y)(t)] is the weighted sum of the same factor
    values over the multiplied base matrices plus the multiplied static
    part. *)
Theorem composite_mul_call
        (cls : factor_class) (fs : list _Factor) (arr : tensor C)
        (st0 : option (tensor C)) (A : TimeArray) (self : FactorTimeArray)
        (y : tensor C) (t : time) (vs : list (tensor C)) (bs : list nat) (m : nat) :
  new cls fs arr st0 = Ok A ->
  composite A = Some (cls, self) ->
  fs <> [] ->
  mapM (fun x => _Factor__call__ x t) fs = Ok vs ->
  Forall (fun v => shape v = bs) vs ->
  shape arr = [length fs; m; m] ->
  shape (static self) = [m; m] ->
  shape y = [m; m] \/ shape y = [] ->
  exists R self' a v,
    TimeArray__mul__ A y = Ok R /\
    TimeArray__rmul__ A y = Ok R /\
    composite R = Some (cls, self') /\
    factors self' = fs /\
    tmul (arrays self) y = Ok (arrays self') /\
    tmul (static self) y = Ok (static self') /\
    merged_times R = merged_times A /\
    TimeArray__call__ A t = Ok a /\
    tadd (weighted_sum bs m vs (arrays self)) (static self) = Ok a /\
    TimeArray__call__ R t = Ok v /\
    tadd (weighted_sum bs m vs (arrays self')) (static self') = Ok v.
Proof.
  intros Hnew HA Hne Hmap Hall Harr Hst Hy.
  destruct (new_static cls fs arr st0 A (static self) Hnew)
    as (s1 & _ & _ & HA1 & Hf & Ha & _).
  rewrite HA in HA1. injection HA1 as <-.
  pose proof (mapM_length _ _ _ Hmap) as Hlen.
  assert (Hvs : vs <> []) by (intros ->; destruct fs; [congruence | discriminate]).
  assert (Hy1 : forall s, broadcast_shapes (s ++ [m; m]) (shape y) = Some (s ++ [m; m])).
  { intros s. destruct Hy as [-> | ->];
      [apply broadcast_shapes_batch | apply broadcast_shapes_nil_r]. }
  assert (Hy3 : broadcast_shapes [length fs; m; m] (shape y)
                = Some [length fs; m; m]) by exact (Hy1 [length fs]).
  assert (Hy4 : broadcast_shapes [m; m] (shape y) = Some [m; m])
    by exact (Hy1 []).
  destruct (tmul arr y) as [arr'|e] eqn:Ea.
  2:{ unfold tmul, broadcast2 in Ea. rewrite Harr, Hy3 in Ea. discriminate. }
  destruct (tmul (static self) y) as [st'|e] eqn:Es.
  2:{ unfold tmul, broadcast2 in Es. rewrite Hst, Hy4 in Es. discriminate. }
  assert (Hsa : shape arr' = shape arr).
  { apply broadcast2_shape in Ea. rewrite Harr, Hy3 in Ea.
    injection Ea as <-. now rewrite Harr. }
  assert (Hss : shape st' = [m; m]).
  { apply broadcast2_shape in Es. rewrite Hst, Hy4 in Es.
    now injection Es as <-. }
  destruct (new_variant cls fs fs arr arr' st0 A st' Hnew Hsa (fun _ => eq_refl))
    as (self0 & R & self' & HA0 & HR & HcR & Hf' & Ha' & Hs' & _ & Ht).
  rewrite HA in HA0. injection HA0 as <-.
  assert (Hmul : TimeArray__mul__ A y = Ok R).
  { rewrite (composite_mul _ _ _ _ HA). unfold FactorTimeArray__mul__.
    rewrite Ha, Ea, Es. cbn [bind]. now rewrite Hf, HR. }
  destruct (FactorTimeArray_call_value self t vs bs m) as (a & Hca & Hwa & _);
    try assumption; try congruence.
  destruct (FactorTimeArray_call_value self' t vs bs m) as (v & Hcv & Hwv & _);
    try assumption; try congruence.
  exists R, self', a, v.
  split; [|split; [|split; [|split; [|split; [|split; [|split; [|split;
    [|split; [|split]]]]]]]]]; try assumption; try congruence.
  - now rewrite (composite_call _ _ _ t HA).
  - now rewrite (composite_call _ _ _ t HcR).
Qed.

End CompositeProduct.

(** ** What the factories build *)

Lemma unique_sorted (l : list time) : StronglySorted Qclt l -> unique l = l.
Proof.
  intros Hs. apply sorted_ext; [apply sorted_unique | assumption |].
  intros z. apply In_unique.
Qed.

Lemma dtype_eqb_eq (a b : dtype) : dtype_eqb a b = true <-> a = b.
Proof. destruct a, b; cbn; split; intros H; congruence. Qed.

Section FactoryResults.

Context {C : Type} {SC : Scalar C}.

Lemma index_last_clamped (values : tensor C) (bs : list nat) (d : nat) (k : Z) :
  shape values = bs ++ [d] -> 0 < d ->
  index_last values k
  = Ok (init bs (fun idx => get values (idx ++ [clamp_index d k]))).
Proof.
  intros Hs Hd. unfold index_last. rewrite Hs, rev_app_distr. cbn [rev app].
  destruct d as [|d]; [lia|]. now rewrite removelast_last.
Qed.

(** The value of a PWC factor with strictly increasing times
    [times[0..nv]] and values whose last axis has [d] positions, outside
    its times and on each of its intervals. *)
Lemma PWCFactor_call_cases (times : list time) (values : tensor C) (nv d : nat)
      (bs : list nat) (t : time) :
  StronglySorted Qclt times ->
  length times = S nv ->
  0 < nv ->
  shape values = bs ++ [d] ->
  0 < d ->
  ((t < nth 0 times 0 \/ nth nv times 0 <= t)%Qc ->
   _PWCFactor__call__ times values t = Ok (zeros bs))
  /\
  (forall k, k < nv -> (nth k times 0 <= t)%Qc -> (t < nth (S k) times 0)%Qc ->
             _PWCFactor__call__ times values t
             = Ok (init bs (fun idx =>
                              get values (idx ++ [clamp_index d (Z.of_nat k)])))).
Proof.
  intros Hs Hlen Hnv Hshape Hd.
  assert (Hfirst : first_time times = Ok (nth 0 times 0%Qc)).
  { destruct times; [discriminate | reflexivity]. }
  assert (Hlast : last_time times = Ok (nth nv times 0%Qc)).
  { destruct times as [|x l]; [discriminate|]. unfold last_time. f_equal.
    rewrite (last_nth_length _ x 0%Qc) by discriminate.
    rewrite Hlen. f_equal. lia. }
  assert (Hzero : (v <- index_last values 0 ;; Ok (zeros_like v)) = Ok (zeros bs)).
  { rewrite (index_last_clamped values bs d 0) by assumption. reflexivity. }
  unfold _PWCFactor__call__. rewrite Hfirst. cbn [bind]. split.
  - intros [Hlt|Hge].
    + apply time_ltb_lt in Hlt. now rewrite Hlt.
    + destruct (time_ltb t (nth 0 times 0%Qc)); [assumption|].
      rewrite Hlast. cbn [bind].
      apply time_geb_ge in Hge. now rewrite Hge.
  - intros k Hk Hk1 Hk2.
    assert (Hge : (nth 0 times 0 <= t)%Qc).
    { eapply Qcle_trans; [|exact Hk1]. apply sorted_nth_le; [assumption | lia | lia]. }
    assert (Hlt : (t < nth nv times 0)%Qc).
    { eapply Qclt_le_trans; [exact Hk2|].
      apply sorted_nth_le; [assumption | lia | lia]. }
    apply time_ltb_ge in Hge. rewrite Hge, Hlast. cbn [bind].
    apply time_geb_lt in Hlt. rewrite Hlt.
    destruct (searchsorted_right_spec times t Hs) as (Hr & Hlow & Hup).
    set (r := searchsorted_right times t) in *.
    assert (Hr1 : k < r).
    { destruct (Nat.lt_ge_cases k r) as [|Hc]; [assumption|]. exfalso.
      apply (Qclt_irrefl t). eapply Qclt_le_trans; [|exact Hk1].
      apply Hup; lia. }
    assert (Hr2 : r <= S k).
    { destruct (Nat.le_gt_cases r (S k)) as [|Hc]; [assumption|]. exfalso.
      apply (Qclt_irrefl t). eapply Qclt_le_trans; [exact Hk2|].
      apply Hlow. lia. }
    replace (Z.of_nat r - 1)%Z with (Z.of_nat k) by lia.
    now apply index_last_clamped.
Qed.

Lemma get_expand0 (a : tensor C) (idx : list nat) :
  get (expand0 a) (0 :: idx) = get a idx.
Proof. reflexivity. Qed.

Lemma FactorTimeArray__init___default (fs : list _Factor) (array : tensor C)
      (m : nat) :
  shape array = [m; m] ->
  FactorTimeArray__init__ fs (expand0 array) None
  = Ok (mkFactorTimeArray fs (expand0 array) m (zeros [m; m])).
Proof.
  intros Hs. unfold FactorTimeArray__init__, index_first, zeros_like.
  cbn [expand0 shape]. rewrite Hs. reflexivity.
Qed.

Lemma is_square_matrix_true (a : tensor C) (m : nat) :
  shape a = [m; m] -> is_square_matrix a = true.
Proof. intros Hs. unfold is_square_matrix. rewrite Hs. apply Nat.eqb_refl. Qed.

Context {L : ScalarLaws C}.

(** The call of a composite with one factor of scalar values, base matrix
    [array] and no static part: the factor value times the matrix. *)
Lemma single_factor_call (x : _Factor) (array : tensor C) (m : nat) (t : time)
      (v : tensor C) (bs : list nat) :
  shape array = [m; m] ->
  _Factor__call__ x t = Ok v ->
  shape v = bs ->
  FactorTimeArray__call__
    (mkFactorTimeArray [x] (expand0 array) m (zeros [m; m])) t
  = Ok (init (bs ++ [m; m])
             (fun idx => cmul (get v (but_last_two idx))
                              (get array (last_two idx)))).
Proof.
  intros Hs Hv Hbs.
  rewrite (FactorTimeArray_call_entries _ t [v] bs m);
    [| cbn; now rewrite Hv | discriminate | now repeat constructor
     | cbn; now rewrite Hs | reflexivity].
  f_equal. apply init_ext. intros idx Hidx.
  apply valid_matrix_inv in Hidx.
  destruct Hidx as (b & r & c & -> & Hb & Hr & Hc).
  rewrite get_weighted_sum by assumption.
  rewrite but_last_two_app, last_two_app. cbn [static arrays length seq map nth].
  rewrite csum_one, get_expand0.
  rewrite get_zeros by (repeat constructor; assumption).
  apply cadd_0_r.
Qed.

(** X12.  [_factory_pwc] on strictly increasing times [times[0..nv]] that
    [check_time_array] accepts, one value per interval and a square
    matrix: the PWC time array with one factor, the times as given, the
    matrix as only base matrix and a zero static part.  It evaluates to the
    zero matrix before the first time and from the last time on, and to
    [values[k] * array] on the interval from [times[k]] (included) to
    [times[k+1]] (excluded). *)
Theorem factory_pwc_call
        (times : tensor time) (values array : tensor C) (dt : dtype) (nv m : nat) :
  check_time_array times = Ok tt ->
  StronglySorted Qclt (data times) ->
  length (data times) = S nv ->
  0 < nv ->
  shape values = [nv] ->
  shape array = [m; m] ->
  exists A self,
    _factory_pwc times values array dt = Ok A /\
    composite A = Some (PWC, self) /\
    length (factors self) = 1 /\
    arrays self = expand0 array /\
    static self = zeros [m; m] /\
    merged_times A = data times /\
    (forall t, (t < nth 0 (data times) 0 \/ nth nv (data times) 0 <= t)%Qc ->
               TimeArray__call__ A t = Ok (zeros [m; m])) /\
    (forall t k, k < nv ->
                 (nth k (data times) 0 <= t)%Qc ->
                 (t < nth (S k) (data times) 0)%Qc ->
                 TimeArray__call__ A t = Ok (tscale (get values [k]) array)).
Proof.
  intros Hchk Hsorted Hlen Hnv Hval Harr.
  unfold _factory_pwc. rewrite Hchk. cbn [bind]. rewrite Hval, Hlen.
  assert (Hd : (Z.of_nat nv =? Z.of_nat (S nv) - 1)%Z = true)
    by (apply Z.eqb_eq; lia).
  rewrite Hd, (is_square_matrix_true _ _ Harr). cbn [negb].
  unfold _PWCFactor. rewrite Hval. cbn [rev app bind].
  unfold PWCTimeArray__init__.
  rewrite (FactorTimeArray__init___default _ _ _ Harr).
  cbn [bind mapM _Factor_times concat_times concat].
  rewrite app_nil_r, (unique_sorted _ Hsorted).
  eexists _, _. split; [reflexivity|]. cbn [composite factors arrays static merged_times length].
  repeat split.
  - intros t Ht. cbn [TimeArray__call__].
    destruct (PWCFactor_call_cases (data times) values nv nv [] t
                Hsorted Hlen Hnv Hval Hnv) as [Hzero _].
    rewrite (single_factor_call _ array m t (zeros []) []); try assumption.
    + f_equal. unfold zeros. apply init_ext. intros idx Hidx.
      apply valid_two in Hidx. destruct Hidx as (r & c & -> & Hr & Hc).
      cbn [but_last_two last_two length Nat.sub firstn skipn].
      rewrite get_init by constructor. apply cmul_0_l.
    + cbn [_Factor__call__]. now apply Hzero.
    + reflexivity.
  - intros t k Hk Hk1 Hk2. cbn [TimeArray__call__].
    destruct (PWCFactor_call_cases (data times) values nv nv [] t
                Hsorted Hlen Hnv Hval Hnv) as [_ Hin].
    specialize (Hin k Hk Hk1 Hk2). rewrite clamp_index_in_range in Hin by assumption.
    rewrite (single_factor_call _ array m t
               (init [] (fun idx => get values (idx ++ [k]))) []);
      try assumption.
    + f_equal. unfold tscale, tmap. rewrite Harr. apply init_ext. intros idx Hidx.
      apply valid_two in Hidx. destruct Hidx as (r & c & -> & Hr & Hc).
      cbn [but_last_two last_two length Nat.sub firstn skipn].
      now rewrite get_init by constructor.
    + reflexivity.
Qed.

(** X13.  [_factory_modulated] on a function whose value at 0.0 is an array [f0]
    of the target dtype or of its real counterpart, and a square matrix:
    the Modulated time array with one factor, the matrix as only base
    matrix and a zero static part.  At a time where the function returns an
    array with as many entries as [f0], the call is that array, under the
    shape of [f0], times the matrix; where it returns an array with another
    number of entries the reshape fails, and where it returns an object
    without a [reshape] method (a number, a list, [None], ...) the call
    raises the [AttributeError] of that object. *)
Theorem factory_modulated_call
        (g : time -> pyobj) (array : tensor C) (dt f0dt : dtype) (f0 : tensor C)
        (m : nat) :
  g 0%Qc = PyJaxArray f0dt f0 ->
  f0dt = dt \/ f0dt = dtype_complex_to_real dt ->
  shape array = [m; m] ->
  exists A self,
    _factory_modulated (PyFunction g) array dt = Ok A /\
    composite A = Some (Modulated, self) /\
    length (factors self) = 1 /\
    arrays self = expand0 array /\
    static self = zeros [m; m] /\
    (forall t dt' v v',
        g t = PyJaxArray dt' v -> reshape v (shape f0) = Ok v' ->
        TimeArray__call__ A t
        = Ok (init (shape f0 ++ [m; m])
                   (fun idx => cmul (get v' (but_last_two idx))
                                    (get array (last_two idx))))) /\
    (forall t dt' v,
        g t = PyJaxArray dt' v -> size_of (shape f0) <> size_of (shape v) ->
        TimeArray__call__ A t = Raise (ArrayError BadReshape)) /\
    (forall t, as_array (g t) = None ->
               TimeArray__call__ A t
               = Raise (AttributeError (type_name (g t)) "reshape")).
Proof.
  intros Hg0 Hdt Harr.
  unfold _factory_modulated. rewrite Hg0.
  assert (Hd : dtype_eqb f0dt dt || dtype_eqb f0dt (dtype_complex_to_real dt) = true).
  { apply orb_true_iff. destruct Hdt as [-> | ->]; [left | right];
      now apply dtype_eqb_eq. }
  rewrite Hd, (is_square_matrix_true _ _ Harr). cbn [negb].
  unfold ModulatedTimeArray__init__.
  rewrite (FactorTimeArray__init___default _ _ _ Harr). cbn [bind].
  eexists _, _. split; [reflexivity|].
  cbn [composite factors arrays static length]. repeat split.
  - intros t dt' v v' Hgt Hv'. cbn [TimeArray__call__].
    apply single_factor_call; [assumption | | ].
    + cbn [_Factor__call__ _ModulatedFactor].
      unfold _ModulatedFactor__call__, array_valued.
      now rewrite Hgt.
    + unfold reshape in Hv'.
      destruct (size_of (shape f0) =? size_of (shape v)); [|discriminate].
      now injection Hv' as <-.
  - intros t dt' v Hgt Hsz. cbn [TimeArray__call__].
    unfold FactorTimeArray__call__.
    cbn [factors mapM _Factor__call__ _ModulatedFactor].
    unfold _ModulatedFactor__call__, array_valued. rewrite Hgt.
    cbn [as_array bind].
    unfold reshape. apply Nat.eqb_neq in Hsz. now rewrite Hsz.
  - intros t Hgt. cbn [TimeArray__call__].
    unfold FactorTimeArray__call__.
    cbn [factors mapM _Factor__call__ _ModulatedFactor].
    unfold _ModulatedFactor__call__, array_valued.
    now rewrite Hgt.
Qed.

End FactoryResults.

Section FactoryChecks.

Context {C : Type} {SC : Scalar C}.

(** X14.  [_factory_callable] on a function whose value at 0.0 is an array [f0]
    of the target dtype: the callable time array of the shape of [f0],
    whatever that shape is (it need not be that of a square matrix).  The
    call at [t] is the value of the function reshaped to the shape of
    [f0]; where the function returns an object without a [reshape]
    method (a number, a list, [None], ...) the call raises the
    [AttributeError] of that object. *)
Theorem factory_callable_call (x : time -> pyobj) (dt : dtype) (f0 : tensor C) :
  x 0%Qc = PyJaxArray dt f0 ->
  exists A,
    _factory_callable x dt = Ok A /\
    TimeArray_shape A = Ok (shape_tuple (shape f0)) /\
    TimeArray_ndim A = Ok (ndim f0) /\
    (forall t dt' v, x t = PyJaxArray dt' v ->
                     TimeArray__call__ A t = reshape v (shape f0)) /\
    (forall t, as_array (x t) = None ->
               TimeArray__call__ A t
               = Raise (AttributeError (type_name (x t)) "reshape")).
Proof.
  intros Hx0. unfold _factory_callable. rewrite Hx0.
  assert (Hd : dtype_eqb dt dt = true) by now apply dtype_eqb_eq.
  rewrite Hd. cbn [negb]. eexists. split; [reflexivity|]. repeat split.
  - unfold TimeArray_ndim. cbn. unfold CallableTimeArray_shape, ndim.
    now rewrite length_map.
  - intros t dt' v Ht. cbn. unfold CallableTimeArray__call__, array_valued.
    now rewrite Ht.
  - intros t Ht. cbn. unfold CallableTimeArray__call__, array_valued.
    now rewrite Ht.
Qed.


End FactoryChecks.

(** ** [MESolver]: the sum over the jump operators *)

Section SolverFacts.

Context {C : Type} {SC : Scalar C}.

Lemma get_squeezed (s : list nat) (g : list nat -> C) (idx : list nat) :
  get (mkTensor s (data (init (1 :: s) g))) idx = get (init (1 :: s) g) (0 :: idx).
Proof. reflexivity. Qed.

Lemma sum_no_jump_value (Hf : time -> result (tensor C)) (J : tensor C)
      (k m : nat) :
  shape J = [k; m; m] ->
  sum_no_jump (MESolver__init__ Hf J)
  = Ok (init [m; m]
          (fun idx =>
             csum (map (fun j =>
                          csum (map (fun l =>
                                       cmul (cconj (get J [j; l; nth 0 idx 0]))
                                            (get J [j; l; nth 1 idx 0]))
                                    (seq 0 m)))
                       (seq 0 k)))).
Proof.
  intros HJ. unfold sum_no_jump, MESolver__init__. cbn [jump_ops].
  assert (HsJ : shape (expand0 J) = [1; k] ++ [m; m]).
  { unfold expand0. cbn [shape]. now rewrite HJ. }
  rewrite (adjoint_Ok _ _ _ _ HsJ). cbn [bind].
  rewrite (matmul_Ok _ _ [1; k] [1; k] [1; k] m m m);
    [|reflexivity | assumption | apply broadcast_shapes_same].
  cbn [bind]. unfold squeeze0. rewrite shape_init. cbn [app].
  unfold sum_axis, ndim. cbn [shape length].
  change (normalize 3 0) with (Some 0). cbv beta iota.
  change (remove_at 0 [k; m; m]) with [m; m].
  f_equal. apply init_ext. intros idx Hv.
  apply valid_two in Hv. destruct Hv as (r & c & -> & Hr & Hc).
  cbn [nth]. apply csum_ext. intros j Hj. apply in_seq in Hj.
  change (insert_at 0 j [r; c]) with [j; r; c].
  rewrite get_squeezed, get_init by (repeat constructor; lia).
  change [0; j; r; c] with ([0; j] ++ [r; c]).
  rewrite but_last_two_app, last_two_app. cbn [nth].
  apply csum_ext. intros l Hl. apply in_seq in Hl.
  rewrite bidx_valid_id by (repeat constructor; lia).
  change ([1; k] ++ [m; m]) with [1; k; m; m].
  rewrite get_init by (repeat constructor; lia).
  rewrite but_last_two_app, last_two_app. reflexivity.
Qed.

(** X16.  [sum_no_jump] for jump operators [L_0 .. L_(k-1)], a tensor of shape
    [(k, m, m)]: the matrix of shape [(m, m)] whose entry [(r, c)] is the
    sum over the operators [j] and over [l] of
    [conj(L_j[l, r]) * L_j[l, c]], that is the sum of the matrices
    [L_j.adjoint() @ L_j]. *)
Theorem sum_no_jump_entries (Hf : time -> result (tensor C)) (J : tensor C)
        (k m : nat) :
  shape J = [k; m; m] ->
  sum_no_jump (MESolver__init__ Hf J)
  = Ok (init [m; m]
          (fun idx =>
             csum (map (fun j =>
                          csum (map (fun l =>
                                       cmul (cconj (get J [j; l; nth 0 idx 0]))
                                            (get J [j; l; nth 1 idx 0]))
                                    (seq 0 m)))
                       (seq 0 k)))).
Proof. apply sum_no_jump_value. Qed.

(** X17.  The non-hermitian Hamiltonian: for a Hamiltonian [H(t)] of shape
    [bh ++ (m, m)] and jump operators of shape [(k, m, m)], [H_nh(t)] has
    the shape of [H(t)] and its entry at a batch position [b], row [r] and
    column [c] is [H(t)[b, r, c] - 0.5j * sum_no_jump[r, c]]. *)
Theorem H_nh_entries (Hf : time -> result (tensor C)) (J h : tensor C) (t : time)
        (bh : list nat) (k m : nat) :
  shape J = [k; m; m] ->
  Hf t = Ok h ->
  shape h = bh ++ [m; m] ->
  exists s,
    sum_no_jump (MESolver__init__ Hf J) = Ok s /\
    shape s = [m; m] /\
    H_nh (MESolver__init__ Hf J) t
    = Ok (init (bh ++ [m; m])
               (fun idx => csub (get h idx) (cmul chalfj (get s (last_two idx))))).
Proof.
  intros HJ Hh Hsh. eexists. split; [exact (sum_no_jump_value Hf J k m HJ)|].
  split; [reflexivity|].
  unfold H_nh. rewrite (sum_no_jump_value Hf J k m HJ).
  unfold MESolver__init__ at 1. cbn [H]. rewrite Hh. cbn [bind].
  unfold tsub, tscale, tmap. rewrite shape_init.
  rewrite (broadcast2_Ok _ _ _ (bh ++ [m; m]))
    by (rewrite Hsh, shape_init; apply broadcast_shapes_batch).
  f_equal. apply init_ext. intros idx Hv.
  rewrite Hsh, shape_init, (bidx_valid_id _ _ Hv).
  apply valid_matrix_inv in Hv. destruct Hv as (b & r & c & -> & Hb & Hr & Hc).
  rewrite bidx_tail, last_two_app by (repeat constructor; assumption).
  now rewrite get_init by (repeat constructor; assumption).
Qed.

Context {L : ScalarLaws C} {LR : ScalarRingLaws C}.

(** X18.  [sum_no_jump] is a Hermitian matrix: it is its own adjoint. *)
Theorem sum_no_jump_hermitian (Hf : time -> result (tensor C)) (J : tensor C)
        (k m : nat) :
  shape J = [k; m; m] ->
  exists s,
    sum_no_jump (MESolver__init__ Hf J) = Ok s /\
    shape s = [m; m] /\
    adjoint s = Ok s.
Proof.
  intros HJ. eexists. split; [exact (sum_no_jump_value Hf J k m HJ)|].
  split; [reflexivity|].
  rewrite (adjoint_Ok _ [] m m) by reflexivity. cbn [app].
  f_equal. apply init_ext. intros idx Hv.
  apply valid_two in Hv. destruct Hv as (r & c & -> & Hr & Hc).
  change (but_last_two [r; c] ++ rev (last_two [r; c])) with [c; r].
  rewrite get_init by (repeat constructor; assumption). cbn [nth].
  rewrite cconj_csum, map_map. apply csum_ext. intros j _.
  rewrite cconj_csum, map_map. apply csum_ext. intros l _.
  rewrite cconj_mul, cconj_conj. apply cmul_comm.
Qed.

End SolverFacts.

(** ** [to_tensor] on a list of arrays *)

Section ToTensorFacts.

Context {C : Type} {SC : Scalar C}.

Lemma mapM_to_tensor_arrays (l : list pyobj) (ts : list (tensor C)) :
  Forall2 (fun x a => x = PyTorchTensor a \/ x = PyNdarray a) l ts ->
  mapM to_tensor l = Ok ts.
Proof.
  induction 1 as [|x a l ts Hx _ IH]; [reflexivity|].
  cbn [mapM]. rewrite IH. now destruct Hx as [-> | ->].
Qed.

Lemma stack_first_Ok (a : tensor C) (l : list (tensor C)) (s : list nat) :
  Forall (fun b => shape b = s) (a :: l) ->
  stack (a :: l) 0
  = Ok (init (length (a :: l) :: s)
             (fun idx => get (nth (hd 0 idx) (a :: l) (zeros [])) (tl idx))).
Proof.
  intros Hall. unfold stack.
  assert (Ha : shape a = s) by now inversion Hall.
  assert (Hb : forallb (fun b => shape_eqb (shape b) (shape a)) (a :: l) = true).
  { apply forallb_forall. intros b Hb. rewrite Forall_forall in Hall.
    rewrite (Hall b Hb), Ha. apply shape_eqb_refl. }
  rewrite Hb.
  assert (Hn : normalize (S (ndim a)) 0 = Some 0) by reflexivity.
  rewrite Hn, Ha.
  change (insert_at 0 (length (a :: l)) s) with (length (a :: l) :: s).
  f_equal. apply init_ext. intros idx Hv.
  inversion Hv as [|i ? r ? Hi Hr]; subst.
  change (remove_at 0 (i :: r)) with r. change (nth 0 (i :: r) 0) with i.
  cbn [hd tl]. f_equal. apply nth_indep. assumption.
Qed.

Lemma stack_mismatch (a b : tensor C) (l : list (tensor C)) (k : Z) :
  In b (a :: l) -> shape b <> shape a ->
  stack (a :: l) k = Raise (ArrayError IncompatibleShapes).
Proof.
  intros Hin Hne. unfold stack.
  destruct (forallb (fun b => shape_eqb (shape b) (shape a)) (a :: l)) eqn:E;
    [|reflexivity].
  exfalso. apply Hne. eapply forallb_same_shape; eassumption.
Qed.

(** X19.  [to_tensor] on a non-empty list of tensors and arrays [ts]: when all
    have one shape [s], the result has shape [(len(ts),) + s] and its entry
    at [(i, ...)] is the entry of the [i]-th element at [(...)]; when one of
    them has another shape than the first, the stacking raises. *)
Theorem to_tensor_list_of_arrays (l : list pyobj) (ts : list (tensor C))
        (s : list nat) :
  l <> [] ->
  Forall2 (fun x a => x = PyTorchTensor a \/ x = PyNdarray a) l ts ->
  (Forall (fun a => shape a = s) ts ->
   to_tensor (PyList l)
   = Ok (init (length ts :: s)
              (fun idx => get (nth (hd 0 idx) ts (zeros [])) (tl idx))))
  /\
  (forall a b, hd_error ts = Some a -> In b ts -> shape b <> shape a ->
               to_tensor (PyList l) = Raise (ArrayError IncompatibleShapes)).
Proof.
  intros Hne Hl. pose proof (mapM_to_tensor_arrays l ts Hl) as Hmap.
  destruct l as [|x l]; [congruence|].
  destruct ts as [|a0 ts]; [inversion Hl|].
  cbn [to_tensor].
  split.
  - intros Hall. rewrite Hmap. cbn [bind]. now apply stack_first_Ok.
  - intros a b [= <-] Hin Hs. rewrite Hmap. cbn [bind].
    now apply (stack_mismatch a0 b).
Qed.

End ToTensorFacts.

(** ** Reshaping the batch dimensions *)

Lemma ravel_app (s1 s2 i1 i2 : list nat) :
  length i1 = length s1 ->
  ravel (s1 ++ s2) (i1 ++ i2) = ravel s1 i1 * size_of s2 + ravel s2 i2.
Proof.
  revert i1. induction s1 as [|d s1 IH]; intros [|i i1] Hlen; simpl in *;
    try discriminate; [reflexivity|].
  rewrite IH by lia. rewrite size_of_app. lia.
Qed.

Lemma nth_indices_valid (s : list nat) (p : nat) :
  p < size_of s -> valid s (nth p (indices s) []).
Proof.
  intros Hp. apply In_indices. apply nth_In. now rewrite length_indices.
Qed.

Lemma euclid_unique (q q' r r' d : nat) :
  r < d -> r' < d -> q * d + r = q' * d + r' -> q = q' /\ r = r'.
Proof.
  intros Hr Hr' H.
  destruct (Nat.lt_trichotomy q q') as [Hq|[Hq|Hq]].
  - exfalso. assert (S q * d <= q' * d) by (apply Nat.mul_le_mono_r; lia).
    simpl in *. lia.
  - subst. lia.
  - exfalso. assert (S q' * d <= q * d) by (apply Nat.mul_le_mono_r; lia).
    simpl in *. lia.
Qed.

Section ReshapeFacts.

Context {C : Type} {SC : Scalar C}.

(** A table of entries reshaped is the table, under the new shape, of the
    entries at the same row-major positions. *)
Lemma reshape_init (s s' : list nat) (F F' : list nat -> C) :
  size_of s' = size_of s ->
  (forall p, p < size_of s ->
             F' (nth p (indices s') []) = F (nth p (indices s) [])) ->
  reshape (init s F) s' = Ok (init s' F').
Proof.
  intros Hs HF. rewrite reshape_Ok by now rewrite shape_init.
  f_equal. unfold init. cbn [data]. f_equal.
  apply (nth_ext _ _ (F []) (F' [])).
  - now rewrite !length_map, !length_indices.
  - intros p Hp. rewrite length_map, length_indices in Hp.
    rewrite (map_nth F), (map_nth F'). symmetry. now apply HF.
Qed.

Lemma index_last_reshape (values v' : tensor C) (bs args : list nat) (nv : nat)
      (k : Z) :
  shape values = bs ++ [nv] ->
  reshape values (args ++ [nv]) = Ok v' ->
  index_last v' k = (r <- index_last values k ;; reshape r args)
  /\ (v <- index_last v' k ;; Ok (zeros_like v))
     = (r <- (v <- index_last values k ;; Ok (zeros_like v)) ;; reshape r args).
Proof.
  intros Hs Hr. unfold reshape in Hr.
  destruct (Nat.eqb_spec (size_of (args ++ [nv])) (size_of (shape values)))
    as [E|E]; [|discriminate].
  injection Hr as <-. rewrite Hs, !size_of_app in E.
  unfold index_last. cbn [shape]. rewrite Hs, !rev_app_distr. cbn [rev app].
  destruct nv as [|nv]; [split; reflexivity|].
  rewrite !removelast_last. cbn [bind].
  assert (Hsz : size_of args = size_of bs) by (simpl in E; nia).
  set (c := clamp_index (S nv) k).
  assert (Hc : c < S nv) by (apply clamp_index_lt; lia).
  split.
  - symmetry. apply reshape_init; [assumption|].
    intros p Hp. unfold get. cbn [shape data]. rewrite Hs.
    rewrite !ravel_app
      by (apply valid_length, nth_indices_valid; lia).
    rewrite !ravel_nth_indices by lia. reflexivity.
  - unfold zeros_like, zeros. rewrite !shape_init.
    symmetry. now apply reshape_init.
Qed.

(** A reshaped factor returns the reshaped value. *)
Lemma _Factor_reshape_call (x x' : _Factor) (args : list nat) (t : time) :
  factor_invariant x ->
  _Factor_reshape x args = Ok x' ->
  _Factor__call__ x' t = (v <- _Factor__call__ x t ;; reshape v args).
Proof.
  destruct x as [times values nv|f f0]; cbn [factor_invariant _Factor_reshape].
  - intros [bs Hs].
    destruct (reshape values (args ++ [nv])) as [v'|e] eqn:Er; cbn [bind];
      [|discriminate].
    assert (Hv' : shape v' = args ++ [nv]).
    { unfold reshape in Er.
      destruct (size_of (args ++ [nv]) =? size_of (shape values));
        [now injection Er as <- | discriminate]. }
    unfold _PWCFactor. rewrite Hv', rev_app_distr. cbn [rev app].
    intros [= <-]. cbn [_Factor__call__]. unfold _PWCFactor__call__.
    destruct (first_time times) as [t0|e]; cbn [bind]; [|reflexivity].
    destruct (time_ltb t t0);
      [exact (proj2 (index_last_reshape values v' bs args nv 0 Hs Er))|].
    destruct (last_time times) as [tl|e]; cbn [bind]; [|reflexivity].
    destruct (time_geb t tl);
      [exact (proj2 (index_last_reshape values v' bs args nv 0 Hs Er))|].
    exact (proj1 (index_last_reshape values v' bs args nv _ Hs Er)).
  - intros _.
    destruct (reshape f0 args) as [f0'|e] eqn:Er; cbn [bind]; [|discriminate].
    intros [= <-]. cbn [_Factor__call__ _ModulatedFactor].
    unfold _ModulatedFactor__call__.
    assert (Hf0 : shape f0' = args /\ size_of args = size_of (shape f0)).
    { unfold reshape in Er.
      destruct (Nat.eqb_spec (size_of args) (size_of (shape f0)));
        [now injection Er as <- | discriminate]. }
    destruct Hf0 as [-> Hsz].
    destruct (f t) as [v|e]; cbn [bind]; [|reflexivity].
    symmetry. now apply reshape_reshape.
Qed.

Lemma _Factor_reshape_times (x x' : @_Factor C) (args : list nat) :
  _Factor_reshape x args = Ok x' -> _Factor_times x' = _Factor_times x.
Proof.
  destruct x as [times values nv|f f0]; cbn [_Factor_reshape].
  - destruct (reshape values (args ++ [nv])) as [v'|e]; cbn [bind];
      [|discriminate].
    unfold _PWCFactor. destruct (rev (shape v')); [discriminate|].
    now intros [= <-].
  - destruct (reshape f0 args) as [f0'|e]; cbn [bind]; [|discriminate].
    now intros [= <-].
Qed.

Lemma _Factor_reshape_shape (x x' : @_Factor C) (args : list nat) :
  factor_invariant x ->
  _Factor_reshape x args = Ok x' -> _Factor_shape x' = args /\ factor_invariant x'.
Proof.
  destruct x as [times values nv|f f0]; cbn [_Factor_reshape factor_invariant].
  - intros _.
    destruct (reshape values (args ++ [nv])) as [v'|e] eqn:Er; cbn [bind];
      [|discriminate].
    assert (Hv' : shape v' = args ++ [nv]).
    { unfold reshape in Er.
      destruct (size_of (args ++ [nv]) =? size_of (shape values));
        [now injection Er as <- | discriminate]. }
    unfold _PWCFactor. rewrite Hv', rev_app_distr. cbn [rev app].
    intros [= <-]. cbn [_Factor_shape factor_invariant]. rewrite Hv'.
    split; [apply removelast_last | now exists args].
  - intros _.
    destruct (reshape f0 args) as [f0'|e] eqn:Er; cbn [bind]; [|discriminate].
    intros [= <-]. cbn [_Factor_shape _ModulatedFactor factor_invariant].
    unfold reshape in Er.
    destruct (size_of args =? size_of (shape f0));
      [now injection Er as <- | discriminate].
Qed.

(** X20.  Reshaping a factor (PWC or modulated) to the batch shape [args]: the
    new factor has batch shape [args] and the same times, and at every
    time it returns the value of the factor reshaped to [args]. *)
Theorem factor_reshape_call (x x' : @_Factor C) (args : list nat) :
  factor_invariant x ->
  _Factor_reshape x args = Ok x' ->
  _Factor_shape x' = args /\
  _Factor_times x' = _Factor_times x /\
  forall t, _Factor__call__ x' t = (v <- _Factor__call__ x t ;; reshape v args).
Proof.
  intros Hx Hr. split; [|split].
  - now apply (_Factor_reshape_shape x).
  - now apply (_Factor_reshape_times x x' args).
  - intros t. now apply _Factor_reshape_call.
Qed.

End ReshapeFacts.

Section CompositeReshape.

Context {C : Type} {SC : Scalar C}.

Lemma index_last_shape (values r : tensor C) (bs : list nat) (nv : nat) (k : Z) :
  shape values = bs ++ [nv] -> index_last values k = Ok r ->
  shape r = bs /\ 0 < nv.
Proof.
  intros Hs. unfold index_last. rewrite Hs, rev_app_distr. cbn [rev app].
  destruct nv as [|nv]; [discriminate|].
  rewrite removelast_last. intros [= <-]. split; [reflexivity | lia].
Qed.

(** A factor that can be reshaped to [args] returns values with as many
    entries as the shape [args]. *)
Lemma _Factor_reshape_size (x x' : @_Factor C) (args : list nat) (t : time)
      (v : tensor C) :
  factor_invariant x ->
  _Factor_reshape x args = Ok x' ->
  _Factor__call__ x t = Ok v ->
  size_of args = size_of (shape v).
Proof.
  destruct x as [times values nv|f f0];
    cbn [factor_invariant _Factor_reshape _Factor__call__].
  - intros [bs Hs].
    destruct (reshape values (args ++ [nv])) as [v'|e] eqn:Er; cbn [bind];
      [|discriminate].
    intros _ Hcall.
    assert (Hv : shape v = bs /\ 0 < nv).
    { unfold _PWCFactor__call__ in Hcall.
      destruct (first_time times) as [t0|e]; cbn [bind] in Hcall; [|discriminate].
      destruct (time_ltb t t0).
      - destruct (index_last values 0) as [r|e] eqn:Ei; cbn [bind] in Hcall;
          [|discriminate].
        injection Hcall as <-. exact (index_last_shape _ _ _ _ _ Hs Ei).
      - destruct (last_time times) as [tl|e]; cbn [bind] in Hcall; [|discriminate].
        destruct (time_geb t tl).
        + destruct (index_last values 0) as [r|e] eqn:Ei; cbn [bind] in Hcall;
            [|discriminate].
          injection Hcall as <-. exact (index_last_shape _ _ _ _ _ Hs Ei).
        + exact (index_last_shape _ _ _ _ _ Hs Hcall). }
    destruct Hv as [-> Hnv].
    unfold reshape in Er.
    destruct (Nat.eqb_spec (size_of (args ++ [nv])) (size_of (shape values)))
      as [E|E]; [|discriminate].
    rewrite Hs, !size_of_app in E. simpl in E. nia.
  - intros _.
    destruct (reshape f0 args) as [f0'|e] eqn:Er; cbn [bind]; [|discriminate].
    intros _. unfold _ModulatedFactor__call__.
    destruct (f t) as [v0|e]; cbn [bind]; [|discriminate].
    unfold reshape in *.
    destruct (Nat.eqb_spec (size_of args) (size_of (shape f0))) as [E|E];
      [|discriminate].
    destruct (size_of (shape f0) =? size_of (shape v0)); [|discriminate].
    now intros [= <-].
Qed.

Lemma mapM_reshape_call (fs fs' : list _Factor) (args : list nat) (t : time)
      (vs : list (tensor C)) :
  Forall factor_invariant fs ->
  mapM (fun x => _Factor_reshape x args) fs = Ok fs' ->
  mapM (fun x => _Factor__call__ x t) fs = Ok vs ->
  mapM (fun x => _Factor__call__ x t) fs'
  = Ok (map (fun v => mkTensor args (data v)) vs).
Proof.
  intros Hinv. revert fs' vs.
  induction Hinv as [|x fs Hx _ IH]; intros fs' vs; cbn [mapM].
  - now intros [= <-] [= <-].
  - destruct (_Factor_reshape x args) as [x'|e] eqn:Ex; cbn [bind]; [|discriminate].
    destruct (mapM (fun x0 => _Factor_reshape x0 args) fs) as [fs1|e];
      cbn [bind]; [|discriminate].
    intros [= <-].
    destruct (_Factor__call__ x t) as [v|e] eqn:Ev; cbn [bind]; [|discriminate].
    destruct (mapM (fun x0 => _Factor__call__ x0 t) fs) as [vs1|e];
      cbn [bind]; [|discriminate].
    intros [= <-]. cbn [mapM map].
    rewrite (_Factor_reshape_call x x' args t Hx Ex), Ev. cbn [bind].
    rewrite reshape_Ok by exact (_Factor_reshape_size x x' args t v Hx Ex Ev).
    cbn [bind]. now rewrite (IH fs1 vs1 eq_refl eq_refl).
Qed.

Lemma mapM_reshape_times (fs fs' : list (@_Factor C)) (args : list nat) :
  mapM (fun x => _Factor_reshape x args) fs = Ok fs' ->
  mapM _Factor_times fs' = mapM _Factor_times fs.
Proof.
  revert fs'. induction fs as [|x fs IH]; intros fs'; cbn [mapM].
  - now intros [= <-].
  - destruct (_Factor_reshape x args) as [x'|e] eqn:Ex; cbn [bind]; [|discriminate].
    destruct (mapM (fun x0 => _Factor_reshape x0 args) fs) as [fs1|e];
      cbn [bind]; [|discriminate].
    intros [= <-]. cbn [mapM].
    now rewrite (_Factor_reshape_times x x' args Ex), (IH fs1 eq_refl).
Qed.

(** X21.  [A.reshape] with the dimensions [bs' ++ (p, q)] on a constructed
    composite time array of matrix dimension [m]: only the batch
    dimensions [bs'] are used, whatever [p] and [q] are.  Where the factors
    return values of one batch shape at [t], the reshaped time array, with
    the same times, evaluates at [t] to [A(t)] reshaped to
    [bs' ++ (m, m)]. *)
Theorem composite_reshape_call
        (cls : factor_class) (fs : list _Factor) (arr : tensor C)
        (st0 : option (tensor C)) (A R : TimeArray) (self : FactorTimeArray)
        (bs' : list nat) (p q : nat) (t : time) (vs : list (tensor C))
        (bs : list nat) (m : nat) :
  new cls fs arr st0 = Ok A ->
  composite A = Some (cls, self) ->
  Forall factor_invariant fs ->
  fs <> [] ->
  mapM (fun x => _Factor__call__ x t) fs = Ok vs ->
  Forall (fun v => shape v = bs) vs ->
  shape arr = [length fs; m; m] ->
  shape (static self) = [m; m] ->
  TimeArray_reshape A (bs' ++ [p; q]) = Ok R ->
  exists a,
    TimeArray_reshape A (bs' ++ [m; m]) = Ok R /\
    merged_times R = merged_times A /\
    TimeArray__call__ A t = Ok a /\
    TimeArray__call__ R t = reshape a (bs' ++ [m; m]).
Proof.
  intros Hnew HA Hinv Hne Hmap Hall Harr Hst Hr.
  destruct (new_static cls fs arr st0 A (static self) Hnew)
    as (s1 & _ & _ & HA1 & Hf & Ha & _).
  rewrite HA in HA1. injection HA1 as <-.
  pose proof (mapM_length _ _ _ Hmap) as Hlen.
  assert (Hvs : vs <> []) by (intros ->; destruct fs; [congruence | discriminate]).
  rewrite (composite_reshape _ _ _ _ HA) in Hr.
  unfold FactorTimeArray_reshape in Hr.
  rewrite but_last_two_app, Hf, Ha in Hr.
  destruct (mapM (fun x => _Factor_reshape x bs') fs) as [fs'|e] eqn:Efs;
    cbn [bind] in Hr; [|discriminate].
  destruct (new_variant cls fs fs' arr arr st0 A (static self) Hnew eq_refl
              (fun _ => mapM_reshape_times _ _ _ Efs))
    as (self0 & R2 & self' & HA0 & HR2 & HcR & Hf' & Ha' & Hs' & _ & Ht).
  rewrite HR2 in Hr. injection Hr as ->.
  (* the sizes of the two batch shapes *)
  assert (Hsz : size_of bs' = size_of bs).
  { destruct fs as [|x fs1]; [congruence|].
    cbn [mapM] in Efs, Hmap.
    destruct (_Factor_reshape x bs') as [x'|e] eqn:Ex; [|discriminate].
    destruct (_Factor__call__ x t) as [v|e] eqn:Ev; [|discriminate].
    cbn [bind] in Hmap.
    destruct (mapM (fun x0 => _Factor__call__ x0 t) fs1); [|discriminate].
    injection Hmap as <-.
    rewrite (_Factor_reshape_size x x' bs' t v); try assumption.
    - inversion Hall; subst. reflexivity.
    - now inversion Hinv. }
  pose proof (mapM_reshape_call fs fs' bs' t vs Hinv Efs Hmap) as Hmap'.
  set (vs' := map (fun v => mkTensor bs' (data v)) vs) in *.
  rewrite <- Hlen in Harr.
  pose proof (FactorTimeArray_call_entries self t vs bs m) as HcallA.
  rewrite Hf, Ha in HcallA. specialize (HcallA Hmap Hvs Hall Harr Hst).
  pose proof (FactorTimeArray_call_entries self' t vs' bs' m) as HcallR.
  rewrite Hf', Ha', Hs' in HcallR.
  assert (HcallR' := HcallR Hmap'
            ltac:(unfold vs'; destruct vs; [congruence | discriminate])
            ltac:(unfold vs'; apply Forall_forall; intros v Hv;
                  apply in_map_iff in Hv; destruct Hv as (v0 & <- & _);
                  reflexivity)
            ltac:(unfold vs'; now rewrite length_map)
            Hst).
  clear HcallR.
  eexists. split.
  { rewrite (composite_reshape _ _ _ _ HA). unfold FactorTimeArray_reshape.
    rewrite but_last_two_app, Hf, Ha, Efs. exact HR2. }
  split; [assumption|].
  rewrite (composite_call _ _ _ t HA), (composite_call _ _ _ t HcR).
  split; [exact HcallA|]. rewrite HcallR'. symmetry.
  apply reshape_init; [rewrite !size_of_app; now rewrite Hsz|].
  intros pos Hpos.
  assert (Hpos' : pos < size_of (bs' ++ [m; m]))
    by (rewrite size_of_app in *; now rewrite Hsz).
  pose proof (nth_indices_valid _ _ Hpos) as Hv.
  pose proof (nth_indices_valid _ _ Hpos') as Hv'.
  pose proof (ravel_nth_indices _ _ [] Hpos) as Hrv.
  pose proof (ravel_nth_indices _ _ [] Hpos') as Hrv'.
  destruct (valid_matrix_inv _ _ _ _ Hv) as (b & r & c & Eidx & Hb & Hr & Hc).
  destruct (valid_matrix_inv _ _ _ _ Hv') as (b' & r' & c' & Eidx' & Hb' & Hr' & Hc').
  rewrite Eidx in Hrv |- *. rewrite Eidx' in Hrv' |- *.
  rewrite ravel_app in Hrv, Hrv' by now apply valid_length.
  assert (Hrc : ravel [m; m] [r; c] < size_of [m; m])
    by (apply ravel_lt; repeat constructor; assumption).
  assert (Hrc' : ravel [m; m] [r'; c'] < size_of [m; m])
    by (apply ravel_lt; repeat constructor; assumption).
  destruct (euclid_unique _ _ _ _ _ Hrc Hrc' (eq_trans Hrv (eq_sym Hrv')))
    as [Hq Hrem].
  assert (Erc : r = r' /\ c = c').
  { simpl in Hrem. rewrite !Nat.mul_1_r, !Nat.add_0_r in Hrem.
    apply (euclid_unique r r' c c' m); assumption. }
  destruct Erc as [<- <-].
  rewrite !last_two_app, !get_weighted_sum by assumption.
  f_equal. unfold vs'. rewrite length_map.
  apply csum_ext. intros i Hi. apply in_seq in Hi. f_equal.
  rewrite (nth_indep _ _ (mkTensor bs' (data (zeros [])))) by (rewrite length_map; lia).
  rewrite (map_nth (fun v => mkTensor bs' (data v))).
  assert (Hsi : shape (nth i vs (zeros [])) = bs).
  { rewrite Forall_forall in Hall. apply Hall. apply nth_In. lia. }
  unfold get. cbn [shape data]. now rewrite Hsi, Hq.
Qed.

End CompositeReshape.

(** ** Subtraction and sums with the time array on the right *)

Section DifferencesAndReflectedSums.

Context {C : Type} {SC : Scalar C} {L : ScalarLaws C}.

(** X22.  [A - y], [A - B] and [y - A] for constant time arrays [A] and [B] and
    an array [y]: [TimeArray.__sub__] and [TimeArray.__rsub__] go through
    a negation and a sum, and what they build is the constant time array
    of the difference of the arrays (they raise when the arrays do not
    broadcast). *)
Theorem constant_sub_call (x y : tensor C) :
  py_sub 1 (OTimeArray (ConstantTimeArray x)) (OArray y)
  = (r <- tsub x y ;; Ok (OTimeArray (ConstantTimeArray r)))
  /\ py_sub 1 (OTimeArray (ConstantTimeArray x)) (OTimeArray (ConstantTimeArray y))
     = (r <- tsub x y ;; Ok (OTimeArray (ConstantTimeArray r)))
  /\ py_sub 2 (OArray y) (OTimeArray (ConstantTimeArray x))
     = (r <- tsub y x ;; Ok (OTimeArray (ConstantTimeArray r))).
Proof.
  repeat split.
  - cbn. rewrite tadd_tneg_r. now destruct (tsub x y).
  - cbn. unfold ConstantTimeArray__neg__. cbn. rewrite tadd_tneg_r.
    now destruct (tsub x y).
  - cbn. unfold ConstantTimeArray__neg__. cbn. rewrite tadd_tneg_l.
    now destruct (tsub y x).
Qed.

(** X23.  A sum with a constructed composite time array [B] on the right of an
    array [x] or of the constant time array of [x]: the left operand does
    not handle the sum, [B.__radd__] evaluates [B + x], and the result is
    the composite that [B + x] builds: the factors and base matrices of
    [B] with the static part [static + x].  At every time [B(t)] is the
    factor part plus the static part, and the value of the sum is the same
    factor part plus [static + x]. *)
Theorem composite_radd_call
        (cls : factor_class) (fs : list _Factor) (arr : tensor C)
        (st0 : option (tensor C)) (B : TimeArray) (self : FactorTimeArray)
        (x sx : tensor C) :
  new cls fs arr st0 = Ok B ->
  composite B = Some (cls, self) ->
  tadd (static self) x = Ok sx ->
  exists R self',
    py_add 1 (OTimeArray B) (OArray x) = Ok (OTimeArray R) /\
    py_add 2 (OArray x) (OTimeArray B) = Ok (OTimeArray R) /\
    py_add 2 (OTimeArray (ConstantTimeArray x)) (OTimeArray B) = Ok (OTimeArray R) /\
    composite R = Some (cls, self') /\
    factors self' = factors self /\
    arrays self' = arrays self /\
    static self' = sx /\
    forall t,
      TimeArray__call__ B t
      = (s <- factor_part self t ;; tadd s (static self)) /\
      TimeArray__call__ R t
      = (s <- factor_part self t ;; tadd s sx).
Proof.
  intros Hnew HB Hsx.
  destruct (new_static cls fs arr st0 B sx Hnew)
    as (self0 & R & self' & HB0 & Hf & Ha & HR & HcR & Hf' & Ha' & Hs' & _ & _).
  rewrite HB in HB0. injection HB0 as <-.
  assert (Hadd : forall y, y = OArray x \/ y = OTimeArray (ConstantTimeArray x) ->
                           TimeArray__add__ B y = Ok (Return R)).
  { intros y Hy. rewrite (composite_add _ _ _ _ HB). unfold FactorTimeArray__add__.
    destruct Hy as [-> | ->]; rewrite Hsx; cbn [bind]; now rewrite Hf, Ha, HR. }
  destruct (composite_as_instance _ _ _ HB) as [_ HBc].
  exists R, self'.
  split; [|split; [|split; [|split; [|split; [|split; [|split]]]]]];
    try assumption; try congruence.
  - cbn [py_add]. now rewrite Hadd by now left.
  - cbn [py_add]. now rewrite Hadd by now left.
  - cbn [py_add TimeArray__add__].
    assert (Hni : ConstantTimeArray__add__ x (OTimeArray B) = Ok NotImplemented)
      by (destruct B; try discriminate; reflexivity).
    rewrite Hni. cbn [bind].
    assert (Hsc : same_class (ConstantTimeArray x) B = false)
      by (destruct B; try discriminate; reflexivity).
    rewrite Hsc. now rewrite Hadd by now right.
  - intros t. split.
    + rewrite (composite_call _ _ _ t HB). apply FactorTimeArray_call_parts.
    + rewrite (composite_call _ _ _ t HcR), <- Hs'.
      apply FactorTimeArray_call_static; congruence.
Qed.

(** The result of an elementwise operation on the value of a callable time
    array has the shape of the operation on the stored array. *)
Lemma callable_op_reshape (op : C -> C -> C) (v f0 b b0 f0' : tensor C) :
  shape v = shape f0 -> shape b = shape b0 ->
  broadcast2 op f0 b0 = Ok f0' ->
  (r <- broadcast2 op v b ;; reshape r (shape f0')) = broadcast2 op v b.
Proof.
  intros Hs Hb H0.
  destruct (broadcast2_same_shapes op f0 v b0 b f0' Hs Hb H0) as (r & Hr & Hsr).
  rewrite Hr. cbn [bind]. now apply reshape_to.
Qed.

(** X24.  [A - y] for a [CallableTimeArray] whose function returns, at time [t],
    an array [v] of the stored shape (as it does as long as the time array
    has not been reshaped), and an array [y]: the value of [A - y] at [t]
    is [v - y]. *)
Theorem callable_sub_call (f : time -> result (tensor C)) (f0 y : tensor C)
        (t : time) (v : tensor C) (R : TimeArray) :
  f t = Ok v -> shape v = shape f0 ->
  py_sub 1 (OTimeArray (CallableTimeArray f f0)) (OArray y) = Ok (OTimeArray R) ->
  TimeArray__call__ (CallableTimeArray f f0) t = Ok v /\
  TimeArray__call__ R t = tsub v y.
Proof.
  intros Hv Hs. cbn.
  destruct (tadd f0 (tneg y)) as [f0'|e] eqn:E0; cbn [bind]; [|discriminate].
  intros [= <-]. cbn. unfold CallableTimeArray__call__, CallableTimeArray_shape.
  rewrite Hv. cbn [bind]. split; [now apply reshape_to|].
  rewrite <- tadd_tneg_r.
  now apply (callable_op_reshape cadd v f0 (tneg y) (tneg y) f0').
Qed.

End DifferencesAndReflectedSums.

(** ** Construction of composite time arrays: times and edge cases *)

Section CompositeConstruction.

Context {C : Type} {SC : Scalar C}.

Lemma mapM_In {A B : Type} (g : A -> result B) (l : list A) (ys : list B) (y : B) :
  mapM g l = Ok ys -> (In y ys <-> exists x, In x l /\ g x = Ok y).
Proof.
  revert ys. induction l as [|x l IH]; intros ys; cbn [mapM].
  - intros [= <-]. split; [intros [] | intros (x & [] & _)].
  - destruct (g x) as [y0|e] eqn:Ex; cbn [bind]; [|discriminate].
    destruct (mapM g l) as [ys1|e]; cbn [bind]; [|discriminate].
    intros [= <-]. specialize (IH ys1 eq_refl). split.
    + intros [<- | Hin].
      * exists x. split; [now left | assumption].
      * apply IH in Hin. destruct Hin as (x' & Hx' & Hg).
        exists x'. split; [now right | assumption].
    + intros (x' & [<- | Hx'] & Hg).
      * left. congruence.
      * right. apply IH. now exists x'.
Qed.

(** X25.  The times of a constructed PWC time array: it has at least one factor,
    every factor is a PWC factor, and the merged times are strictly
    increasing and are exactly the times of its factors. *)
Theorem pwc_times_invariant (fs : list _Factor) (arr : tensor C)
        (st0 : option (tensor C)) (A : TimeArray) :
  new PWC fs arr st0 = Ok A ->
  fs <> [] /\
  (forall x, In x fs -> exists ts, _Factor_times x = Ok ts) /\
  StronglySorted Qclt (merged_times A) /\
  (forall z, In z (merged_times A)
             <-> exists x ts, In x fs /\ _Factor_times x = Ok ts /\ In z ts).
Proof.
  intros Hnew. apply new_PWC_inv in Hnew.
  destruct Hnew as (m & r & st & ts & _ & Hts & Hne & ->).
  cbn [merged_times]. repeat split.
  - intros ->. cbn in Hts. injection Hts as <-. congruence.
  - intros x Hx. clear Hne. revert ts Hts.
    induction fs as [|x0 fs IH]; intros ts; [destruct Hx|].
    cbn [mapM]. destruct (_Factor_times x0) as [t0|e] eqn:E0; cbn [bind];
      [|discriminate].
    destruct (mapM _Factor_times fs) as [ts1|e]; cbn [bind]; [|discriminate].
    intros _. destruct Hx as [<- | Hx]; [now exists t0 | now apply (IH Hx ts1)].
  - apply sorted_unique.
  - rewrite In_unique, in_concat. intros (l & Hl & Hz).
    apply (mapM_In _ _ _ _ Hts) in Hl. destruct Hl as (x & Hx & Hg).
    now exists x, l.
  - intros (x & l & Hx & Hg & Hz). rewrite In_unique, in_concat.
    exists l. split; [|assumption].
    apply (mapM_In _ _ _ _ Hts). now exists x.
Qed.

(** X26.  A composite without factors.  A [PWCTimeArray] is never
    constructed: where the attributes can be set, the concatenation of no
    times raises.  A [ModulatedTimeArray], where it is constructed, raises
    at every call, in the stacking of no values.  With a static part
    passed and base matrices of at least one dimension the attributes are
    set: the PWC construction raises in the concatenation and the
    Modulated one succeeds; so it is with the default static part where
    the first dimension of the base matrices is not zero.  With the
    default static part and no base matrix (a first dimension of zero),
    [arrays[0]] is out of bounds and both constructions raise there. *)
Theorem composite_without_factors (arr : tensor C) :
  (forall st0, exists e, new PWC [] arr st0 = Raise e) /\
  (forall st0 R,
      new Modulated [] arr st0 = Ok R ->
      forall t, TimeArray__call__ R t = Raise (ArrayError EmptySequence)) /\
  (shape arr <> [] ->
   forall st,
     new PWC [] arr (Some st) = Raise (ArrayError EmptySequence) /\
     exists R, new Modulated [] arr (Some st) = Ok R) /\
  (forall d s,
      shape arr = S d :: s ->
      new PWC [] arr None = Raise (ArrayError EmptySequence) /\
      exists R, new Modulated [] arr None = Ok R) /\
  (forall s,
      shape arr = 0 :: s ->
      new PWC [] arr None = Raise (ArrayError IndexOutOfBounds) /\
      new Modulated [] arr None = Raise (ArrayError IndexOutOfBounds)).
Proof.
  assert (Hrev : forall d s, shape arr = d :: s ->
                             exists m r, rev (shape arr) = m :: r).
  { intros d s Hs. destruct (rev (shape arr)) as [|m r] eqn:E;
      [|now exists m, r].
    rewrite <- (rev_involutive (shape arr)), E in Hs. discriminate. }
  unfold new, PWCTimeArray__init__, ModulatedTimeArray__init__,
    FactorTimeArray__init__.
  split; [|split; [|split; [|split]]].
  - intros st0. destruct (rev (shape arr)) as [|m r]; cbn [bind].
    + now eexists.
    + destruct st0 as [st|]; cbn [bind mapM concat_times].
      * now eexists.
      * destruct (index_first arr); cbn [bind mapM concat_times]; now eexists.
  - intros st0 R HR t. destruct (rev (shape arr)) as [|m r]; [discriminate|].
    cbn [bind] in HR.
    destruct (match st0 with
              | Some s0 => Ok s0
              | None => a0 <- index_first arr ;; Ok (zeros_like a0)
              end); cbn [bind] in HR; [|discriminate].
    injection HR as <-. reflexivity.
  - intros Hs st. destruct (shape arr) as [|d s] eqn:E; [congruence|].
    destruct (Hrev d s eq_refl) as (m & r & ->).
    cbn [bind mapM concat_times]. split; [reflexivity | now eexists].
  - intros d s Hs. destruct (Hrev _ _ Hs) as (m & r & ->).
    unfold index_first. rewrite Hs. cbn [bind mapM concat_times].
    split; [reflexivity | now eexists].
  - intros s Hs. destruct (Hrev _ _ Hs) as (m & r & ->).
    unfold index_first. rewrite Hs. cbn [bind]. split; reflexivity.
Qed.

(** X27.  Reshaping a constant or a callable time array and reshaping the result
    back to the shape it had gives the time array one started from. *)
Theorem reshape_round_trip (s : list nat) (A' : TimeArray) :
  (forall x, TimeArray_reshape (ConstantTimeArray x) s = Ok A' ->
             TimeArray_reshape A' (shape x) = Ok (ConstantTimeArray x))
  /\
  (forall f (f0 : tensor C),
      TimeArray_reshape (CallableTimeArray f f0) s = Ok A' ->
      TimeArray_reshape A' (shape f0) = Ok (CallableTimeArray f f0)).
Proof.
  split.
  - intros x. cbn. unfold ConstantTimeArray_reshape, reshape.
    destruct (Nat.eqb_spec (size_of s) (size_of (shape x))) as [E|E];
      cbn [bind]; [|discriminate].
    intros [= <-]. cbn. unfold ConstantTimeArray_reshape, reshape. cbn [shape data].
    rewrite <- E, Nat.eqb_refl. cbn [bind]. now destruct x.
  - intros f f0. cbn. unfold CallableTimeArray_reshape, reshape.
    destruct (Nat.eqb_spec (size_of s) (size_of (shape f0))) as [E|E];
      cbn [bind]; [|discriminate].
    intros [= <-]. cbn. unfold CallableTimeArray_reshape, reshape. cbn [shape data].
    rewrite <- E, Nat.eqb_refl. cbn [bind]. now destruct f0.
Qed.

Context {L : ScalarLaws C}.

(** X28.  [_factory_pwc] on strictly increasing times [times[0..nv]] that
    [check_time_array] accepts, values of shape [(nv, d)] and a square
    matrix.  The factory checks the first axis of the values against the
    number of intervals, and the factor reads the intervals on the last
    axis: the time array is built, its factor has batch shape [(nv,)], and
    on the interval [k], for [k < d], its value has shape [(nv, m, m)] and
    entry [values[a, k] * array[r, c]] at [(a, r, c)]. *)
Theorem factory_pwc_batched_values
        (times : tensor time) (values array : tensor C) (dt : dtype)
        (nv d m : nat) :
  check_time_array times = Ok tt ->
  StronglySorted Qclt (data times) ->
  length (data times) = S nv ->
  0 < nv ->
  shape values = [nv; d] ->
  shape array = [m; m] ->
  exists A self x,
    _factory_pwc times values array dt = Ok A /\
    composite A = Some (PWC, self) /\
    factors self = [x] /\
    _Factor_shape x = [nv] /\
    forall t k, k < nv -> k < d ->
                (nth k (data times) 0 <= t)%Qc ->
                (t < nth (S k) (data times) 0)%Qc ->
                TimeArray__call__ A t
                = Ok (init [nv; m; m]
                        (fun idx =>
                           cmul (get values [nth 0 idx 0; k])
                                (get array [nth 1 idx 0; nth 2 idx 0]))).
Proof.
  intros Hchk Hsorted Hlen Hnv Hval Harr.
  unfold _factory_pwc. rewrite Hchk. cbn [bind]. rewrite Hval, Hlen.
  assert (Hd : (Z.of_nat nv =? Z.of_nat (S nv) - 1)%Z = true)
    by (apply Z.eqb_eq; lia).
  rewrite Hd, (is_square_matrix_true _ _ Harr). cbn [negb].
  unfold _PWCFactor. rewrite Hval. cbn [rev app bind].
  unfold PWCTimeArray__init__.
  rewrite (FactorTimeArray__init___default _ _ _ Harr).
  cbn [bind mapM _Factor_times concat_times concat].
  eexists _, _, _. split; [reflexivity|].
  cbn [composite factors]. split; [reflexivity|]. split; [reflexivity|].
  split; [cbn [_Factor_shape]; now rewrite Hval|].
  intros t k Hk Hkd Hk1 Hk2. cbn [TimeArray__call__].
  destruct (PWCFactor_call_cases (data times) values nv d [nv] t
              Hsorted Hlen Hnv Hval ltac:(lia)) as [_ Hin].
  specialize (Hin k Hk Hk1 Hk2). rewrite clamp_index_in_range in Hin by assumption.
  rewrite (single_factor_call _ array m t
             (init [nv] (fun idx => get values (idx ++ [k]))) [nv]);
    try assumption; [|reflexivity].
  f_equal. apply init_ext. intros idx Hidx.
  change ([nv] ++ [m; m]) with [nv; m; m] in Hidx.
  inversion Hidx as [|a ? rc ? Ha Hrc]; subst.
  apply valid_two in Hrc. destruct Hrc as (r & c & -> & Hr & Hc).
  change (but_last_two [a; r; c]) with [a].
  change (last_two [a; r; c]) with [r; c]. cbn [nth].
  now rewrite get_init by (repeat constructor; assumption).
Qed.

End CompositeConstruction.

(** ** PWC time arrays between two of their times *)

Lemma searchsorted_right_unique (a : list time) (t : time) (r : nat) :
  StronglySorted Qclt a ->
  r <= length a ->
  (forall i, i < r -> (nth i a 0 <= t)%Qc) ->
  (forall i, r <= i -> i < length a -> (t < nth i a 0)%Qc) ->
  searchsorted_right a t = r.
Proof.
  intros Hs Hr Hlow Hup.
  destruct (searchsorted_right_spec a t Hs) as (Hr0 & Hlow0 & Hup0).
  set (r0 := searchsorted_right a t) in *.
  destruct (Nat.lt_trichotomy r0 r) as [Hlt|[Heq|Hgt]]; [|assumption|].
  - exfalso. apply (Qclt_irrefl t).
    eapply Qclt_le_trans; [apply (Hup0 r0); lia | apply Hlow; lia].
  - exfalso. apply (Qclt_irrefl t).
    eapply Qclt_le_trans; [apply (Hup r); lia | apply Hlow0; lia].
Qed.

Section PWCBetweenTimes.

Context {C : Type} {SC : Scalar C}.

(** A PWC factor returns the same value at two times that none of its
    times separates. *)
Lemma PWCFactor_call_between (times : list time) (values : tensor C) (t t' : time) :
  StronglySorted Qclt times ->
  (t <= t')%Qc ->
  (forall z, In z times -> ~ (t < z /\ z <= t')%Qc) ->
  _PWCFactor__call__ times values t = _PWCFactor__call__ times values t'.
Proof.
  intros Hs Htt Hno. unfold _PWCFactor__call__.
  destruct times as [|x l]; [reflexivity|].
  cbn [first_time bind].
  assert (Hfirst : time_ltb t x = time_ltb t' x).
  { destruct (time_ltb t' x) eqn:E'.
    - apply time_ltb_lt in E'. apply time_ltb_lt.
      eapply Qcle_lt_trans; eassumption.
    - apply time_ltb_ge in E'. apply time_ltb_ge.
      apply Qcnot_lt_le. intros Hlt. apply (Hno x); [now left | now split]. }
  rewrite Hfirst. destruct (time_ltb t' x); [reflexivity|].
  unfold last_time. cbn [bind].
  set (tl := last (x :: l) x).
  assert (Hin : In tl (x :: l)).
  { unfold tl. rewrite (last_nth_length _ x x) by discriminate.
    apply nth_In. simpl. lia. }
  assert (Hlast : time_geb t tl = time_geb t' tl).
  { destruct (time_geb t tl) eqn:E.
    - apply time_geb_ge in E. symmetry. apply time_geb_ge.
      eapply Qcle_trans; eassumption.
    - apply time_geb_lt in E. symmetry. apply time_geb_lt.
      apply Qcnot_le_lt. intros Hle. apply (Hno tl); [assumption | now split]. }
  rewrite Hlast. destruct (time_geb t' tl); [reflexivity|].
  do 3 f_equal.
  destruct (searchsorted_right_spec (x :: l) t' Hs) as (Hr & Hlow & Hup).
  apply searchsorted_right_unique; try assumption.
  - intros i Hi. apply Qcnot_lt_le. intros Hlt.
    apply (Hno (nth i (x :: l) 0%Qc)).
    + apply nth_In. lia.
    + split; [assumption | now apply Hlow].
  - intros i Hi Hlen. eapply Qcle_lt_trans; [exact Htt | now apply Hup].
Qed.

(** X29.  A constructed PWC time array whose factors have strictly increasing
    times is constant between two consecutive merged times: at two times
    [t <= t'] with none of the merged times in [(t, t']], the calls are the
    same (the same value or the same exception). *)
Theorem pwc_constant_between_times
        (fs : list _Factor) (arr : tensor C) (st0 : option (tensor C))
        (A : TimeArray) (t t' : time) :
  new PWC fs arr st0 = Ok A ->
  (forall x ts, In x fs -> _Factor_times x = Ok ts -> StronglySorted Qclt ts) ->
  (t <= t')%Qc ->
  (forall z, In z (merged_times A) -> ~ (t < z /\ z <= t')%Qc) ->
  TimeArray__call__ A t = TimeArray__call__ A t'.
Proof.
  intros Hnew Hsorted Htt Hno. apply new_PWC_inv in Hnew.
  destruct Hnew as (m & r & st & ts & _ & Hts & _ & ->).
  cbn [merged_times TimeArray__call__] in *.
  unfold FactorTimeArray__call__. cbn [factors arrays static].
  assert (Hcalls : mapM (fun x => _Factor__call__ x t) fs
                   = mapM (fun x => _Factor__call__ x t') fs).
  { assert (Hall : forall x, In x fs ->
                     _Factor__call__ x t = _Factor__call__ x t').
    { intros x Hx.
      destruct x as [times values nv|f f0].
      - cbn [_Factor__call__]. apply PWCFactor_call_between; [| assumption |].
        + now apply (Hsorted (PWCFactor times values nv) times).
        + intros z Hz. apply Hno. rewrite In_unique, in_concat.
          exists times. split; [|assumption].
          apply (mapM_In _ _ _ _ Hts). now exists (PWCFactor times values nv).
      - exfalso. clear - Hts Hx. revert ts Hts.
        induction fs as [|x0 fs IH]; intros ts; [destruct Hx|].
        cbn [mapM]. destruct Hx as [-> | Hx]; [discriminate|].
        destruct (_Factor_times x0); cbn [bind]; [|discriminate].
        destruct (mapM _Factor_times fs) as [ts1|e]; cbn [bind]; [|discriminate].
        intros _. now apply (IH Hx ts1). }
    clear - Hall. induction fs as [|x fs IH]; [reflexivity|].
    cbn [mapM]. rewrite (Hall x) by now left.
    rewrite IH by (intros y Hy; apply Hall; now right). reflexivity. }
  now rewrite Hcalls.
Qed.

(** X30.  The factors of a composite time array are stacked, not broadcast: when
    two of them return, at time [t], values of two different shapes, the
    call raises. *)
Theorem composite_call_needs_one_batch_shape
        (A : TimeArray) (cls : factor_class) (self : FactorTimeArray) (t : time)
        (vs : list (tensor C)) (v : tensor C) :
  composite A = Some (cls, self) ->
  mapM (fun x => _Factor__call__ x t) (factors self) = Ok vs ->
  In v vs ->
  shape v <> shape (hd v vs) ->
  TimeArray__call__ A t = Raise (ArrayError IncompatibleShapes).
Proof.
  intros HA Hmap Hin Hne. rewrite (composite_call _ _ _ t HA).
  unfold FactorTimeArray__call__. rewrite Hmap. cbn [bind].
  destruct vs as [|a l]; [destruct Hin|]. cbn [hd] in Hne.
  now rewrite (stack_mismatch a v l (-1) Hin Hne).
Qed.

End PWCBetweenTimes.

(** * The further properties at concrete inputs *)

Lemma callable_arith_call_witness :
  TimeArray__call__ ex_callable (tq 1) = Ok ex_f0 /\
  (forall R, TimeArray__mul__ ex_callable ex_f0 = Ok R ->
             TimeArray__call__ R (tq 1) = tmul ex_f0 ex_f0) /\
  (forall R, py_add 1 (OTimeArray ex_callable) (OArray ex_f0) = Ok (OTimeArray R) ->
             TimeArray__call__ R (tq 1) = tadd ex_f0 ex_f0).
Proof.
  destruct (callable_arith_call (fun _ => Ok ex_f0) ex_f0 ex_f0 (tq 1) ex_f0
              eq_refl eq_refl) as (H1 & H2 & H3 & _).
  repeat split; assumption.
Defined.

Lemma callable_mT_call_witness :
  exists R,
    TimeArray_mT ex_callable = Ok (Some R) /\
    TimeArray__call__ R (tq 1) = mT ex_f0.
Proof.
  apply (proj1 (callable_mT_call (fun _ => Ok ex_f0) ex_f0 (tq 1) ex_f0
                  eq_refl eq_refl)).
  unfold ndim. simpl. lia.
Defined.

Lemma callable_sub_call_witness :
  exists R,
    py_sub 1 (OTimeArray ex_callable) (OArray ex_f0) = Ok (OTimeArray R) /\
    TimeArray__call__ R (tq 1)
    = Ok (mkTensor [2; 1; 1] [gq 0 0; gq 0 0]).
Proof.
  eexists. split; [reflexivity|].
  refine (eq_trans
            (proj2 (callable_sub_call (L := GQ_laws)
                      (fun _ => Ok ex_f0) ex_f0 ex_f0 (tq 1) ex_f0 _
                      eq_refl eq_refl eq_refl)) _).
  vm_compute. reflexivity.
Defined.

Lemma composite_neg_call_witness :
  exists R,
    py_neg (OTimeArray ex_pwc) = Ok (OTimeArray R) /\
    forall t, TimeArray__call__ R t
              = (v <- TimeArray__call__ ex_pwc t ;; Ok (tneg v)).
Proof.
  destruct (composite_neg_call (L := GQ_laws) (LR := GQ_ring_laws)
              PWC [ex_factor] (expand0 ex_matrix) None ex_pwc ex_self
              (proj2 ex_pwc_built) eq_refl)
    as (R & self' & H1 & _ & _ & _ & _ & _ & H2).
  exists R. split; assumption.
Defined.

Lemma composite_conj_call_witness :
  exists R,
    TimeArray_conj ex_pwc = Ok R /\
    merged_times R = ex_times /\
    forall t, TimeArray__call__ R t
              = (v <- TimeArray__call__ ex_pwc t ;; Ok (tconj v)).
Proof.
  destruct (composite_conj_call (L := GQ_laws)
              PWC [ex_factor] [PWCFactor ex_times (tconj ex_values) 2]
              (expand0 ex_matrix) None ex_pwc ex_self
              (proj2 ex_pwc_built) eq_refl eq_refl)
    as (R & self' & H1 & _ & _ & _ & _ & Ht & H2).
  exists R. repeat split; assumption.
Defined.

Lemma composite_sub_array_call_witness :
  exists R self',
    py_sub 1 (OTimeArray ex_pwc) (OArray ex_matrix) = Ok (OTimeArray R) /\
    composite R = Some (PWC, self') /\
    static self' = mkTensor [2; 2] [gq (-1) 0; gq (-2) 0; gq (-3) 0; gq (-4) 0] /\
    forall t,
      TimeArray__call__ R t
      = (s <- factor_part ex_self t ;;
         tadd s (mkTensor [2; 2] [gq (-1) 0; gq (-2) 0; gq (-3) 0; gq (-4) 0])).
Proof.
  destruct (composite_sub_array_call (L := GQ_laws)
              PWC [ex_factor] (expand0 ex_matrix) None ex_pwc ex_self ex_matrix
              (mkTensor [2; 2] [gq (-1) 0; gq (-2) 0; gq (-3) 0; gq (-4) 0])
              (proj2 ex_pwc_built) eq_refl ltac:(vm_compute; reflexivity))
    as (R & self' & H1 & Hc & _ & _ & Hs & _ & H2).
  exists R, self'. split; [|split; [|split]]; try assumption.
  intros t. apply (H2 t).
Defined.

Lemma composite_rsub_array_call_witness :
  exists R self',
    py_sub 2 (OArray ex_matrix) (OTimeArray ex_pwc) = Ok (OTimeArray R) /\
    composite R = Some (PWC, self') /\
    arrays self' = tneg (expand0 ex_matrix) /\
    static self' = ex_matrix /\
    forall t, TimeArray__call__ R t
              = (s <- factor_part ex_self t ;; tadd (tneg s) ex_matrix).
Proof.
  destruct (composite_rsub_array_call (L := GQ_laws) (LR := GQ_ring_laws)
              PWC [ex_factor] (expand0 ex_matrix) None ex_pwc ex_self ex_matrix
              ex_matrix
              (proj2 ex_pwc_built) eq_refl ltac:(vm_compute; reflexivity))
    as (R & self' & H1 & Hc & _ & Ha & Hs & _ & H2).
  exists R, self'. split; [|split; [|split; [|split]]]; try assumption.
  intros t. apply (H2 t).
Defined.

Lemma composite_radd_call_witness :
  exists R self',
    py_add 2 (OArray ex_matrix) (OTimeArray ex_pwc) = Ok (OTimeArray R) /\
    py_add 2 (OTimeArray (ConstantTimeArray ex_matrix)) (OTimeArray ex_pwc)
    = Ok (OTimeArray R) /\
    composite R = Some (PWC, self') /\
    static self' = ex_matrix /\
    forall t, TimeArray__call__ R t
              = (s <- factor_part ex_self t ;; tadd s ex_matrix).
Proof.
  destruct (composite_radd_call
              PWC [ex_factor] (expand0 ex_matrix) None ex_pwc ex_self ex_matrix
              ex_matrix
              (proj2 ex_pwc_built) eq_refl ltac:(vm_compute; reflexivity))
    as (R & self' & _ & H1 & H2 & Hc & _ & _ & Hs & H3).
  exists R, self'. split; [|split; [|split; [|split]]]; try assumption.
  intros t. apply (H3 t).
Defined.

Lemma constant_sub_call_witness :
  py_sub 1 (OTimeArray (ConstantTimeArray ex_matrix)) (OArray ex_h)
  = (r <- tsub ex_matrix ex_h ;; Ok (OTimeArray (ConstantTimeArray r)))
  /\ py_sub 2 (OArray ex_h) (OTimeArray (ConstantTimeArray ex_matrix))
     = (r <- tsub ex_h ex_matrix ;; Ok (OTimeArray (ConstantTimeArray r))).
Proof.
  destruct (constant_sub_call (L := GQ_laws) ex_matrix ex_h) as (H1 & _ & H3).
  split; assumption.
Defined.

(** The example plus itself, at a time of the first interval. *)
Lemma composite_sum_call_witness :
  exists R,
    py_add 1 (OTimeArray ex_pwc) (OTimeArray ex_pwc) = Ok (OTimeArray R) /\
    TimeArray__call__ R (tq 0)
    = Ok (mkTensor [2; 2] [gq 10 0; gq 20 0; gq 30 0; gq 40 0]).
Proof.
  destruct (composite_sum_call
              PWC [ex_factor] [ex_factor] (expand0 ex_matrix) (expand0 ex_matrix)
              None None ex_pwc ex_pwc ex_self ex_self (tq 0)
              [mkTensor [] [gq 5 0]] [mkTensor [] [gq 5 0]] [] 2
              (proj2 ex_pwc_built) (proj2 ex_pwc_built) eq_refl eq_refl
              ltac:(discriminate) ltac:(discriminate)
              ltac:(vm_compute; reflexivity) ltac:(vm_compute; reflexivity)
              ltac:(repeat constructor) ltac:(repeat constructor)
              eq_refl eq_refl eq_refl eq_refl)
    as (R & arrR & stR & a & b & v & H1 & H2 & H3 & _ & _ & _ & _ & H4 & H5 & _).
  exists R. split; [assumption|].
  rewrite H4, <- H5.
  assert (Ha : Ok arrR = Ok (mkTensor [2; 2; 2] (data ex_matrix ++ data ex_matrix)))
    by (rewrite <- H2; vm_compute; reflexivity).
  assert (Hs : Ok stR = Ok (mkTensor [2; 2] [gq 0 0; gq 0 0; gq 0 0; gq 0 0]))
    by (rewrite <- H3; vm_compute; reflexivity).
  injection Ha as ->. injection Hs as ->. vm_compute. reflexivity.
Defined.

(** Twice the example, as a product with the scalar 2. *)
Lemma composite_mul_call_witness :
  exists R,
    TimeArray__mul__ ex_pwc (mkTensor [] [gq 2 0]) = Ok R /\
    TimeArray__call__ R (tq 0)
    = Ok (mkTensor [2; 2] [gq 10 0; gq 20 0; gq 30 0; gq 40 0]).
Proof.
  destruct (composite_mul_call
              PWC [ex_factor] (expand0 ex_matrix) None ex_pwc ex_self
              (mkTensor [] [gq 2 0]) (tq 0) [mkTensor [] [gq 5 0]] [] 2
              (proj2 ex_pwc_built) eq_refl ltac:(discriminate)
              ltac:(vm_compute; reflexivity) ltac:(repeat constructor)
              eq_refl eq_refl (or_intror eq_refl))
    as (R & self' & a & v & H1 & _ & _ & _ & Ha & Hs & _ & _ & _ & H2 & H3).
  exists R. split; [assumption|].
  rewrite H2, <- H3.
  assert (Ha' : Ok (arrays self')
                = Ok (mkTensor [1; 2; 2] [gq 2 0; gq 4 0; gq 6 0; gq 8 0]))
    by (rewrite <- Ha; vm_compute; reflexivity).
  assert (Hs' : Ok (static self')
                = Ok (mkTensor [2; 2] [gq 0 0; gq 0 0; gq 0 0; gq 0 0]))
    by (rewrite <- Hs; vm_compute; reflexivity).
  injection Ha' as ->. injection Hs' as ->. vm_compute. reflexivity.
Defined.

(** The example reshaped to a batch of one matrix. *)
Lemma composite_reshape_call_witness :
  exists R,
    TimeArray_reshape ex_pwc [1; 7; 7] = Ok R /\
    TimeArray_reshape ex_pwc [1; 2; 2] = Ok R /\
    TimeArray__call__ R (tq 0)
    = Ok (mkTensor [1; 2; 2] [gq 5 0; gq 10 0; gq 15 0; gq 20 0]).
Proof.
  eexists. split; [vm_compute; reflexivity|].
  destruct (composite_reshape_call
              PWC [ex_factor] (expand0 ex_matrix) None ex_pwc _ ex_self
              [1] 7 7 (tq 0) [mkTensor [] [gq 5 0]] [] 2
              (proj2 ex_pwc_built) eq_refl
              ltac:(repeat constructor; now exists [])
              ltac:(discriminate) ltac:(vm_compute; reflexivity)
              ltac:(repeat constructor) eq_refl eq_refl
              ltac:(vm_compute; reflexivity))
    as (a & H1 & _ & H2 & H3).
  split; [exact H1|]. rewrite H3.
  assert (Ha : Ok a = Ok (mkTensor [2; 2] [gq 5 0; gq 10 0; gq 15 0; gq 20 0]))
    by (rewrite <- H2; vm_compute; reflexivity).
  injection Ha as ->. vm_compute. reflexivity.
Defined.

Lemma factor_reshape_call_witness :
  exists x',
    _Factor_reshape ex_factor [1; 1] = Ok x' /\
    _Factor_shape x' = [1; 1] /\
    forall t, _Factor__call__ x' t
              = (v <- _Factor__call__ ex_factor t ;; reshape v [1; 1]).
Proof.
  eexists. split; [reflexivity|].
  destruct (factor_reshape_call ex_factor _ [1; 1]
              (ex_intro _ [] eq_refl) eq_refl) as (H1 & _ & H2).
  split; assumption.
Defined.

(** The PWC time array of the spec's boundary law, through the factory. *)
Lemma factory_pwc_call_witness :
  exists A,
    _factory_pwc (mkTensor [3] ex_times) ex_values ex_matrix complex128 = Ok A /\
    merged_times A = ex_times /\
    TimeArray__call__ A (tq 2) = Ok (zeros [2; 2]) /\
    TimeArray__call__ A (tq 1) = Ok (tscale (get ex_values [1]) ex_matrix).
Proof.
  destruct (factory_pwc_call (L := GQ_laws)
              (mkTensor [3] ex_times) ex_values ex_matrix complex128 2 2
              eq_refl ex_times_sorted eq_refl (Nat.lt_0_succ 1) eq_refl eq_refl)
    as (A & self & H1 & _ & _ & _ & _ & Ht & Hout & Hin).
  exists A. repeat split; try assumption.
  - apply Hout. right. vm_compute. discriminate.
  - apply (Hin (tq 1) 1); [lia | vm_compute; discriminate | vm_compute; reflexivity].
Defined.

(** Batched values on the same times: the first axis becomes the batch. *)
Lemma factory_pwc_batched_values_witness :
  exists A,
    _factory_pwc (mkTensor [3] ex_times) ex_batched_values ex_matrix complex128
    = Ok A /\
    TimeArray__call__ A (tq 1)
    = Ok (init [2; 2; 2]
            (fun idx => cmul (get ex_batched_values [nth 0 idx 0; 1])
                             (get ex_matrix [nth 1 idx 0; nth 2 idx 0]))).
Proof.
  destruct (factory_pwc_batched_values (L := GQ_laws)
              (mkTensor [3] ex_times) ex_batched_values ex_matrix complex128 2 2 2
              eq_refl ex_times_sorted eq_refl (Nat.lt_0_succ 1) eq_refl eq_refl)
    as (A & self & x & H1 & _ & _ & _ & Hin).
  exists A. split; [assumption|].
  apply (Hin (tq 1) 1); [lia | lia | vm_compute; discriminate | vm_compute; reflexivity].
Defined.

(** The modulated time array [t -> t * M], at [t = 3]. *)
Lemma factory_modulated_call_witness :
  exists A,
    _factory_modulated (PyFunction ex_ramp) ex_matrix complex128 = Ok A /\
    TimeArray__call__ A (tq 3)
    = Ok (mkTensor [2; 2] [gq 3 0; gq 6 0; gq 9 0; gq 12 0]).
Proof.
  destruct (factory_modulated_call (L := GQ_laws)
              ex_ramp ex_matrix complex128 complex128 (mkTensor [] [(0%Qc, 0%Qc)]) 2
              eq_refl (or_introl eq_refl) eq_refl)
    as (A & self & H1 & _ & _ & _ & _ & Hcall & _).
  exists A. split; [assumption|].
  rewrite (Hcall (tq 3) complex128 (mkTensor [] [(tq 3, 0%Qc)])
                 (mkTensor [] [(tq 3, 0%Qc)]) eq_refl eq_refl).
  vm_compute. reflexivity.
Defined.

Lemma factory_callable_call_witness :
  exists A,
    _factory_callable ex_ramp complex128 = Ok A /\
    TimeArray_ndim A = Ok 0 /\
    TimeArray__call__ A (tq 3) = Ok (mkTensor [] [(tq 3, 0%Qc)]).
Proof.
  destruct (factory_callable_call ex_ramp complex128 (mkTensor [] [(0%Qc, 0%Qc)])
              eq_refl) as (A & H1 & _ & H2 & H3 & _).
  exists A. repeat split; try assumption.
  exact (H3 (tq 3) complex128 (mkTensor [] [(tq 3, 0%Qc)]) eq_refl).
Defined.

(** One jump operator [L]: [sum_no_jump] is [L.adjoint() @ L]. *)
Lemma sum_no_jump_entries_witness :
  sum_no_jump ex_jump_solver
  = Ok (mkTensor [2; 2] [gq 0 0; gq 0 0; gq 0 0; gq 1 0]).
Proof.
  refine (eq_trans (sum_no_jump_entries (fun _ => Ok ex_h) ex_jump 1 2 eq_refl) _).
  vm_compute. reflexivity.
Defined.

Lemma sum_no_jump_hermitian_witness :
  exists s, sum_no_jump ex_jump_solver = Ok s /\ adjoint s = Ok s.
Proof.
  destruct (sum_no_jump_hermitian (L := GQ_laws) (LR := GQ_ring_laws)
              (fun _ => Ok ex_h) ex_jump 1 2 eq_refl) as (s & H1 & _ & H2).
  exists s. split; assumption.
Defined.

Lemma H_nh_entries_witness :
  H_nh ex_jump_solver (tq 0)
  = Ok (mkTensor [2; 2] [gq 1 0; gq 0 1; gq 0 0; (Q2Qc 2, Q2Qc (-1 # 2))]).
Proof.
  destruct (H_nh_entries (fun _ => Ok ex_h) ex_jump ex_h (tq 0) [] 1 2
              eq_refl eq_refl eq_refl) as (s & H1 & _ & H2).
  refine (eq_trans H2 _).
  assert (Hs : Ok s = Ok (mkTensor [2; 2] [gq 0 0; gq 0 0; gq 0 0; gq 1 0]))
    by (rewrite <- H1; vm_compute; reflexivity).
  injection Hs as ->. vm_compute. reflexivity.
Defined.

Lemma to_tensor_list_of_arrays_witness :
  to_tensor (PyList [PyTorchTensor ex_matrix; PyNdarray ex_h])
  = Ok (mkTensor [2; 2; 2]
          [gq 1 0; gq 2 0; gq 3 0; gq 4 0; gq 1 0; gq 0 1; gq 0 0; gq 2 0])
  /\ to_tensor (PyList [PyTorchTensor ex_matrix; PyNdarray ex_not_square])
     = Raise (ArrayError IncompatibleShapes).
Proof.
  split.
  - refine (eq_trans
              (proj1 (to_tensor_list_of_arrays
                        [PyTorchTensor ex_matrix; PyNdarray ex_h]
                        [ex_matrix; ex_h] [2; 2] _ _) _) _).
    + discriminate.
    + constructor; [now left | constructor; [now right | constructor]].
    + repeat constructor.
    + vm_compute. reflexivity.
  - refine (proj2 (to_tensor_list_of_arrays
                     [PyTorchTensor ex_matrix; PyNdarray ex_not_square]
                     [ex_matrix; ex_not_square] [2; 2] _ _)
                  ex_matrix ex_not_square eq_refl _ _).
    + discriminate.
    + constructor; [now left | constructor; [now right | constructor]].
    + right. now left.
    + discriminate.
Defined.

Lemma pwc_times_invariant_witness :
  StronglySorted Qclt (merged_times ex_pwc) /\
  (forall z, In z (merged_times ex_pwc)
             <-> exists x ts, In x [ex_factor] /\ _Factor_times x = Ok ts /\ In z ts).
Proof.
  destruct (pwc_times_invariant [ex_factor] (expand0 ex_matrix) None ex_pwc
              (proj2 ex_pwc_built)) as (_ & _ & H1 & H2).
  split; assumption.
Defined.

Lemma composite_without_factors_witness :
  new PWC [] (expand0 ex_matrix) (Some ex_matrix) = Raise (ArrayError EmptySequence)
  /\ new Modulated [] ex_no_jump None = Raise (ArrayError IndexOutOfBounds)
  /\ exists R,
      new Modulated [] (expand0 ex_matrix) None = Ok R /\
      forall t, TimeArray__call__ R t = Raise (ArrayError EmptySequence).
Proof.
  pose proof (composite_without_factors (expand0 ex_matrix))
    as (_ & Hcall & Hst & Hdef & _).
  pose proof (composite_without_factors ex_no_jump) as (_ & _ & _ & _ & Hzero).
  split; [|split].
  - apply (Hst ltac:(discriminate) ex_matrix).
  - apply (Hzero [2; 2] eq_refl).
  - destruct (Hdef 0 [2; 2] eq_refl) as (_ & R & HR).
    exists R. split; [exact HR|]. exact (Hcall None R HR).
Defined.

(** The example is constant on the interval from 0 to 1. *)
Lemma pwc_constant_between_times_witness :
  TimeArray__call__ ex_pwc (Q2Qc (1 # 4)) = TimeArray__call__ ex_pwc (Q2Qc (3 # 4)).
Proof.
  apply (pwc_constant_between_times [ex_factor] (expand0 ex_matrix) None ex_pwc
           (Q2Qc (1 # 4)) (Q2Qc (3 # 4)) (proj2 ex_pwc_built)).
  - intros x ts [<- | []] [= <-]. exact ex_times_sorted.
  - vm_compute. discriminate.
  - intros z [<- | [<- | [<- | []]]] [H1 H2].
    + vm_compute in H1. discriminate.
    + apply H2. vm_compute. reflexivity.
    + apply H2. vm_compute. reflexivity.
Defined.

Lemma callable_reshape_call_witness :
  (exists R,
      TimeArray_reshape ex_callable [2; 1; 1; 1] = Ok R /\
      forall t, TimeArray__call__ R t
                = (v <- TimeArray__call__ ex_callable t ;; reshape v [2; 1; 1; 1]))
  /\ TimeArray_reshape ex_callable [3] = Raise (ArrayError BadReshape).
Proof.
  destruct (callable_reshape_call (fun _ => Ok ex_f0) ex_f0 [2; 1; 1; 1])
    as [H1 _].
  destruct (callable_reshape_call (fun _ => Ok ex_f0) ex_f0 [3]) as [_ H2].
  split.
  - destruct (H1 eq_refl) as (R & HR & _ & Hcall). now exists R.
  - apply H2. simpl. lia.
Defined.


Lemma reshape_round_trip_witness :
  exists A',
    TimeArray_reshape ex_callable [2; 1; 1; 1] = Ok A' /\
    TimeArray_reshape A' [2; 1; 1] = Ok ex_callable.
Proof.
  eexists. split; [reflexivity|].
  apply (proj2 (reshape_round_trip [2; 1; 1; 1] _) (fun _ => Ok ex_f0) ex_f0).
  reflexivity.
Defined.

(** Two factors, one with scalar values and one with a batch of two. *)
Lemma composite_call_needs_one_batch_shape_witness :
  TimeArray__call__ ex_mixed (tq 0) = Raise (ArrayError IncompatibleShapes).
Proof.
  apply (composite_call_needs_one_batch_shape ex_mixed PWC ex_mixed_self (tq 0)
           [mkTensor [] [gq 5 0]; mkTensor [2] [gq 1 0; gq 3 0]]
           (mkTensor [2] [gq 1 0; gq 3 0]) eq_refl).
  - vm_compute. reflexivity.
  - right. now left.
  - discriminate.
Defined.
